(** * Feedback segmenter and renderer of the results page

    A shallow embedding of the text utilities of [app/results/page.tsx]
    (kept in [components/hero-section.tsx] of the source tree): [esc],
    [normalize], [splitCombinedBlob], [pickRfds], [toSectionedHTML] and
    [toVerbalHTML], together with the parts of the JavaScript string and
    regular-expression library they call.

    A JavaScript string is a sequence of UTF-16 code units; a code unit is
    modelled by its number in [N] and a string by a list of code units. *)

From Stdlib Require Import List NArith ZArith Bool Ascii String Lia Arith.
Import ListNotations.

Set Warnings "-register-all".

(* ================================================================== *)
(** ** Strings of code units *)
(* ================================================================== *)

Abbreviation char := N (only parsing).
Abbreviation jstring := (list N) (only parsing).

(** Code unit of an ASCII character, and the string of an ASCII literal. *)
Definition ch (a : ascii) : char := N_of_ascii a.
Definition str (s : string) : jstring := List.map N_of_ascii (list_ascii_of_string s).

Definition jstring_eqb (a b : jstring) : bool :=
  if list_eq_dec N.eq_dec a b then true else false.

(** The engine's white space: the characters removed by [String.prototype.trim]
    and matched by the class [\s] (WhiteSpace and LineTerminator of the
    language definition). *)
Definition is_space (c : char) : bool :=
  ((c =? 9) || (c =? 10) || (c =? 11) || (c =? 12) || (c =? 13) || (c =? 32)
   || (c =? 160) || (c =? 5760) || ((8192 <=? c) && (c <=? 8202))
   || (c =? 8232) || (c =? 8233) || (c =? 8239) || (c =? 8287)
   || (c =? 12288) || (c =? 65279))%N.

(** [[ \t]] *)
Definition is_blank (c : char) : bool := ((c =? 32) || (c =? 9))%N.
(** [\n] *)
Definition is_nl (c : char) : bool := (c =? 10)%N.
(** [\d] *)
Definition is_digit (c : char) : bool := ((48 <=? c) && (c <=? 57))%N.
(** [[-\s]] *)
Definition is_dash_or_space (c : char) : bool := (c =? 45)%N || is_space c.

Fixpoint drop_while (f : char -> bool) (s : jstring) : jstring :=
  match s with
  | [] => []
  | c :: t => if f c then drop_while f t else s
  end.

Definition trim_start (s : jstring) : jstring := drop_while is_space s.

(** Removal of the trailing white space, written as a right fold: a character
    is kept when something is kept after it or when it is not white space. *)
Fixpoint trim_end (s : jstring) : jstring :=
  match s with
  | [] => []
  | c :: t =>
      match trim_end t with
      | [] => if is_space c then [] else [c]
      | t' => c :: t'
      end
  end.

(** [s.trim()] *)
Definition trim (s : jstring) : jstring := trim_end (trim_start s).

(** [s.replaceAll(c, rep)] for a one-character search string [c]. *)
Definition replaceAll (c : char) (rep : jstring) (s : jstring) : jstring :=
  flat_map (fun x => if (x =? c)%N then rep else [x]) s.

(** [parts.join(sep)] *)
Fixpoint join (sep : jstring) (parts : list jstring) : jstring :=
  match parts with
  | [] => []
  | [p] => p
  | p :: rest => p ++ sep ++ join sep rest
  end.

(** [s.slice(from)] and [s.slice(from, to)], negative indices counting from
    the end as the library does. *)
Definition clamp_index (len : nat) (i : Z) : nat :=
  if (i <? 0)%Z then Z.to_nat (Z.max (Z.of_nat len + i) 0)
  else Nat.min (Z.to_nat i) len.

Definition slice (s : jstring) (from : Z) (to : option Z) : jstring :=
  let len := List.length s in
  let a := clamp_index len from in
  let b := match to with Some e => clamp_index len e | None => len end in
  firstn (b - a) (skipn a s).

(* ================================================================== *)
(** ** Regular expressions

    A pattern is run at the head of a suffix of the subject and gives the
    rest of the subject after the match.  The patterns of this program are
    all sequences of literals, of greedy repetitions of a character class
    followed by a character outside that class, of options whose
    continuation cannot fail, and of alternatives that start with different
    letters: for them the first match of the backtracking engine is the
    greedy one computed here. *)
(* ================================================================== *)

Definition pat := jstring -> option jstring.

(** Canonicalisation of the [i] flag (without the [u] flag): a code unit is
    compared through its upper case, and a code unit above 127 is never
    identified with an ASCII one. *)
Definition upper (c : char) : char :=
  if ((97 <=? c) && (c <=? 122))%N then (c - 32)%N else c.

Definition p_seq (p q : pat) : pat :=
  fun s => match p s with Some r => q r | None => None end.

Definition p_alt (p q : pat) : pat :=
  fun s => match p s with Some r => Some r | None => q s end.

Definition p_opt (p : pat) : pat :=
  fun s => match p s with Some r => Some r | None => Some s end.

(** [cls*] and [cls+], greedy. *)
Definition p_star (cls : char -> bool) : pat :=
  fun s => Some (drop_while cls s).

Definition p_plus (cls : char -> bool) : pat :=
  fun s => match s with
           | c :: t => if cls c then Some (drop_while cls t) else None
           | [] => None
           end.

(** [cls{n,}], greedy. *)
Definition p_at_least (n : nat) (cls : char -> bool) : pat :=
  fun s => let r := drop_while cls s in
           if n <=? List.length s - List.length r then Some r else None.

(** One literal character, and a literal word, under the [i] flag. *)
Definition p_char (x : char) : pat :=
  fun s => match s with
           | c :: t => if (upper c =? upper x)%N then Some t else None
           | [] => None
           end.

Fixpoint p_word (w : jstring) : pat :=
  match w with
  | [] => fun s => Some s
  | x :: w' => p_seq (p_char x) (p_word w')
  end.

(** [$] (no [m] flag: the end of the subject). *)
Definition p_end : pat :=
  fun s => match s with [] => Some [] | _ => None end.

Declare Scope pat_scope.
Delimit Scope pat_scope with pat.
Infix ">>" := p_seq (at level 61, right associativity) : pat_scope.
Infix "<|>" := p_alt (at level 62, right associativity) : pat_scope.

(** Length of the match of [p] at the head of [s]. *)
Definition match_length (s rest : jstring) : nat :=
  List.length s - List.length rest.

(** [s.search(re)]: index of the first position where [re] matches, or -1. *)
Fixpoint search (p : pat) (s : jstring) : Z :=
  match p s with
  | Some _ => 0%Z
  | None =>
      match s with
      | [] => (-1)%Z
      | _ :: t => let i := search p t in
                  if (i <? 0)%Z then (-1)%Z else (i + 1)%Z
      end
  end.

(** [re.test(s)] for a pattern without [^]: some position matches. *)
Definition test (p : pat) (s : jstring) : bool := (0 <=? search p s)%Z.

(** [re.test(s)] for a pattern that starts with [^] (no [m] flag): only the
    start of the subject is tried. *)
Definition test_at_start (p : pat) (s : jstring) : bool :=
  match p s with Some _ => true | None => false end.

(** [s.replace(re, rep)] without the [g] flag: the first match is replaced. *)
Fixpoint replace_first (p : pat) (rep : jstring) (s : jstring) : jstring :=
  match p s with
  | Some rest => rep ++ rest
  | None =>
      match s with
      | [] => []
      | c :: t => c :: replace_first p rep t
      end
  end.

(** [s.replace(re, rep)] with the [g] flag.  [skip] counts the characters of
    the current match that are still to be passed over; an empty match is
    replaced and the engine moves on by one character. *)
Fixpoint replace_all_from (p : pat) (rep : jstring) (skip : nat) (s : jstring)
  : jstring :=
  match s with
  | [] => match skip, p [] with
          | 0, Some _ => rep
          | _, _ => []
          end
  | c :: t =>
      match skip with
      | S k => replace_all_from p rep k t
      | 0 =>
          match p s with
          | Some rest =>
              match match_length s rest with
              | 0 => rep ++ c :: replace_all_from p rep 0 t
              | S k => rep ++ replace_all_from p rep k t
              end
          | None => c :: replace_all_from p rep 0 t
          end
      end
  end.

Definition replace_all (p : pat) (rep : jstring) (s : jstring) : jstring :=
  replace_all_from p rep 0 s.

(** [s.split(sep)] for a one-character separator string. *)
Definition cons_head (c : char) (parts : list jstring) : list jstring :=
  match parts with
  | [] => [[c]]
  | l :: ls => (c :: l) :: ls
  end.

Fixpoint split_char (sep : char) (s : jstring) : list jstring :=
  match s with
  | [] => [[]]
  | c :: t => if (c =? sep)%N then [] :: split_char sep t
              else cons_head c (split_char sep t)
  end.

(** [s.split(re)] for a pattern that matches no empty string.  The list
    starts with the piece being read; a match closes it and is passed over. *)
Fixpoint split_re_from (p : pat) (skip : nat) (s : jstring) : list jstring :=
  match s with
  | [] => [[]]
  | c :: t =>
      match skip with
      | S k => split_re_from p k t
      | 0 =>
          match p s with
          | Some rest =>
              match match_length s rest with
              | 0 => cons_head c (split_re_from p 0 t)
              | S k => [] :: split_re_from p k t
              end
          | None => cons_head c (split_re_from p 0 t)
          end
      end
  end.

Definition split_re (p : pat) (s : jstring) : list jstring :=
  split_re_from p 0 s.

(* ================================================================== *)
(** ** utils: parsing *)
(* ================================================================== *)

(** [/verbal\s*rfd\s*:?/i] *)
Definition VERBAL_ANCHOR : pat :=
  (p_word (str "verbal") >> p_star is_space >> p_word (str "rfd") >>
   p_star is_space >> p_opt (p_char (ch ":")))%pat.

(** [/(written\s*rfd(?:\s*and\s*speech[-\s]*by[-\s]*speech\s*flow\s*analysis)?\s* ):?/i]
    (written here with a blank before the closing parenthesis of the group,
    which the source does not have). *)
Definition WRITTEN_ANCHOR : pat :=
  (p_word (str "written") >> p_star is_space >> p_word (str "rfd") >>
   p_opt (p_star is_space >> p_word (str "and") >> p_star is_space >>
          p_word (str "speech") >> p_star is_dash_or_space >>
          p_word (str "by") >> p_star is_dash_or_space >>
          p_word (str "speech") >> p_star is_space >>
          p_word (str "flow") >> p_star is_space >>
          p_word (str "analysis")) >>
   p_star is_space >> p_opt (p_char (ch ":")))%pat.

(** Escape HTML, then we'll add our own tags. *)
Definition esc (s : jstring) : jstring :=
  replaceAll (ch ">") (str "&gt;")
    (replaceAll (ch "<") (str "&lt;")
       (replaceAll (ch "&") (str "&amp;") s)).

(** The four patterns of [normalize]: [/\r/g], [/\*\*/g], [/[ \t]+\n/g] and
    [/\n{3,}/g]. *)
Definition RE_CR : pat := p_char 13%N.
Definition RE_BOLD : pat := (p_char (ch "*") >> p_char (ch "*"))%pat.
Definition RE_TRAILING : pat := (p_plus is_blank >> p_char 10%N)%pat.
Definition RE_BLANK_LINES : pat := p_at_least 3 is_nl.

(** Normalize: strip **, trim, collapse >2 blank lines to one, normalize
    newlines. *)
Definition normalize (raw : jstring) : jstring :=
  let s := replace_all RE_CR [] raw in
  let s := replace_all RE_BOLD [] s in
  let s := replace_all RE_TRAILING [10%N] s in
  let s := replace_all RE_BLANK_LINES [10%N; 10%N] s in
  trim s.

Record SectionPair := mkPair { verbal : jstring; written : jstring }.

(** Try to find verbal/written inside one combined blob. *)
Definition splitCombinedBlob (blob : jstring) : SectionPair :=
  let s := normalize blob in
  let wMatch := search WRITTEN_ANCHOR s in
  let vMatch := search VERBAL_ANCHOR s in
  if (0 <=? wMatch)%Z then
    let before := slice s 0 (Some wMatch) in
    let after := trim (replace_first WRITTEN_ANCHOR [] (slice s wMatch None)) in
    let verbal := trim (replace_first VERBAL_ANCHOR [] before) in
    mkPair verbal after
  else if (0 <=? vMatch)%Z then
    mkPair (trim (replace_first VERBAL_ANCHOR [] s)) []
  else
    mkPair [] s.

(* ================================================================== *)
(** ** JSON values

    [AnyJson] is [Record<string, any>]: the payload is whatever
    [JSON.parse] gave.  A number is seen by this code through two
    observations only, whether it is truthy (neither zero nor NaN) and its
    decimal text, and is modelled by that pair. *)
(* ================================================================== *)

Record number := mkNumber { number_truthy : bool; number_text : jstring }.

Inductive value :=
| VUndefined
| VNull
| VBool (b : bool)
| VNumber (n : number)
| VString (s : jstring)
| VArray (xs : list value)
| VObject (fields : list (jstring * value)).

Inductive error := TypeError.

Inductive result (A : Type) :=
| Ok (a : A)
| Throw (e : error).
Arguments Ok {A} a.
Arguments Throw {A} e.

Definition bind {A B : Type} (r : result A) (k : A -> result B) : result B :=
  match r with
  | Ok a => k a
  | Throw e => Throw e
  end.

Notation "x <- r ;; k" := (bind r (fun x => k))
  (at level 100, r at next level, right associativity).

Definition truthy (v : value) : bool :=
  match v with
  | VUndefined | VNull => false
  | VBool b => b
  | VNumber n => number_truthy n
  | VString s => match s with [] => false | _ => true end
  | VArray _ | VObject _ => true
  end.

Definition typeof_string (v : value) : bool :=
  match v with VString _ => true | _ => false end.

(** [a ?? b]: [b] is evaluated when [a] is [null] or [undefined]. *)
Definition coalesce (a b : result value) : result value :=
  match a with
  | Ok VUndefined | Ok VNull => b
  | _ => a
  end.
Infix "??" := coalesce (at level 75, right associativity).

(** [a || b] *)
Definition or_else (a b : value) : value := if truthy a then a else b.

(** [typeof v === "string" && v] *)
Definition string_and (v : value) : value :=
  match v with VString _ => v | _ => VBool false end.

Fixpoint lookup (k : jstring) (fields : list (jstring * value)) : value :=
  match fields with
  | [] => VUndefined
  | (k', v) :: rest => if jstring_eqb k' k then v else lookup k rest
  end.

(** [o.k] for the property names this code reads.  None of them is defined
    on the prototypes of objects, arrays, strings, numbers or booleans, so
    that the read gives [undefined] on everything but an object that has the
    property; on [null] and [undefined] it throws. *)
Definition get (o : value) (k : jstring) : result value :=
  match o with
  | VUndefined | VNull => Throw TypeError
  | VObject fields => Ok (lookup k fields)
  | _ => Ok VUndefined
  end.

(** [v.trim()]: only a string has the method; a JSON value holds no function,
    so that the call throws on everything else. *)
Definition call_trim (v : value) : result jstring :=
  match v with
  | VString s => Ok (trim s)
  | _ => Throw TypeError
  end.

(** [String(v)] *)
Fixpoint ToString (v : value) : jstring :=
  match v with
  | VUndefined => str "undefined"
  | VNull => str "null"
  | VBool true => str "true"
  | VBool false => str "false"
  | VNumber n => number_text n
  | VString s => s
  | VArray xs =>
      join (str ",")
        (List.map (fun x => match x with
                            | VUndefined | VNull => []
                            | _ => ToString x
                            end) xs)
  | VObject _ => str "[object Object]"
  end.

(** [splitCombinedBlob(blob)] on a value: [normalize] calls [blob.replace]. *)
Definition call_split (blob : value) : result SectionPair :=
  match blob with
  | VString s => Ok (splitCombinedBlob s)
  | _ => Throw TypeError
  end.

(** [!v || !v.trim()] *)
Definition not_or_blank (v : value) : result bool :=
  if negb (truthy v) then Ok true
  else t <- call_trim v ;; Ok (negb (truthy (VString t))).

(** The two lookups at the head of [pickRfds]: [j], [ja] and the values
    found under the aliases of the two sections. *)
Record Explicit := mkExplicit {
  ex_j : value; ex_ja : value; ex_verbal : value; ex_written : value }.

Definition explicit (json : value) : result Explicit :=
  let j := or_else json (VObject []) in
  ja <- (get j (str "judgeAnalysis") ?? get j (str "judge_feedback")
         ?? get j (str "feedback") ?? Ok (VObject [])) ;;
  vb <- (get ja (str "verbalRfd") ?? get ja (str "verbal_rfd")
         ?? get j (str "verbalRfd") ?? get j (str "verbal_rfd")
         ?? Ok (VString [])) ;;
  wr <- (get ja (str "writtenRfd") ?? get ja (str "written_rfd")
         ?? get j (str "writtenRfd") ?? get j (str "written_rfd")
         ?? Ok (VString [])) ;;
  Ok (mkExplicit j ja vb wr).

(** [typeof written === "string" && WRITTEN_ANCHOR.test(written) ? written : ""] *)
Definition anchored (wr : value) : value :=
  match wr with
  | VString w => if test WRITTEN_ANCHOR w then wr else VString []
  | _ => VString []
  end.

(** Some runs shove everything into a single "rfd" or "writtenRfd" with both
    sections. *)
Definition combined (e : Explicit) : result value :=
  rfd_a <- get (ex_ja e) (str "rfd") ;;
  rfd_j <- get (ex_j e) (str "rfd") ;;
  Ok (or_else (string_and rfd_a)
        (or_else (anchored (ex_written e))
           (or_else (string_and rfd_j) (VString [])))).

(** The condition of the first [if]: [(!verbal || !verbal.trim()) && combined]. *)
Definition wants_split (vb cmb : value) : result bool :=
  b <- not_or_blank vb ;; Ok (b && truthy cmb).

(** The values of [verbal] and [written] after the first [if]. *)
Definition after_split (e : Explicit) : result (value * value) :=
  cmb <- combined e ;;
  go <- wants_split (ex_verbal e) cmb ;;
  if go then
    split <- call_split cmb ;;
    Ok (if negb (truthy (ex_verbal e)) then VString (verbal split) else ex_verbal e,
        if negb (truthy (ex_written e)) then VString (written split) else ex_written e)
  else Ok (ex_verbal e, ex_written e).

(** Last resort: the Flow Notes field sometimes carries the written block.
    The value of [written] after the second [if]. *)
Definition after_flowNotes (j wr : value) : result value :=
  b <- not_or_blank wr ;;
  if b then
    fn <- get j (str "flowNotes") ;;
    if typeof_string fn then Ok fn else Ok wr
  else Ok wr.

(** Pull verbal/written from flexible shapes returned by backend. *)
Definition pickRfds (json : value) : result SectionPair :=
  e <- explicit json ;;
  vw <- after_split e ;;
  wr <- after_flowNotes (ex_j e) (snd vw) ;;
  Ok (mkPair (normalize (ToString (or_else (fst vw) (VString []))))
             (normalize (ToString (or_else wr (VString []))))).

(* ================================================================== *)
(** ** utils: formatting *)
(* ================================================================== *)

Definition NOT_PROVIDED : jstring := str "<p>Not provided.</p>".

(** [/^(?:Aff|Neg)\s+(?:Constructive|Rebuttal|Summary|Final\s*Focus)\s*:|^Crossfire\s*\d*\s*:|^Grand\s*Crossfire\s*:$/i]:
    three alternatives, each fixed to the start of the line, the last one
    alone fixed to its end. *)
Definition HEADING_SPEECH : pat :=
  ((p_word (str "Aff") <|> p_word (str "Neg")) >> p_plus is_space >>
   (p_word (str "Constructive") <|> p_word (str "Rebuttal")
    <|> p_word (str "Summary")
    <|> (p_word (str "Final") >> p_star is_space >> p_word (str "Focus"))) >>
   p_star is_space >> p_char (ch ":"))%pat.

Definition HEADING_CROSSFIRE : pat :=
  (p_word (str "Crossfire") >> p_star is_space >> p_star is_digit >>
   p_star is_space >> p_char (ch ":"))%pat.

Definition HEADING_GRAND : pat :=
  (p_word (str "Grand") >> p_star is_space >> p_word (str "Crossfire") >>
   p_star is_space >> p_char (ch ":") >> p_end)%pat.

Definition HEADING : pat :=
  (HEADING_SPEECH <|> HEADING_CROSSFIRE <|> HEADING_GRAND)%pat.

(** [/^verbal\s*rfd\s*:$/i], [/:$/], [/\s{2,}/g] and [/\n{2,}/]. *)
Definition RE_VERBAL_LABEL : pat :=
  (p_word (str "verbal") >> p_star is_space >> p_word (str "rfd") >>
   p_star is_space >> p_char (ch ":") >> p_end)%pat.
Definition RE_FINAL_COLON : pat := (p_char (ch ":") >> p_end)%pat.
Definition RE_SPACES : pat := p_at_least 2 is_space.
Definition RE_PARAGRAPH_BREAK : pat := p_at_least 2 is_nl.

Definition P_OPEN : jstring := str "<p>".
Definition P_CLOSE : jstring := str "</p>".
Definition H3_OPEN : jstring :=
  str "<h3 class=" ++ [34%N] ++ str "text-lg font-semibold mb-2" ++ [34%N] ++ str ">".
Definition H3_CLOSE : jstring := str "</h3>".

Definition is_empty (s : jstring) : bool :=
  match s with [] => true | _ => false end.

(** The two arrays of the loop of [toSectionedHTML]. *)
Record Blocks := mkBlocks { out : list jstring; para : list jstring }.

Definition flushPara (st : Blocks) : Blocks :=
  match para st with
  | [] => st
  | _ =>
      let text := trim (replace_all RE_SPACES (str " ") (join (str " ") (para st))) in
      mkBlocks (if is_empty text then out st
                else out st ++ [P_OPEN ++ text ++ P_CLOSE])
               []
  end.

(** One turn of the loop [for (let raw of lines)]. *)
Definition line_step (st : Blocks) (raw : jstring) : Blocks :=
  let line := trim raw in
  if is_empty line then flushPara st
  else if test_at_start HEADING line then
    let st' := flushPara st in
    mkBlocks (out st' ++ [H3_OPEN ++ replace_first RE_FINAL_COLON [] line ++ H3_CLOSE])
             (para st')
  else if test_at_start RE_VERBAL_LABEL line then flushPara st
  else if test WRITTEN_ANCHOR line then flushPara st
  else mkBlocks (out st) (para st ++ [line]).

(** Convert plain text into clean HTML: section headings like
    "Aff Constructive:" become <h3>, paragraphs are compact. *)
Definition toSectionedHTML (src : jstring) : jstring :=
  if is_empty src then NOT_PROVIDED
  else
    let lines := split_char 10%N (esc src) in
    let st := fold_left line_step lines (mkBlocks [] []) in
    join [10%N] (out (flushPara st)).

(** Verbal RFD is simpler: just paragraphs, no section headings needed. *)
Definition toVerbalHTML (src : jstring) : jstring :=
  if is_empty src then NOT_PROVIDED
  else
    let s := trim (replace_all RE_BLANK_LINES [10%N; 10%N] (esc src)) in
    let parts := filter (fun p => negb (is_empty p))
                   (List.map trim (split_re RE_PARAGRAPH_BREAK s)) in
    join [10%N] (List.map (fun p => P_OPEN ++ p ++ P_CLOSE) parts).

(* ================================================================== *)
(** ** Definitions for the statements *)
(* ================================================================== *)

(** What a match consumes: a prefix of the subject, and for a proper
    pattern a prefix that is not empty. *)
Definition suffix_pat (p : pat) : Prop :=
  forall s r, p s = Some r -> exists m, s = m ++ r.

Definition proper (p : pat) : Prop :=
  forall s r, p s = Some r -> exists c m, s = (c :: m) ++ r.

(** The pattern matches at no position of [s]. *)
Definition never (p : pat) (s : jstring) : Prop :=
  forall a b, s = a ++ b -> p b = None.

Definition obj1 (k : string) (v : value) : value := VObject [(str k, v)].

(** ** Properties of texts *)

(** [w] is found at the head of [s], somewhere in [s]. *)
Fixpoint prefixb (w s : jstring) : bool :=
  match w, s with
  | [], _ => true
  | x :: w', c :: t => (c =? x)%N && prefixb w' t
  | _ :: _, [] => false
  end.

Fixpoint infixb (w s : jstring) : bool :=
  prefixb w s || match s with [] => false | _ :: t => infixb w t end.

Definition starts_with_space (s : jstring) : bool :=
  match s with [] => false | c :: _ => is_space c end.

Definition ends_with_space (s : jstring) : bool :=
  starts_with_space (rev s).

(** The five things [normalize] removes. *)
Definition has_cr (s : jstring) : bool := infixb [13%N] s.
Definition has_bold (s : jstring) : bool := infixb (str "**") s.
Definition has_trailing (s : jstring) : bool :=
  infixb [32%N; 10%N] s || infixb [9%N; 10%N] s.
Definition has_blank_lines (s : jstring) : bool := infixb [10%N; 10%N; 10%N] s.
Definition untrimmed (s : jstring) : bool :=
  starts_with_space s || ends_with_space s.

Definition normal (s : jstring) : bool :=
  negb (has_cr s) && negb (has_bold s) && negb (has_trailing s)
  && negb (has_blank_lines s) && negb (untrimmed s).

(** ** Properties of payloads *)

Definition nullish (v : value) : bool :=
  match v with VUndefined | VNull => true | _ => false end.

(** A value that is falsy or a string of white space only: what the two
    conditions [!v || !v.trim()] accept. *)
Definition blank_value (v : value) : bool :=
  negb (truthy v)
  || match v with VString s => is_empty (trim s) | _ => false end.

(** A value on which [v.trim()] is reached and fails: truthy and not a
    string. *)
Definition no_trim (v : value) : bool := truthy v && negb (typeof_string v).

(** A text that [normalize] leaves alone and that has none of the five
    things it removes. *)
Definition fixed_and_clean (s : jstring) : Prop :=
  normalize s = s
  /\ has_cr s = false /\ has_bold s = false /\ has_trailing s = false
  /\ has_blank_lines s = false /\ untrimmed s = false.

(** Payloads used below. *)
Definition payload_rfd : value :=
  obj1 "rfd" (VString (str "Some summary text. Written RFD: Aff Constructive: detail.")).

Definition payload_written_and_rfd : value :=
  VObject [(str "writtenRfd", VString (str "X"));
           (str "rfd", VString (str "Verbal RFD: hello"))].

Definition payload_verbal_and_rfd : value :=
  VObject [(str "verbalRfd", VString (str "hi"));
           (str "rfd", VString (str "x Written RFD: y"))].

Definition payload_flowNotes : value :=
  obj1 "flowNotes" (VString (str " **x** ")).

Definition five : value := VNumber (mkNumber true (str "5")).

(** ** Escaped texts and blocks *)

(** A character that [esc] leaves alone. *)
Definition plain (c : char) : bool :=
  negb ((c =? 38) || (c =? 60) || (c =? 62))%N.

Definition ENTITIES : list jstring := [str "&amp;"; str "&lt;"; str "&gt;"].

(** A text in escaped form: a sequence of plain characters and of the three
    entities. *)
Inductive escaped : jstring -> Prop :=
| escaped_nil : escaped []
| escaped_char c t : plain c = true -> escaped t -> escaped (c :: t)
| escaped_entity e t : In e ENTITIES -> escaped t -> escaped (e ++ t).

(** The same as a check: no raw [<] or [>], and every [&] starts one of the
    three entities. *)
Fixpoint escaped_ok (s : jstring) : bool :=
  match s with
  | [] => true
  | c :: t =>
      if ((c =? 60) || (c =? 62))%N then false
      else if (c =? 38)%N then
        (prefixb (str "amp;") t || prefixb (str "lt;") t || prefixb (str "gt;") t)
        && escaped_ok t
      else escaped_ok t
  end.

(** The blocks a formatter emits, and their markup. *)
Inductive block :=
| Para (text : jstring)
| Heading (text : jstring).

Definition block_text (b : block) : jstring :=
  match b with Para t | Heading t => t end.

Definition is_para (b : block) : bool :=
  match b with Para _ => true | Heading _ => false end.

Definition render (b : block) : jstring :=
  match b with
  | Para t => P_OPEN ++ t ++ P_CLOSE
  | Heading t => H3_OPEN ++ t ++ H3_CLOSE
  end.

(** An output made of blocks, one per line, whose texts satisfy [ok]. *)
Definition made_of (ok : block -> Prop) (html : jstring) : Prop :=
  exists blocks, html = join [10%N] (List.map render blocks) /\ Forall ok blocks.

(** A character of an entity: no white space, no colon. *)
Definition solid (c : char) : bool := negb (is_space c) && negb (c =? 58)%N.

(** [e] put before the first piece of a list of pieces. *)
Definition app_head (e : jstring) (parts : list jstring) : list jstring :=
  match parts with
  | [] => [e]
  | l :: ls => (e ++ l) :: ls
  end.

(** A pattern that matches only where white space starts. *)
Definition starts_at_space (p : pat) : Prop :=
  forall c t, is_space c = false -> p (c :: t) = None.

(** What holds of every block the formatters emit: its text is escaped, and
    the text of a paragraph is not empty and starts and ends with something
    else than white space. *)
Definition block_ok (b : block) : Prop :=
  escaped (block_text b)
  /\ (is_para b = true -> block_text b <> [] /\ trim (block_text b) = block_text b).

(** The invariant of the loop of [toSectionedHTML]. *)
Definition loop_inv (st : Blocks) : Prop :=
  (exists blocks, out st = List.map render blocks /\ Forall block_ok blocks)
  /\ Forall escaped (para st).

(** What the claims say of the paragraphs of an output. *)
Definition paragraph_filled (b : block) : Prop :=
  escaped_ok (block_text b) = true
  /\ (is_para b = true -> block_text b <> [] /\ trim (block_text b) = block_text b).

Definition EMPTY_PARAGRAPH : jstring := str "<p></p>".

(** ** The splitter, as the specification words it

    The first occurrence of a pattern in a text: the text before it, the
    text matched and the text after it. *)
Fixpoint find_first (p : pat) (s : jstring) : option (jstring * jstring * jstring) :=
  match p s with
  | Some rest => Some ([], firstn (match_length s rest) s, rest)
  | None =>
      match s with
      | [] => None
      | c :: t =>
          match find_first p t with
          | Some (b, m, a) => Some (c :: b, m, a)
          | None => None
          end
      end
  end.

(** The text with the first occurrence of the pattern, if any, taken out. *)
Definition strip_label (p : pat) (s : jstring) : jstring :=
  match find_first p s with
  | Some (b, _, a) => b ++ a
  | None => s
  end.

(** The three cases of the splitter in the words of the specification, on
    the normalized text: no trimming is mentioned there. *)
Definition split_as_stated (s : jstring) : SectionPair :=
  match find_first WRITTEN_ANCHOR s with
  | Some (before, _, after) => mkPair (strip_label VERBAL_ANCHOR before) after
  | None =>
      match find_first VERBAL_ANCHOR s with
      | Some (before, _, after) => mkPair (before ++ after) []
      | None => mkPair [] s
      end
  end.

(** The same with both texts trimmed. *)
Definition split_trimmed (s : jstring) : SectionPair :=
  mkPair (trim (verbal (split_as_stated s))) (trim (written (split_as_stated s))).

(** [s] is [b ++ m ++ a], the pattern matches [m] there, and it matches at
    no earlier position. *)
Definition first_occurrence (p : pat) (s b m a : jstring) : Prop :=
  s = b ++ m ++ a /\ p (m ++ a) = Some a
  /\ forall b1 c b2, b = b1 ++ c :: b2 -> p (c :: b2 ++ m ++ a) = None.

(** [v] is [s] with the first occurrence of the pattern, if there is one,
    taken out. *)
Definition stripped (p : pat) (s v : jstring) : Prop :=
  (never p s /\ v = s)
  \/ exists b m a, first_occurrence p s b m a /\ v = b ++ a.

Definition blob_both : jstring := str "Verbal RFD: a Written RFD: b".

(* ================================================================== *)
(** ** The results page and the playground page

    What [ResultsPage] computes from the stored payload before it renders,
    and the pure parts of [PlaygroundPage]. *)
(* ================================================================== *)

(** One character of a class, and [/[:.]/g]. *)
Definition p_class (cls : char -> bool) : pat :=
  fun s => match s with
           | c :: t => if cls c then Some t else None
           | [] => None
           end.

Definition is_colon_or_dot (c : char) : bool := ((c =? 58) || (c =? 46))%N.
Definition RE_COLON_DOT : pat := p_class is_colon_or_dot.

(** [pickRfds(json ?? {})], [hasAnything], [verbalHTML] and [writtenHTML]. *)
Record Page := mkPage {
  sections : SectionPair;
  hasAnything : bool;
  verbalHTML : jstring;
  writtenHTML : jstring }.

Definition ResultsPage (json : value) : result Page :=
  j <- (Ok json ?? Ok (VObject [])) ;;
  r <- pickRfds j ;;
  Ok (mkPage r
        (negb (is_empty (verbal r)) || negb (is_empty (written r)))
        (toVerbalHTML (verbal r))
        (toSectionedHTML (written r))).

(** The text of the download, [written || verbal || "Thanks for using
    Vocius!"], and its file name; [iso] is what [new Date().toISOString()]
    gave. *)
Definition THANKS : jstring := str "Thanks for using Vocius!".

Definition download_text (r : SectionPair) : jstring :=
  if negb (is_empty (written r)) then written r
  else if negb (is_empty (verbal r)) then verbal r
  else THANKS.

Definition download_name (iso : jstring) : jstring :=
  str "analysis_" ++ replace_all RE_COLON_DOT (str "-") iso ++ str ".txt".

(** [items.slice(from)] of an array. *)
Definition array_slice_from {A : Type} (items : list A) (from : Z) : list A :=
  skipn (clamp_index (List.length items) from) items.

(** [appendLog] of the playground, as the update it gives to [setLogs]:
    [(L) => [...L, `[${niceTime()}] ${line}`].slice(-300)]; [time] is what
    [niceTime()] gave. *)
Definition log_line (time line : jstring) : jstring :=
  str "[" ++ time ++ str "] " ++ line.

Definition appendLog (time line : jstring) (L : list jstring) : list jstring :=
  array_slice_from (L ++ [log_line time line]) (-300).

(** [aaiOk] and [orOk]: [key.trim().length >= 16]; [canNext]. *)
Definition key_ok (key : jstring) : bool := 16 <=? List.length (trim key).

Definition canNext (assemblyai openrouter : jstring) : bool :=
  key_ok assemblyai && key_ok openrouter.

(** ** More definitions for the statements *)

(** The property names [pickRfds] reads. *)
Definition KEYS : list jstring :=
  [str "judgeAnalysis"; str "judge_feedback"; str "feedback";
   str "verbalRfd"; str "verbal_rfd"; str "writtenRfd"; str "written_rfd";
   str "rfd"; str "flowNotes"].

(** [a] is [l] with some characters deleted. *)
Inductive subseq : jstring -> jstring -> Prop :=
| subseq_nil l : subseq [] l
| subseq_skip a c l : subseq a l -> subseq a (c :: l)
| subseq_take a c l : subseq a l -> subseq (c :: a) (c :: l).

(** Two white-space characters side by side. *)
Fixpoint has_space_run (s : jstring) : bool :=
  match s with
  | c :: (d :: _) as t => (is_space c && is_space d) || has_space_run t
  | _ => false
  end.

(** A property of the text of each block, one for paragraphs and one for
    headings; the invariant of the loop of [toSectionedHTML] for it, with a
    property [Q] of the lines kept for the next paragraph. *)
Definition block_sat (BP BH : jstring -> Prop) (b : block) : Prop :=
  match b with
  | Para t => BP t
  | Heading t => BH t
  end.

Definition loop_inv_for (Q BP BH : jstring -> Prop) (st : Blocks) : Prop :=
  (exists blocks, out st = List.map render blocks
                  /\ Forall (block_sat BP BH) blocks)
  /\ Forall Q (para st).

(** A text whose last character is not white space. *)
Definition ends_solid (x : jstring) : Prop :=
  exists x0 c, x = x0 ++ [c] /\ is_space c = false.

(** A text on one line, and a paragraph on one line without two white-space
    characters side by side. *)
Definition one_line (t : jstring) : Prop := ~ In 10%N t.
Definition compact (t : jstring) : Prop :=
  ~ In 10%N t /\ has_space_run t = false /\ untrimmed t = false.

(** ** Escaped forms and the text they stand for *)

(** The text that an escaped text stands for: each of [&amp;], [&lt;] and
    [&gt;] read as the character it names, every other character as
    itself.  [skip] counts the characters of the current entity that are
    still to be passed over. *)
Fixpoint unesc_from (skip : nat) (s : jstring) : jstring :=
  match s with
  | [] => []
  | c :: t =>
      match skip with
      | S k => unesc_from k t
      | 0 =>
          if prefixb (str "&amp;") s then 38%N :: unesc_from 4 t
          else if prefixb (str "&lt;") s then 60%N :: unesc_from 3 t
          else if prefixb (str "&gt;") s then 62%N :: unesc_from 3 t
          else c :: unesc_from 0 t
      end
  end.

Definition unesc (s : jstring) : jstring := unesc_from 0 s.

(** [t] is the escaped form of [u]: [t] holds no raw [<] or [>], every [&]
    of [t] starts one of the three entities, and [t] stands for [u]. *)
Definition escaped_form_of (u t : jstring) : Prop :=
  escaped_ok t = true /\ unesc t = u.

(** The lines of the input, each trimmed, as the loop of [toSectionedHTML]
    sees them before escaping. *)
Definition trimmed_lines (src : jstring) : list jstring :=
  List.map trim (split_char 10%N src).

(** What the text of a block of [toSectionedHTML src] is the escaped form
    of: for a heading a trimmed line of the input without its final colon,
    for a paragraph trimmed lines of the input joined by blanks, with runs of
    white space collapsed. *)
Definition sectioned_from (src : jstring) (b : block) : Prop :=
  match b with
  | Heading t =>
      exists l, In l (trimmed_lines src)
                /\ escaped_form_of (replace_first RE_FINAL_COLON [] l) t
  | Para t =>
      exists ls, incl ls (trimmed_lines src)
                 /\ escaped_form_of
                      (trim (replace_all RE_SPACES (str " ") (join (str " ") ls))) t
  end.

(** The paragraphs of the input of [toVerbalHTML], before escaping: the
    pieces between blank lines, trimmed, the empty ones left out. *)
Definition verbal_paragraphs (src : jstring) : list jstring :=
  filter (fun p => negb (is_empty p))
    (List.map trim
       (split_re RE_PARAGRAPH_BREAK
          (trim (replace_all RE_BLANK_LINES [10%N; 10%N] src)))).

(** The lookups of [pickRfds] on [payload_written_and_rfd]. *)
Definition explicit_written_and_rfd : Explicit :=
  mkExplicit payload_written_and_rfd (VObject []) (VString []) (VString (str "X")).

(* ================================================================== *)
(** ** The functions on examples *)
(* ================================================================== *)


Example normalize_ex :
  normalize (str "  **Verbal RFD:** hi  ") = str "Verbal RFD: hi".
Proof. vm_compute. reflexivity. Qed.

Example split_ex :
  splitCombinedBlob (str "Some summary text. Written RFD: Aff Constructive: detail.")
  = mkPair (str "Some summary text.") (str "Aff Constructive: detail.").
Proof. vm_compute. reflexivity. Qed.

Example pick_ex :
  pickRfds (obj1 "rfd" (VString (str "Some summary text. Written RFD: Aff Constructive: detail.")))
  = Ok (mkPair (str "Some summary text.") (str "Aff Constructive: detail.")).
Proof. vm_compute. reflexivity. Qed.

Example sectioned_ex :
  toSectionedHTML (List.map N_of_ascii
    (list_ascii_of_string "Aff Constructive:" ++ ["010"%char]
     ++ list_ascii_of_string "We <b>affirm</b>." ++ ["010"%char; "010"%char]
     ++ list_ascii_of_string "Neg Rebuttal:" ++ ["010"%char]
     ++ list_ascii_of_string "We negate."))
  = H3_OPEN ++ str "Aff Constructive" ++ H3_CLOSE ++ [10%N]
    ++ str "<p>We &lt;b&gt;affirm&lt;/b&gt;.</p>" ++ [10%N]
    ++ H3_OPEN ++ str "Neg Rebuttal" ++ H3_CLOSE ++ [10%N]
    ++ str "<p>We negate.</p>".
Proof. vm_compute. reflexivity. Qed.

Example verbal_ex :
  toVerbalHTML (str "a & b" ++ [10%N; 10%N; 10%N] ++ str " c ")
  = str "<p>a &amp; b</p>" ++ [10%N] ++ str "<p>c</p>".
Proof. vm_compute. reflexivity. Qed.

Example normalize_lines_ex :
  normalize (str "a  " ++ [13%N; 10%N; 10%N; 10%N; 10%N] ++ str "b" ++ [9%N; 10%N])
  = str "a" ++ [10%N; 10%N] ++ str "b".
Proof. vm_compute. reflexivity. Qed.

Example normalize_stars_ex : normalize (str "a***b****c") = str "a*bc".
Proof. vm_compute. reflexivity. Qed.

Example headings_ex :
  toSectionedHTML (str "crossfire 2 :" ++ [10%N] ++ str "text   one" ++ [10%N]
                   ++ str "more" ++ [10%N] ++ str "Verbal RFD:" ++ [10%N]
                   ++ str "Grand Crossfire:" ++ [10%N]
                   ++ str "Grand Crossfire: x" ++ [10%N]
                   ++ str "see the written rfd above")
  = H3_OPEN ++ str "crossfire 2 " ++ H3_CLOSE ++ [10%N]
    ++ str "<p>text one more</p>" ++ [10%N]
    ++ H3_OPEN ++ str "Grand Crossfire" ++ H3_CLOSE ++ [10%N]
    ++ str "<p>Grand Crossfire: x</p>".
Proof. vm_compute. reflexivity. Qed.

Example written_anchor_long_ex :
  splitCombinedBlob
    (str "VERBAL RFD : v WRITTEN  RFD and speech-by - speech flow analysis : w")
  = mkPair (str "v") (str "w").
Proof. vm_compute. reflexivity. Qed.

Example pick_not_an_object_ex :
  pickRfds VNull = Ok (mkPair [] [])
  /\ pickRfds (VString (str "abc")) = Ok (mkPair [] [])
  /\ pickRfds five = Ok (mkPair [] [])
  /\ pickRfds (VArray [five]) = Ok (mkPair [] [])
  /\ pickRfds (obj1 "verbalRfd" (VNumber (mkNumber false (str "0"))))
     = Ok (mkPair [] []).
Proof. repeat split; vm_compute; reflexivity. Qed.

Example pick_nested_ex :
  pickRfds (VObject [(str "judge_feedback",
                      VObject [(str "verbal_rfd", VString (str " **Aff** wins. "));
                               (str "written_rfd", VNull)]);
                     (str "written_rfd", VString (str "Neg Rebuttal: weak."))])
  = Ok (mkPair (str "Aff wins.") (str "Neg Rebuttal: weak.")).
Proof. vm_compute. reflexivity. Qed.

(* ================================================================== *)
(** ** Strings: white space and trimming *)
(* ================================================================== *)

Lemma drop_while_suffix (f : char -> bool) (s : jstring) :
  exists m, s = m ++ drop_while f s /\ forallb f m = true.
Proof.
  induction s as [|c t [m [E F]]]; simpl.
  - exists []. auto.
  - destruct (f c) eqn:Hc.
    + exists (c :: m). simpl. rewrite Hc, F. split; [congruence | reflexivity].
    + exists []. auto.
Qed.

Lemma drop_while_head (f : char -> bool) (s : jstring) c r :
  drop_while f s = c :: r -> f c = false.
Proof.
  induction s as [|x t IH]; simpl; [discriminate|].
  destruct (f x) eqn:Hx; [exact IH|].
  intros E. injection E as -> _. exact Hx.
Qed.

Lemma drop_while_all (f : char -> bool) (s : jstring) :
  forallb f s = true -> drop_while f s = [].
Proof.
  induction s as [|c t IH]; simpl; [reflexivity|].
  destruct (f c); simpl; [exact IH | discriminate].
Qed.

Lemma drop_while_stop (f : char -> bool) c t :
  f c = false -> drop_while f (c :: t) = c :: t.
Proof. intros H. simpl. rewrite H. reflexivity. Qed.

Lemma drop_while_app_all (f : char -> bool) (m s : jstring) :
  forallb f m = true -> drop_while f (m ++ s) = drop_while f s.
Proof.
  induction m as [|c m IH]; simpl; [reflexivity|].
  destruct (f c); simpl; [exact IH | discriminate].
Qed.

Lemma drop_while_length (f : char -> bool) (s : jstring) :
  List.length (drop_while f s) <= List.length s.
Proof.
  induction s as [|c t IH]; simpl; [lia|].
  destruct (f c); simpl; lia.
Qed.

Lemma trim_end_all (s : jstring) :
  forallb is_space s = true -> trim_end s = [].
Proof.
  induction s as [|c t IH]; simpl; [reflexivity|].
  destruct (is_space c) eqn:Hc; simpl; [|discriminate].
  intros H. rewrite (IH H). reflexivity.
Qed.

Lemma trim_end_prefix (s : jstring) :
  exists w, s = trim_end s ++ w /\ forallb is_space w = true.
Proof.
  induction s as [|c t [w [E F]]]; simpl.
  - exists []. auto.
  - destruct (trim_end t) as [|y t'] eqn:Ht.
    + destruct (is_space c) eqn:Hc.
      * exists (c :: w). simpl in *. rewrite Hc, F. split; [congruence | reflexivity].
      * exists w. simpl in *. split; [congruence | exact F].
    + exists w. split; [|exact F]. simpl. f_equal. exact E.
Qed.

Lemma trim_end_head (s : jstring) c r :
  trim_end s = c :: r -> exists t, s = c :: t.
Proof.
  destruct s as [|x t]; simpl; [discriminate|].
  destruct (trim_end t); [destruct (is_space x)|]; intros E;
    try discriminate; injection E as -> _; eauto.
Qed.

Lemma trim_end_nil_inv (s : jstring) :
  trim_end s = [] -> forallb is_space s = true.
Proof.
  induction s as [|c t IH]; simpl; [reflexivity|].
  destruct (trim_end t) eqn:Ht; [|discriminate].
  destruct (is_space c); [|discriminate]. intros _. simpl. auto.
Qed.

Lemma trim_end_idem (s : jstring) : trim_end (trim_end s) = trim_end s.
Proof.
  induction s as [|c t IH]; simpl; [reflexivity|].
  destruct (trim_end t) as [|y t'] eqn:Ht.
  - destruct (is_space c) eqn:Hc; simpl; [reflexivity|]. rewrite Hc. reflexivity.
  - change (trim_end (c :: y :: t')) with
      (match trim_end (y :: t') with
       | [] => if is_space c then [] else [c]
       | u => c :: u end).
    rewrite IH. reflexivity.
Qed.

Lemma trim_start_idem (s : jstring) : trim_start (trim_start s) = trim_start s.
Proof.
  unfold trim_start. destruct (drop_while is_space s) as [|c r] eqn:E; [reflexivity|].
  apply drop_while_stop. exact (drop_while_head _ _ _ _ E).
Qed.

(** What [trim] gives starts with no white space. *)
Lemma trim_head (s : jstring) c r : trim s = c :: r -> is_space c = false.
Proof.
  unfold trim. intros E. destruct (trim_end_head _ _ _ E) as [t Ht].
  exact (drop_while_head _ _ _ _ Ht).
Qed.

Lemma trim_start_fixed (s : jstring) :
  (forall c r, s = c :: r -> is_space c = false) -> trim_start s = s.
Proof.
  destruct s as [|c r]; [reflexivity|]. intros H.
  apply drop_while_stop. exact (H c r eq_refl).
Qed.

Lemma trim_idem (s : jstring) : trim (trim s) = trim s.
Proof.
  assert (E : trim_start (trim s) = trim s).
  { apply trim_start_fixed. intros c r. apply trim_head. }
  unfold trim at 1. rewrite E. unfold trim. apply trim_end_idem.
Qed.

Lemma trim_infix (s : jstring) :
  exists a b, s = a ++ trim s ++ b
              /\ forallb is_space a = true /\ forallb is_space b = true.
Proof.
  destruct (drop_while_suffix is_space s) as [a [Ea Fa]].
  destruct (trim_end_prefix (trim_start s)) as [b [Eb Fb]].
  exists a, b. unfold trim. split; [|auto].
  rewrite <- Eb. exact Ea.
Qed.

Lemma trim_all_space (s : jstring) :
  forallb is_space s = true -> trim s = [].
Proof.
  intros H. unfold trim, trim_start. rewrite (drop_while_all _ _ H). reflexivity.
Qed.

Lemma trim_nil_inv (s : jstring) : trim s = [] -> forallb is_space s = true.
Proof.
  intros H. destruct (trim_infix s) as [a [b [E [Fa Fb]]]].
  rewrite H in E. rewrite E. simpl. rewrite forallb_app, Fa, Fb. reflexivity.
Qed.

(* ================================================================== *)
(** ** Patterns: what a match consumes *)
(* ================================================================== *)

Lemma proper_suffix p : proper p -> suffix_pat p.
Proof. intros H s r E. destruct (H s r E) as [c [m ->]]. eauto. Qed.

Lemma suffix_seq p q : suffix_pat p -> suffix_pat q -> suffix_pat (p_seq p q).
Proof.
  intros Hp Hq s r. unfold p_seq. destruct (p s) as [u|] eqn:E; [|discriminate].
  intros F. destruct (Hp _ _ E) as [m ->]. destruct (Hq _ _ F) as [n ->].
  exists (m ++ n). now rewrite app_assoc.
Qed.

Lemma proper_seq_l p q : proper p -> suffix_pat q -> proper (p_seq p q).
Proof.
  intros Hp Hq s r. unfold p_seq. destruct (p s) as [u|] eqn:E; [|discriminate].
  intros F. destruct (Hp _ _ E) as [c [m ->]]. destruct (Hq _ _ F) as [n ->].
  exists c, (m ++ n). simpl. now rewrite app_assoc.
Qed.

Lemma suffix_alt p q : suffix_pat p -> suffix_pat q -> suffix_pat (p_alt p q).
Proof.
  intros Hp Hq s r. unfold p_alt. destruct (p s) as [u|] eqn:E.
  - intros [= ->]. eauto.
  - apply Hq.
Qed.

Lemma proper_alt p q : proper p -> proper q -> proper (p_alt p q).
Proof.
  intros Hp Hq s r. unfold p_alt. destruct (p s) as [u|] eqn:E.
  - intros [= ->]. eauto.
  - apply Hq.
Qed.

Lemma suffix_opt p : suffix_pat p -> suffix_pat (p_opt p).
Proof.
  intros Hp s r. unfold p_opt. destruct (p s) as [u|] eqn:E.
  - intros [= ->]. eauto.
  - intros [= ->]. now exists [].
Qed.

Lemma suffix_star cls : suffix_pat (p_star cls).
Proof.
  intros s r [= <-]. destruct (drop_while_suffix cls s) as [m [E _]]. eauto.
Qed.

Lemma proper_plus cls : proper (p_plus cls).
Proof.
  intros [|c t] r; simpl; [discriminate|].
  destruct (cls c); [|discriminate]. intros [= <-].
  destruct (drop_while_suffix cls t) as [m [E _]].
  exists c, m. simpl. congruence.
Qed.

Lemma proper_char x : proper (p_char x).
Proof.
  intros [|c t] r; simpl; [discriminate|].
  destruct (upper c =? upper x)%N; [|discriminate].
  intros [= <-]. now exists c, [].
Qed.

Lemma suffix_word w : suffix_pat (p_word w).
Proof.
  induction w as [|x w IH]; simpl.
  - intros s r [= ->]. now exists [].
  - apply suffix_seq; [apply proper_suffix, proper_char | exact IH].
Qed.

Lemma proper_word x w : proper (p_word (x :: w)).
Proof. simpl. apply proper_seq_l; [apply proper_char | apply suffix_word]. Qed.

Lemma suffix_end : suffix_pat p_end.
Proof. intros [|c t] r; simpl; [|discriminate]. intros [= <-]. now exists []. Qed.

Lemma proper_at_least n cls : proper (p_at_least (S n) cls).
Proof.
  intros s r. unfold p_at_least.
  destruct (S n <=? List.length s - List.length (drop_while cls s)) eqn:E;
    [|discriminate].
  intros [= <-]. apply Nat.leb_le in E.
  destruct (drop_while_suffix cls s) as [[|c m] [F _]].
  - simpl in F. rewrite <- F in E. lia.
  - eauto.
Qed.

Create HintDb pats.
#[local] Hint Resolve proper_suffix suffix_seq proper_seq_l suffix_alt proper_alt
  suffix_opt suffix_star proper_plus proper_char suffix_word proper_word
  suffix_end proper_at_least : pats.

Lemma match_length_app (m r : jstring) : match_length (m ++ r) r = List.length m.
Proof. unfold match_length. rewrite length_app. lia. Qed.

(** *** The equations of the global replacement *)

Section GlobalReplace.

Variable p : pat.
Variable rep : jstring.

Lemma replace_all_from_skipn k s :
  k <= List.length s ->
  replace_all_from p rep k s = replace_all_from p rep 0 (skipn k s).
Proof.
  revert k. induction s as [|c t IH]; intros [|k] H; simpl in *; try reflexivity.
  - lia.
  - apply IH. lia.
Qed.

Lemma replace_all_nil : p [] = None -> replace_all p rep [] = [].
Proof. unfold replace_all. simpl. now intros ->. Qed.

Lemma replace_all_skip c t :
  p (c :: t) = None -> replace_all p rep (c :: t) = c :: replace_all p rep t.
Proof. unfold replace_all. simpl. now intros ->. Qed.

Lemma replace_all_match c m r :
  p ((c :: m) ++ r) = Some r ->
  replace_all p rep ((c :: m) ++ r) = rep ++ replace_all p rep r.
Proof.
  intros H. unfold replace_all.
  change (replace_all_from p rep 0 ((c :: m) ++ r)) with
    (match p ((c :: m) ++ r) with
     | Some rest =>
         match match_length ((c :: m) ++ r) rest with
         | 0 => rep ++ c :: replace_all_from p rep 0 (m ++ r)
         | S k => rep ++ replace_all_from p rep k (m ++ r)
         end
     | None => c :: replace_all_from p rep 0 (m ++ r)
     end).
  rewrite H, match_length_app. cbn [List.length].
  rewrite replace_all_from_skipn by (rewrite length_app; lia).
  rewrite skipn_app, Nat.sub_diag, skipn_all. reflexivity.
Qed.

(** The three ways a global replacement starts, for a proper pattern. *)
Lemma replace_all_cases (s : jstring) :
  proper p ->
  (s = [] /\ replace_all p rep s = [])
  \/ (exists c t, s = c :: t /\ p s = None
                  /\ replace_all p rep s = c :: replace_all p rep t)
  \/ (exists c m r, s = (c :: m) ++ r /\ p s = Some r
                    /\ replace_all p rep s = rep ++ replace_all p rep r).
Proof.
  intros Hp. destruct (p s) as [r|] eqn:E.
  - right; right. destruct (Hp _ _ E) as [c [m ->]].
    exists c, m, r. repeat split; auto. now apply replace_all_match.
  - destruct s as [|c t].
    + left. split; auto. now apply replace_all_nil.
    + right; left. exists c, t. repeat split; auto. now apply replace_all_skip.
Qed.

End GlobalReplace.

Lemma list_length_ind (P : jstring -> Prop) :
  (forall s, (forall t, List.length t < List.length s -> P t) -> P s) ->
  forall s, P s.
Proof.
  intros H s. remember (List.length s) as n eqn:E.
  revert s E. induction n as [n IH] using lt_wf_ind.
  intros s ->. apply H. intros t Ht. exact (IH _ Ht t eq_refl).
Qed.

(** A pattern that matches at no position of [s] leaves it as it is. *)
Lemma never_tail p c t : never p (c :: t) -> never p t.
Proof. intros H a b ->. apply (H (c :: a)). reflexivity. Qed.

Lemma replace_all_never p rep s : never p s -> replace_all p rep s = s.
Proof.
  induction s as [|c t IH]; intros H.
  - apply replace_all_nil. now apply (H []).
  - rewrite replace_all_skip by now apply (H []).
    f_equal. apply IH. eapply never_tail; eauto.
Qed.


(* ================================================================== *)
(** ** Infixes *)
(* ================================================================== *)

Lemma prefixb_app (w s b : jstring) :
  prefixb w s = true -> prefixb w (s ++ b) = true.
Proof.
  revert s. induction w as [|x w IH]; intros [|c t]; simpl; auto; try discriminate.
  intros H. apply andb_true_iff in H as [H1 H2]. rewrite H1. simpl. now apply IH.
Qed.

Lemma infixb_app_l (w s b : jstring) :
  infixb w s = true -> infixb w (s ++ b) = true.
Proof.
  induction s as [|c t IH]; simpl.
  - rewrite orb_false_r. intros H. destruct w; [|discriminate].
    destruct b; reflexivity.
  - intros H. apply orb_true_iff in H as [H|H].
    + change (prefixb w (c :: t ++ b)) with (prefixb w ((c :: t) ++ b)).
      rewrite (prefixb_app _ _ b H). reflexivity.
    + rewrite (IH H). apply orb_true_r.
Qed.

Lemma infixb_app_r (w a s : jstring) :
  infixb w s = true -> infixb w (a ++ s) = true.
Proof.
  intros H. induction a as [|c a IH]; simpl; [exact H|].
  rewrite IH. apply orb_true_r.
Qed.

Lemma infixb_tail w c t : infixb w (c :: t) = false -> infixb w t = false.
Proof. simpl. intros H. now apply orb_false_iff in H. Qed.

Lemma infixb_suffix w a s : infixb w (a ++ s) = false -> infixb w s = false.
Proof.
  intros H. destruct (infixb w s) eqn:E; [|reflexivity].
  now rewrite (infixb_app_r w a s E) in H.
Qed.

Lemma infixb_trim w s : infixb w s = false -> infixb w (trim s) = false.
Proof.
  intros H. destruct (infixb w (trim s)) eqn:E; [|reflexivity].
  destruct (trim_infix s) as [a [b [F _]]]. rewrite F in H.
  now rewrite (infixb_app_r w a _ (infixb_app_l w _ b E)) in H.
Qed.

Lemma infixb_one x s : infixb [x] s = true <-> In x s.
Proof.
  induction s as [|c t IH]; simpl.
  - split; [discriminate | tauto].
  - rewrite andb_true_r, orb_true_iff, IH, N.eqb_eq. tauto.
Qed.

(** No pair [x; y] in [c :: t]. *)
Lemma infixb_two x y c t :
  infixb [x; y] (c :: t) = false <->
  (c = x -> forall d u, t = d :: u -> d <> y) /\ infixb [x; y] t = false.
Proof.
  change (infixb [x; y] (c :: t)) with
    (((c =? x)%N && prefixb [y] t) || infixb [x; y] t).
  rewrite orb_false_iff, andb_false_iff. split.
  - intros [[H|H] G]; split; auto.
    + apply N.eqb_neq in H. tauto.
    + intros _ d u -> ->. simpl in H. now rewrite N.eqb_refl in H.
  - intros [H G]. split; auto.
    destruct (N.eqb_spec c x) as [E|E]; [right | now left].
    destruct t as [|d u]; [reflexivity|]. simpl. rewrite andb_true_r.
    apply N.eqb_neq. exact (H E d u eq_refl).
Qed.

(** *** Upper case and the literal characters of the patterns *)

Lemma upper_nonletter (c x : char) :
  (x < 65 \/ 122 < x)%N -> (upper c =? upper x)%N = (c =? x)%N.
Proof.
  intros Hx. unfold upper.
  destruct (97 <=? x)%N eqn:E1, (x <=? 122)%N eqn:E2,
           (97 <=? c)%N eqn:E3, (c <=? 122)%N eqn:E4; simpl;
    repeat match goal with
           | H : (_ <=? _)%N = true |- _ => apply N.leb_le in H
           | H : (_ <=? _)%N = false |- _ => apply N.leb_gt in H
           end;
    try lia;
    destruct (N.eqb_spec (c - 32) x), (N.eqb_spec c x); try reflexivity; lia.
Qed.

Lemma p_char_nonletter (x : char) (s : jstring) :
  (x < 65 \/ 122 < x)%N ->
  p_char x s = match s with
               | c :: t => if (c =? x)%N then Some t else None
               | [] => None
               end.
Proof. intros H. destruct s as [|c t]; simpl; [|rewrite upper_nonletter]; auto. Qed.

(* ================================================================== *)
(** ** The four replacements of [normalize] *)
(* ================================================================== *)

Lemma RE_CR_eq (s : jstring) :
  RE_CR s = match s with
            | c :: t => if (c =? 13)%N then Some t else None
            | [] => None
            end.
Proof. apply p_char_nonletter. left. reflexivity. Qed.

Lemma RE_BOLD_eq (s : jstring) :
  RE_BOLD s = match s with
              | c :: d :: t => if ((c =? 42) && (d =? 42))%N then Some t else None
              | _ => None
              end.
Proof.
  unfold RE_BOLD, p_seq. rewrite p_char_nonletter by (left; reflexivity).
  destruct s as [|c [|d t]]; simpl; auto.
  - change (ch "*") with 42%N. now destruct (c =? 42)%N.
  - change (ch "*") with 42%N. destruct (c =? 42)%N; simpl; auto.
    rewrite upper_nonletter by (left; reflexivity). reflexivity.
Qed.

Lemma RE_TRAILING_eq (s : jstring) :
  RE_TRAILING s = match s with
                  | c :: t =>
                      if is_blank c then
                        match drop_while is_blank t with
                        | d :: r => if (d =? 10)%N then Some r else None
                        | [] => None
                        end
                      else None
                  | [] => None
                  end.
Proof.
  unfold RE_TRAILING, p_seq, p_plus. destruct s as [|c t]; auto.
  destruct (is_blank c); auto. apply p_char_nonletter. left. reflexivity.
Qed.

Lemma RE_BLANK_LINES_eq (s : jstring) :
  RE_BLANK_LINES s =
  if 3 <=? List.length s - List.length (drop_while is_nl s)
  then Some (drop_while is_nl s) else None.
Proof. reflexivity. Qed.

Lemma proper_RE_CR : proper RE_CR.
Proof. unfold RE_CR. auto with pats. Qed.
Lemma proper_RE_BOLD : proper RE_BOLD.
Proof. unfold RE_BOLD. auto with pats. Qed.
Lemma proper_RE_TRAILING : proper RE_TRAILING.
Proof. unfold RE_TRAILING. auto with pats. Qed.
Lemma proper_RE_BLANK_LINES : proper RE_BLANK_LINES.
Proof. unfold RE_BLANK_LINES. auto with pats. Qed.
#[local] Hint Resolve proper_RE_CR proper_RE_BOLD proper_RE_TRAILING
  proper_RE_BLANK_LINES : pats.

(** A replacement brings no character that is neither in the subject nor in
    the replacement text. *)
Lemma replace_all_In p rep :
  proper p ->
  forall s c, In c (replace_all p rep s) -> In c rep \/ In c s.
Proof.
  intros Hp s. induction s as [s IH] using list_length_ind. intros x.
  destruct (replace_all_cases p rep s Hp)
    as [[-> ->] | [(c & t & -> & _ & ->) | (c & m & r & -> & _ & ->)]].
  - auto.
  - simpl. intros [->|H]; auto.
    destruct (IH t (Nat.lt_succ_diag_r _) x H); auto.
  - intros H. apply in_app_or in H as [H|H]; auto.
    assert (L : List.length r < List.length ((c :: m) ++ r))
      by (rewrite length_app; simpl; lia).
    destruct (IH r L x H); auto. right. apply in_or_app. auto.
Qed.

Lemma trim_In c s : In c (trim s) -> In c s.
Proof.
  intros H. destruct (trim_infix s) as [a [b [E _]]]. rewrite E.
  apply in_or_app. right. apply in_or_app. now left.
Qed.

(** *** Carriage returns *)

Lemma no_cr_after_RE_CR s : ~ In 13%N (replace_all RE_CR [] s).
Proof.
  induction s as [s IH] using list_length_ind.
  destruct (replace_all_cases RE_CR [] s proper_RE_CR)
    as [[-> ->] | [(c & t & -> & E & ->) | (c & m & r & -> & _ & ->)]].
  - auto.
  - rewrite RE_CR_eq in E. destruct (N.eqb_spec c 13); [discriminate|].
    simpl. intros [H|H]; [congruence|]. exact (IH t (Nat.lt_succ_diag_r _) H).
  - simpl. apply IH. rewrite length_app. simpl. lia.
Qed.

(** *** Bold markers *)

Lemma replace_bold_eq (s : jstring) :
  replace_all RE_BOLD [] s =
  match s with
  | c :: d :: t => if ((c =? 42) && (d =? 42))%N then replace_all RE_BOLD [] t
                   else c :: replace_all RE_BOLD [] (d :: t)
  | _ => s
  end.
Proof.
  destruct s as [|c [|d t]].
  - reflexivity.
  - rewrite replace_all_skip by now rewrite RE_BOLD_eq. reflexivity.
  - destruct ((c =? 42) && (d =? 42))%N eqn:E.
    + apply (replace_all_match RE_BOLD [] c [d] t).
      rewrite RE_BOLD_eq. simpl. now rewrite E.
    + apply replace_all_skip. rewrite RE_BOLD_eq. now rewrite E.
Qed.

Lemma no_bold_after_RE_BOLD s : has_bold (replace_all RE_BOLD [] s) = false.
Proof.
  unfold has_bold. change (str "**") with [42%N; 42%N].
  induction s as [s IH] using list_length_ind.
  rewrite replace_bold_eq. destruct s as [|c [|d t]]; try reflexivity.
  - simpl. now rewrite andb_false_r.
  - destruct ((c =? 42) && (d =? 42))%N eqn:E.
    + apply IH. simpl. lia.
    + apply infixb_two. split; [|apply IH; simpl; lia].
      intros -> x u Hx ->. rewrite replace_bold_eq in Hx.
      destruct t as [|e t].
      * injection Hx as -> _. discriminate.
      * destruct ((d =? 42) && (e =? 42))%N eqn:F.
        -- apply andb_true_iff in F as [F _]. simpl in E. congruence.
        -- injection Hx as -> _. discriminate.
Qed.

(** *** How a replacement starts, and the pairs it can bring together *)

Lemma replace_all_head p rep h rep' :
  proper p -> rep = h :: rep' ->
  forall s d u, replace_all p rep s = d :: u ->
    (exists t, s = d :: t) \/ (d = h /\ exists r, p s = Some r).
Proof.
  intros Hp -> s d u.
  destruct (replace_all_cases p (h :: rep') s Hp)
    as [[-> ->] | [(c & t & -> & _ & ->) | (c & m & r & -> & E & ->)]].
  - discriminate.
  - intros [= -> _]. eauto.
  - intros [= -> _]. eauto.
Qed.

Lemma infixb_two_app x y (a b : jstring) :
  infixb [x; y] a = false -> infixb [x; y] b = false ->
  (forall a', a <> a' ++ [x]) ->
  infixb [x; y] (a ++ b) = false.
Proof.
  induction a as [|c a IH]; intros Ha Hb Hl; [exact Hb|].
  apply infixb_two in Ha as [Ha1 Ha2]. simpl app. apply infixb_two. split.
  - intros -> d u E. destruct a as [|e a].
    + exfalso. now apply (Hl []).
    + injection E as -> _. now apply (Ha1 eq_refl d a).
  - apply IH; auto. intros a' ->. now apply (Hl (c :: a')).
Qed.

(** A replacement whose text neither ends with [x] nor brings a new [y]
    after a character that was not followed by [y] makes no pair [x; y]. *)
Lemma replace_all_no_pair p rep h rep' x y :
  proper p -> rep = h :: rep' ->
  infixb [x; y] rep = false ->
  (forall a', rep <> a' ++ [x]) ->
  (h <> y \/ forall s r, p s = Some r -> exists t, s = h :: t) ->
  forall s, infixb [x; y] s = false ->
            infixb [x; y] (replace_all p rep s) = false.
Proof.
  intros Hp Hrep Hin Hlast Hhead s.
  induction s as [s IH] using list_length_ind. intros Hs.
  destruct (replace_all_cases p rep s Hp)
    as [[-> ->] | [(c & t & -> & _ & ->) | (c & m & r & -> & E & ->)]].
  - reflexivity.
  - apply infixb_two in Hs as [Hs1 Hs2]. apply infixb_two. split.
    + intros -> d u Hd.
      destruct (replace_all_head p rep h rep' Hp Hrep t d u Hd)
        as [[t' ->] | [-> [r Hr]]].
      * now apply (Hs1 eq_refl d t').
      * destruct Hhead as [Hh | Hh]; [exact Hh|].
        destruct (Hh _ _ Hr) as [t' ->]. now apply (Hs1 eq_refl h t').
    + apply IH; [simpl; lia | exact Hs2].
  - apply infixb_two_app; auto. apply IH.
    + rewrite length_app. simpl. lia.
    + exact (infixb_suffix _ _ _ Hs).
Qed.

Lemma RE_BLANK_LINES_head s r :
  RE_BLANK_LINES s = Some r -> exists t, s = 10%N :: t.
Proof.
  rewrite RE_BLANK_LINES_eq.
  destruct (3 <=? List.length s - List.length (drop_while is_nl s)) eqn:E;
    [|discriminate].
  intros _. apply Nat.leb_le in E. destruct s as [|c t]; simpl in E; [lia|].
  unfold is_nl in E. destruct (N.eqb_spec c 10) as [->|]; [eauto|].
  simpl in E. lia.
Qed.

Lemma one_neq_app_last (a x : char) (a' : jstring) : a <> x -> [a] <> a' ++ [x].
Proof.
  intros H E. destruct a' as [|b [|c a']]; simpl in E; try discriminate.
  injection E as ->. now apply H.
Qed.

Lemma two_neq_app_last (a b x : char) (a' : jstring) :
  b <> x -> [a; b] <> a' ++ [x].
Proof.
  intros H E. destruct a' as [|c [|d [|e a']]]; simpl in E; try discriminate.
  injection E as _ ->. now apply H.
Qed.

Lemma step3_no_bold s :
  has_bold s = false -> has_bold (replace_all RE_TRAILING [10%N] s) = false.
Proof.
  apply (replace_all_no_pair RE_TRAILING [10%N] 10%N [] 42%N 42%N);
    auto with pats.
  - intros a'. now apply one_neq_app_last.
  - left. discriminate.
Qed.

Lemma step4_no_pair x y s :
  x <> 10%N ->
  infixb [x; y] s = false ->
  infixb [x; y] (replace_all RE_BLANK_LINES [10%N; 10%N] s) = false.
Proof.
  intros Hx.
  apply (replace_all_no_pair RE_BLANK_LINES [10%N; 10%N] 10%N [10%N] x y);
    auto with pats.
  - apply infixb_two. split.
    + intros E. now symmetry in E.
    + apply infixb_two. split; [intros _ d u E; discriminate | reflexivity].
  - intros a'. apply two_neq_app_last. auto.
  - right. exact RE_BLANK_LINES_head.
Qed.

(** *** Blanks before a line break *)

Lemma RE_TRAILING_cons c t r :
  is_blank c = true ->
  (t = 10%N :: r \/ RE_TRAILING t = Some r) ->
  RE_TRAILING (c :: t) = Some r.
Proof.
  intros Hc H. rewrite RE_TRAILING_eq, Hc. destruct H as [-> | H].
  - reflexivity.
  - rewrite RE_TRAILING_eq in H. destruct t as [|b t']; [discriminate|].
    simpl. destruct (is_blank b); [exact H | discriminate].
Qed.

Lemma no_trailing_after_RE_TRAILING x s :
  is_blank x = true ->
  infixb [x; 10%N] (replace_all RE_TRAILING [10%N] s) = false.
Proof.
  intros Hx. induction s as [s IH] using list_length_ind.
  destruct (replace_all_cases RE_TRAILING [10%N] s proper_RE_TRAILING)
    as [[-> ->] | [(c & t & -> & E & ->) | (c & m & r & -> & E & ->)]].
  - reflexivity.
  - apply infixb_two. split; [|apply IH; simpl; lia].
    intros -> d u Hd ->.
    destruct (replace_all_head RE_TRAILING [10%N] 10%N [] proper_RE_TRAILING
                eq_refl t 10%N u Hd) as [[t' ->] | [_ [r Hr]]].
    + pose proof (RE_TRAILING_cons x _ t' Hx (or_introl eq_refl)) as F. congruence.
    + pose proof (RE_TRAILING_cons x t r Hx (or_intror Hr)) as F. congruence.
  - simpl app. apply infixb_two. split.
    + intros <-. discriminate.
    + apply IH. rewrite length_app. simpl. lia.
Qed.

(** *** Runs of line breaks *)

Lemma RE_BLANK_LINES_three t : RE_BLANK_LINES (10 :: 10 :: 10 :: t)%N <> None.
Proof.
  rewrite RE_BLANK_LINES_eq. simpl drop_while. simpl List.length.
  pose proof (drop_while_length is_nl t) as L.
  destruct (3 <=? _) eqn:E; [discriminate|]. apply Nat.leb_gt in E. lia.
Qed.

Lemma RE_BLANK_LINES_more t r :
  RE_BLANK_LINES t = Some r -> RE_BLANK_LINES (10%N :: t) <> None.
Proof.
  rewrite !RE_BLANK_LINES_eq. simpl drop_while. simpl List.length.
  pose proof (drop_while_length is_nl t) as L.
  destruct (3 <=? List.length t - _) eqn:E; [|discriminate].
  intros _. apply Nat.leb_le in E.
  destruct (3 <=? _) eqn:F; [discriminate|]. apply Nat.leb_gt in F. lia.
Qed.

Lemma step4_head s d u :
  replace_all RE_BLANK_LINES [10%N; 10%N] s = d :: u -> exists t, s = d :: t.
Proof.
  intros H.
  destruct (replace_all_head RE_BLANK_LINES [10%N; 10%N] 10%N [10%N]
              proper_RE_BLANK_LINES eq_refl s d u H) as [? | [-> [r Hr]]]; auto.
  exact (RE_BLANK_LINES_head _ _ Hr).
Qed.

Lemma no_blank_lines_after_RE_BLANK_LINES s :
  has_blank_lines (replace_all RE_BLANK_LINES [10%N; 10%N] s) = false.
Proof.
  unfold has_blank_lines. induction s as [s IH] using list_length_ind.
  destruct (replace_all_cases RE_BLANK_LINES [10%N; 10%N] s proper_RE_BLANK_LINES)
    as [[-> ->] | [(c & t & -> & E & ->) | (c & m & r & -> & E & ->)]].
  - reflexivity.
  - change (infixb [10%N; 10%N; 10%N] (c :: ?x)) with
      (prefixb [10%N; 10%N; 10%N] (c :: x) || infixb [10%N; 10%N; 10%N] x).
    rewrite (IH t) by (simpl; lia). rewrite orb_false_r.
    destruct (prefixb _ _) eqn:P; [exfalso | reflexivity].
    destruct (replace_all RE_BLANK_LINES [10%N; 10%N] t) as [|d [|e u]] eqn:F;
      simpl in P; rewrite ?andb_false_r in P; try discriminate.
    apply andb_true_iff in P as [Pc P]. apply andb_true_iff in P as [Pd P].
    apply andb_true_iff in P as [Pe _].
    apply N.eqb_eq in Pc, Pd, Pe. subst c d e.
    destruct (step4_head _ _ _ F) as [t' ->].
    destruct (RE_BLANK_LINES (10%N :: t')) as [r|] eqn:G.
    + exact (RE_BLANK_LINES_more _ _ G E).
    + rewrite replace_all_skip in F by exact G. injection F as F.
      destruct (step4_head _ _ _ F) as [t'' ->].
      exact (RE_BLANK_LINES_three t'' E).
  - assert (Hr : forall u, replace_all RE_BLANK_LINES [10%N; 10%N] r <> 10%N :: u).
    { intros u F. destruct (step4_head _ _ _ F) as [t' ->].
      rewrite RE_BLANK_LINES_eq in E.
      destruct (3 <=? _) in E; [|discriminate]. injection E as E.
      pose proof (drop_while_head is_nl ((c :: m) ++ 10%N :: t') 10%N t' E) as F'.
      discriminate. }
    assert (L : List.length r < List.length ((c :: m) ++ r))
      by (rewrite length_app; simpl; lia).
    specialize (IH r L).
    destruct (replace_all RE_BLANK_LINES [10%N; 10%N] r) as [|d u] eqn:F.
    + reflexivity.
    + destruct (N.eqb_spec d 10) as [->|Hd]; [now elim (Hr u)|].
      simpl app. simpl. simpl in IH.
      apply N.eqb_neq in Hd. rewrite Hd in *. simpl. exact IH.
Qed.

(** *** A text without the four patterns is left as it is *)

Lemma never_RE_CR s : has_cr s = false -> never RE_CR s.
Proof.
  intros H a b ->. apply infixb_suffix in H. rewrite RE_CR_eq.
  destruct b as [|c t]; [reflexivity|].
  destruct (N.eqb_spec c 13) as [->|]; [discriminate | reflexivity].
Qed.

Lemma never_RE_BOLD s : has_bold s = false -> never RE_BOLD s.
Proof.
  intros H a b ->. apply infixb_suffix in H. rewrite RE_BOLD_eq.
  destruct b as [|c [|d t]]; try reflexivity.
  destruct ((c =? 42) && (d =? 42))%N eqn:E; [|reflexivity].
  change (str "**") with [42%N; 42%N] in H. apply infixb_two in H as [H _].
  apply andb_true_iff in E as [Ec Ed]. apply N.eqb_eq in Ec, Ed.
  now elim (H Ec d t eq_refl).
Qed.

Lemma blanks_then_nl c m r :
  is_blank c = true -> forallb is_blank m = true ->
  has_trailing (c :: m ++ 10%N :: r) = true.
Proof.
  revert c. induction m as [|d m IH]; intros c Hc Hm.
  - unfold has_trailing, is_blank in *. apply orb_true_iff.
    apply orb_true_iff in Hc as [Hc|Hc]; apply N.eqb_eq in Hc; subst c;
      [left | right]; reflexivity.
  - simpl in Hm. apply andb_true_iff in Hm as [Hd Hm].
    specialize (IH d Hd Hm). unfold has_trailing in *.
    apply orb_true_iff in IH as [IH|IH].
    + pose proof (infixb_app_r _ [c] _ IH) as F. simpl app in F.
      simpl app. rewrite F. reflexivity.
    + pose proof (infixb_app_r _ [c] _ IH) as F. simpl app in F.
      simpl app. rewrite F. apply orb_true_r.
Qed.

Lemma never_RE_TRAILING s : has_trailing s = false -> never RE_TRAILING s.
Proof.
  intros H a b ->.
  destruct (RE_TRAILING b) as [r|] eqn:E; [exfalso | reflexivity].
  rewrite RE_TRAILING_eq in E. destruct b as [|c t]; [discriminate|].
  destruct (is_blank c) eqn:Hc; [|discriminate].
  destruct (drop_while_suffix is_blank t) as [m [Em Fm]].
  destruct (drop_while is_blank t) as [|d r'] eqn:D; [discriminate|].
  destruct (N.eqb_spec d 10) as [->|]; [|discriminate].
  pose proof (blanks_then_nl c m r' Hc Fm) as T. rewrite <- Em in T.
  unfold has_trailing in *.
  apply orb_false_iff in H as [H1 H2].
  apply infixb_suffix in H1, H2. rewrite H1, H2 in T. discriminate.
Qed.

Lemma run_length_cons a s :
  List.length (a :: s) - List.length (drop_while is_nl (a :: s)) =
  if is_nl a then S (List.length s - List.length (drop_while is_nl s)) else 0.
Proof.
  pose proof (drop_while_length is_nl s) as L.
  cbn [drop_while]. destruct (is_nl a); cbn [List.length]; lia.
Qed.

Lemma run_of_three s :
  3 <= List.length s - List.length (drop_while is_nl s) ->
  prefixb [10%N; 10%N; 10%N] s = true.
Proof.
  destruct s as [|a [|b [|c t]]]; try (simpl; lia);
    rewrite !run_length_cons; unfold is_nl;
    destruct (N.eqb_spec a 10) as [->|]; try lia.
  - simpl. lia.
  - destruct (N.eqb_spec b 10) as [->|]; try lia. simpl. lia.
  - destruct (N.eqb_spec b 10) as [->|]; try lia.
    destruct (N.eqb_spec c 10) as [->|]; try lia. reflexivity.
Qed.

Lemma never_RE_BLANK_LINES s : has_blank_lines s = false -> never RE_BLANK_LINES s.
Proof.
  intros H a b ->. apply infixb_suffix in H. rewrite RE_BLANK_LINES_eq.
  destruct (3 <=? _) eqn:E; [|reflexivity]. apply Nat.leb_le in E.
  apply run_of_three in E. unfold has_blank_lines in H.
  destruct b; simpl in H, E; [discriminate|].
  simpl in E. rewrite E in H. discriminate.
Qed.

(** *** Trimmed texts *)

Lemma starts_with_space_app (a b : jstring) :
  a <> [] -> starts_with_space (a ++ b) = starts_with_space a.
Proof. destruct a; [congruence | reflexivity]. Qed.

Lemma trim_end_no_trailing_space s : ends_with_space (trim_end s) = false.
Proof.
  unfold ends_with_space. induction s as [|c t IH]; [reflexivity|]. simpl.
  destruct (trim_end t) as [|y t'] eqn:E.
  - destruct (is_space c) eqn:Hc; simpl; auto.
  - change (rev (c :: y :: t')) with (rev (y :: t') ++ [c]).
    rewrite starts_with_space_app; [exact IH|].
    simpl. intros F. now apply app_eq_nil in F as [_ F].
Qed.

Lemma trim_trimmed s : untrimmed (trim s) = false.
Proof.
  unfold untrimmed. apply orb_false_iff. split.
  - destruct (trim s) as [|c r] eqn:E; [reflexivity|]. exact (trim_head _ _ _ E).
  - apply trim_end_no_trailing_space.
Qed.

Lemma trim_end_fixed s : ends_with_space s = false -> trim_end s = s.
Proof.
  intros H. destruct (trim_end_prefix s) as [w [E F]].
  destruct w as [|c w]; [now rewrite app_nil_r in E|exfalso].
  unfold ends_with_space in H. rewrite E, rev_app_distr in H.
  rewrite starts_with_space_app in H.
  - assert (G : forallb is_space (rev (c :: w)) = true).
    { apply forallb_forall. intros x Hx. apply in_rev in Hx.
      revert x Hx. now apply forallb_forall. }
    destruct (rev (c :: w)) as [|x v] eqn:R.
    + simpl in R. now apply app_eq_nil in R as [_ R].
    + simpl in H, G. apply andb_true_iff in G as [G _]. congruence.
  - simpl. intros G. now apply app_eq_nil in G as [_ G].
Qed.

Lemma trim_fixed s : untrimmed s = false -> trim s = s.
Proof.
  unfold untrimmed. intros H. apply orb_false_iff in H as [H1 H2].
  unfold trim. rewrite trim_start_fixed.
  - now apply trim_end_fixed.
  - intros c r ->. exact H1.
Qed.

(** *** [normalize] *)

Lemma normal_iff s :
  normal s = true <->
  has_cr s = false /\ has_bold s = false /\ has_trailing s = false
  /\ has_blank_lines s = false /\ untrimmed s = false.
Proof.
  unfold normal. rewrite !andb_true_iff, !negb_true_iff. tauto.
Qed.

Lemma normalize_normal raw : normal (normalize raw) = true.
Proof.
  apply normal_iff. unfold normalize.
  set (s1 := replace_all RE_CR [] raw).
  set (s2 := replace_all RE_BOLD [] s1).
  set (s3 := replace_all RE_TRAILING [10%N] s2).
  set (s4 := replace_all RE_BLANK_LINES [10%N; 10%N] s3).
  repeat split.
  - destruct (has_cr (trim s4)) eqn:E; [exfalso | reflexivity].
    apply infixb_one in E. apply trim_In in E.
    apply (replace_all_In _ _ proper_RE_BLANK_LINES) in E as [E|E];
      [simpl in E; intuition discriminate|].
    apply (replace_all_In _ _ proper_RE_TRAILING) in E as [E|E];
      [simpl in E; intuition discriminate|].
    apply (replace_all_In _ _ proper_RE_BOLD) in E as [E|E]; [destruct E|].
    exact (no_cr_after_RE_CR raw E).
  - apply infixb_trim. apply step4_no_pair; [discriminate|].
    apply step3_no_bold. apply no_bold_after_RE_BOLD.
  - unfold has_trailing. apply orb_false_iff.
    split; apply infixb_trim; (apply step4_no_pair; [discriminate|]);
      now apply no_trailing_after_RE_TRAILING.
  - apply infixb_trim. apply no_blank_lines_after_RE_BLANK_LINES.
  - apply trim_trimmed.
Qed.

Lemma normal_fixed s : normal s = true -> normalize s = s.
Proof.
  intros H. apply normal_iff in H as (H1 & H2 & H3 & H4 & H5).
  unfold normalize.
  rewrite (replace_all_never RE_CR [] s (never_RE_CR s H1)).
  rewrite (replace_all_never RE_BOLD [] s (never_RE_BOLD s H2)).
  rewrite (replace_all_never RE_TRAILING _ s (never_RE_TRAILING s H3)).
  rewrite (replace_all_never RE_BLANK_LINES _ s (never_RE_BLANK_LINES s H4)).
  now apply trim_fixed.
Qed.

Lemma normalize_fixed_point raw : normalize (normalize raw) = normalize raw.
Proof. apply normal_fixed, normalize_normal. Qed.


(* ================================================================== *)
(** ** [pickRfds] *)
(* ================================================================== *)

Lemma get_ok o k : nullish o = false -> exists v, get o k = Ok v.
Proof. destruct o; simpl; try discriminate; eauto. Qed.

Lemma coalesce_ok a b va vb :
  a = Ok va -> b = Ok vb -> nullish vb = false ->
  exists v, (a ?? b) = Ok v /\ nullish v = false.
Proof.
  intros -> -> H. destruct va; simpl; eauto.
Qed.

Lemma or_else_object json : nullish (or_else json (VObject [])) = false.
Proof.
  unfold or_else. destruct json as [| |[]|n|[|]| |]; simpl; auto.
  destruct (number_truthy n); auto.
Qed.

Lemma coalesce4 j1 k1 j2 k2 j3 k3 j4 k4 d :
  nullish j1 = false -> nullish j2 = false -> nullish j3 = false ->
  nullish j4 = false -> nullish d = false ->
  exists v, (get j1 k1 ?? get j2 k2 ?? get j3 k3 ?? get j4 k4 ?? Ok d) = Ok v
            /\ nullish v = false.
Proof.
  intros H1 H2 H3 H4 Hd.
  destruct (get_ok j1 k1 H1) as [v1 E1], (get_ok j2 k2 H2) as [v2 E2],
           (get_ok j3 k3 H3) as [v3 E3], (get_ok j4 k4 H4) as [v4 E4].
  rewrite E1, E2, E3, E4.
  destruct v1, v2, v3, v4; simpl; eauto.
Qed.

(** The lookups at the head of [pickRfds] never throw, and what they find is
    neither [null] nor [undefined]. *)
Lemma explicit_ok json :
  exists e, explicit json = Ok e
            /\ ex_j e = or_else json (VObject [])
            /\ nullish (ex_j e) = false /\ nullish (ex_ja e) = false
            /\ nullish (ex_verbal e) = false /\ nullish (ex_written e) = false.
Proof.
  unfold explicit. set (j := or_else json (VObject [])).
  assert (Hj : nullish j = false) by apply or_else_object.
  destruct (coalesce4 j (str "judgeAnalysis") j (str "judge_feedback")
              j (str "feedback") j (str "feedback") (VObject [])
              Hj Hj Hj Hj eq_refl) as [ja [Ea Ha]].
  assert (Ea' : (get j (str "judgeAnalysis") ?? get j (str "judge_feedback")
                 ?? get j (str "feedback") ?? Ok (VObject [])) = Ok ja).
  { rewrite <- Ea. destruct (get_ok j (str "feedback") Hj) as [x ->].
    destruct (get j (str "judgeAnalysis")) as [[]|];
      destruct (get j (str "judge_feedback")) as [[]|]; destruct x; reflexivity. }
  rewrite Ea'. simpl bind.
  destruct (coalesce4 ja (str "verbalRfd") ja (str "verbal_rfd")
              j (str "verbalRfd") j (str "verbal_rfd") (VString [])
              Ha Ha Hj Hj eq_refl) as [vb [Ev Hv]].
  rewrite Ev. simpl bind.
  destruct (coalesce4 ja (str "writtenRfd") ja (str "written_rfd")
              j (str "writtenRfd") j (str "written_rfd") (VString [])
              Ha Ha Hj Hj eq_refl) as [wr [Ew Hw]].
  rewrite Ew. simpl bind.
  eexists. split; [reflexivity|]. simpl. auto.
Qed.

Lemma string_and_cases v :
  (exists s, v = VString s /\ string_and v = VString s)
  \/ string_and v = VBool false.
Proof. destruct v; simpl; eauto. Qed.

(** [combined] is always a string. *)
Lemma combined_ok e :
  nullish (ex_j e) = false -> nullish (ex_ja e) = false ->
  exists c, combined e = Ok (VString c).
Proof.
  intros Hj Ha. unfold combined.
  destruct (get_ok (ex_ja e) (str "rfd") Ha) as [a ->].
  destruct (get_ok (ex_j e) (str "rfd") Hj) as [b ->]. simpl bind.
  assert (A : exists c, anchored (ex_written e) = VString c).
  { unfold anchored. destruct (ex_written e); eauto.
    destruct (test WRITTEN_ANCHOR s); eauto. }
  destruct A as [c ->].
  destruct (string_and_cases a) as [[s [-> ->]] | ->],
           (string_and_cases b) as [[s' [-> ->]] | ->];
    unfold or_else; simpl;
    repeat match goal with
           | |- context [match ?x with [] => _ | _ :: _ => _ end] => destruct x
           end; eauto.
Qed.

Lemma not_or_blank_spec v :
  not_or_blank v =
  if negb (truthy v) then Ok true
  else match v with
       | VString s => Ok (is_empty (trim s))
       | _ => Throw TypeError
       end.
Proof.
  unfold not_or_blank. destruct (negb (truthy v)); [reflexivity|].
  destruct v; simpl; try reflexivity. now destruct (trim s).
Qed.

Lemma not_or_blank_true v : blank_value v = true -> not_or_blank v = Ok true.
Proof.
  rewrite not_or_blank_spec. unfold blank_value.
  destruct (negb (truthy v)); [reflexivity|]. simpl.
  destruct v; try discriminate. now intros ->.
Qed.

Lemma not_or_blank_inv v b :
  not_or_blank v = Ok b -> b = blank_value v.
Proof.
  rewrite not_or_blank_spec. unfold blank_value.
  destruct (negb (truthy v)); [now intros [= <-]|]. simpl.
  destruct v; try discriminate. now intros [= <-].
Qed.

Lemma pickRfds_inv json r :
  pickRfds json = Ok r ->
  exists v w, r = mkPair (normalize v) (normalize w).
Proof.
  unfold pickRfds.
  destruct (explicit json) as [e|]; [|discriminate]. simpl bind.
  destruct (after_split e) as [vw|]; [|discriminate]. simpl bind.
  destruct (after_flowNotes (ex_j e) (snd vw)) as [wr|]; [|discriminate].
  simpl bind. intros [= <-]. eauto.
Qed.


(** C8: the text normalizer is idempotent: for every string [x],
    [normalize (normalize x) = normalize x]. *)
Theorem normalize_idempotent (x : jstring) :
  normalize (normalize x) = normalize x.
Proof. apply normalize_fixed_point. Qed.

(** C9: for every payload on which the extraction terminates normally, both
    strings of the pair that [pickRfds] returns are fixed points of
    [normalize]: they hold no carriage return, no "**", no space or tab just
    before a line break, no run of three line breaks, and neither start nor
    end with white space. *)
Theorem pickRfds_sections_normal (json : value) (r : SectionPair) :
  pickRfds json = Ok r ->
  fixed_and_clean (verbal r) /\ fixed_and_clean (written r).
Proof.
  intros H. destruct (pickRfds_inv json r H) as [v [w ->]]. simpl.
  split; (split; [apply normalize_fixed_point | apply normal_iff, normalize_normal]).
Qed.

Lemma pickRfds_sections_normal_witness :
  pickRfds payload_rfd
  = Ok (mkPair (str "Some summary text.") (str "Aff Constructive: detail."))
  /\ fixed_and_clean (str "Some summary text.")
  /\ fixed_and_clean (str "Aff Constructive: detail.").
Proof.
  split; [vm_compute; reflexivity|].
  apply (pickRfds_sections_normal payload_rfd
           (mkPair (str "Some summary text.") (str "Aff Constructive: detail."))).
  vm_compute. reflexivity.
Defined.

(** C6, at the input where the code fails: for the payload
    [{ rfd: "Some summary text. Written RFD: Aff Constructive: detail." }]
    the extraction gives the verbal text "Some summary text." and the
    written text "Aff Constructive: detail.", as the claim says; but the
    written formatter does not render a heading for "Aff Constructive": the
    whole line, colon and "detail." included, is the text of the one [<h3>]
    element, and no paragraph is emitted.  The same label on a line of its
    own gives the heading "Aff Constructive" followed by the paragraph, and
    a "Grand Crossfire:" line with text after the colon, whose alternative
    of the pattern is the only one fixed to the end of the line, is a
    paragraph. *)
Theorem heading_takes_whole_line :
  pickRfds payload_rfd
  = Ok (mkPair (str "Some summary text.") (str "Aff Constructive: detail."))
  /\ toSectionedHTML (str "Aff Constructive: detail.")
     = H3_OPEN ++ str "Aff Constructive: detail." ++ H3_CLOSE
  /\ toSectionedHTML (str "Aff Constructive: detail.")
     <> H3_OPEN ++ str "Aff Constructive" ++ H3_CLOSE ++ [10%N]
        ++ str "<p>detail.</p>"
  /\ infixb (str "Aff Constructive</h3>")
       (toSectionedHTML (str "Aff Constructive: detail.")) = false
  /\ infixb P_OPEN (toSectionedHTML (str "Aff Constructive: detail.")) = false
  /\ toSectionedHTML (str "Aff Constructive:" ++ [10%N] ++ str "detail.")
     = H3_OPEN ++ str "Aff Constructive" ++ H3_CLOSE ++ [10%N]
       ++ str "<p>detail.</p>"
  /\ toSectionedHTML (str "Grand Crossfire: detail.")
     = str "<p>Grand Crossfire: detail.</p>".
Proof.
  repeat split; try (vm_compute; reflexivity). vm_compute. discriminate.
Qed.

(** When [pickRfds] throws: exactly when the value found for one of the two
    sections is truthy and not a string. *)
Lemma not_or_blank_throws v :
  not_or_blank v = (if no_trim v then Throw TypeError else Ok (blank_value v)).
Proof.
  rewrite not_or_blank_spec. unfold no_trim, blank_value.
  destruct v as [| |[]|n|[|c s]| |]; simpl; try reflexivity.
  now destruct (number_truthy n).
Qed.

Lemma after_split_result e c :
  combined e = Ok (VString c) ->
  (no_trim (ex_verbal e) = true /\ after_split e = Throw TypeError)
  \/ (no_trim (ex_verbal e) = false
      /\ exists v w, after_split e = Ok (v, w)
                     /\ no_trim w = no_trim (ex_written e)).
Proof.
  intros Hc. unfold after_split, wants_split.
  rewrite Hc. simpl bind. rewrite not_or_blank_throws.
  destruct (no_trim (ex_verbal e)); [left; auto | right]. split; [reflexivity|].
  simpl bind. destruct (blank_value (ex_verbal e) && _).
  - simpl bind. eexists _, _. split; [reflexivity|].
    destruct (truthy (ex_written e)) eqn:T; simpl; [reflexivity|].
    unfold no_trim. rewrite T. simpl. apply andb_false_r.
  - eauto.
Qed.

Lemma after_flowNotes_result j w :
  nullish j = false ->
  (no_trim w = true /\ after_flowNotes j w = Throw TypeError)
  \/ (no_trim w = false /\ exists r, after_flowNotes j w = Ok r).
Proof.
  intros Hj. unfold after_flowNotes. rewrite not_or_blank_throws.
  destruct (no_trim w); [left; auto | right]. split; [reflexivity|].
  simpl bind. destruct (blank_value w); [|eauto].
  destruct (get_ok j (str "flowNotes") Hj) as [fn ->]. simpl bind.
  destruct (typeof_string fn); eauto.
Qed.

(** Whatever the payload, the nine reads of [pickRfds] succeed, and the
    function throws a [TypeError] exactly when the value found for the verbal
    or for the written section is truthy and not a string (a number, [true],
    an array, an object); in every other case it returns a pair. *)
Lemma pickRfds_throws_iff json :
  exists e, explicit json = Ok e
            /\ (pickRfds json = Throw TypeError
                <-> no_trim (ex_verbal e) || no_trim (ex_written e) = true)
            /\ (no_trim (ex_verbal e) || no_trim (ex_written e) = false
                -> exists r, pickRfds json = Ok r).
Proof.
  destruct (explicit_ok json) as (e & He & _ & Hj & Ha & _).
  exists e. split; [exact He|].
  destruct (combined_ok e Hj Ha) as [c Hc].
  unfold pickRfds. rewrite He. simpl bind.
  destruct (after_split_result e c Hc) as [[Nv ->] | [Nv (v & w & -> & Nw)]];
    rewrite Nv; simpl.
  - split; [tauto | discriminate].
  - rewrite <- Nw.
    destruct (after_flowNotes_result (ex_j e) w Hj) as [[N ->] | [N [r ->]]];
      rewrite N; simpl.
    + split; [tauto | discriminate].
    + split; [split; discriminate | eauto].
Qed.

(** C3, at the inputs where the code fails: a verbal or written field that
    holds a truthy value other than a string (a number, an object, an array,
    [true]) makes [pickRfds] throw a TypeError, at the call of [trim] in the
    condition of one of its two [if]s. *)
Theorem pickRfds_throws_on_non_string_field :
  pickRfds (obj1 "verbalRfd" five) = Throw TypeError
  /\ pickRfds (obj1 "verbalRfd" (VObject [])) = Throw TypeError
  /\ pickRfds (obj1 "verbal_rfd" (VArray [])) = Throw TypeError
  /\ pickRfds (obj1 "writtenRfd" (VBool true)) = Throw TypeError
  /\ pickRfds (obj1 "judgeAnalysis" (obj1 "written_rfd" five)) = Throw TypeError.
Proof. repeat split; vm_compute; reflexivity. Qed.

(** C2 as stated fails: with a written value found under its alias (["X"])
    and no verbal value, the fallback is taken, and the verbal text of the
    result comes from the combined blob. *)
Lemma fallback_taken_with_written_present :
  explicit payload_written_and_rfd
  = Ok (mkExplicit payload_written_and_rfd (VObject [])
          (VString []) (VString (str "X")))
  /\ combined (mkExplicit payload_written_and_rfd (VObject [])
                 (VString []) (VString (str "X")))
     = Ok (VString (str "Verbal RFD: hello"))
  /\ wants_split (VString []) (VString (str "Verbal RFD: hello")) = Ok true
  /\ pickRfds payload_written_and_rfd = Ok (mkPair (str "hello") (str "X")).
Proof. repeat split; vm_compute; reflexivity. Qed.

(** C7 as stated fails: the flow notes [" **x** "] give the written section
    ["x"], not the string itself. *)
Lemma flowNotes_not_verbatim :
  pickRfds payload_flowNotes = Ok (mkPair [] (str "x"))
  /\ str "x" <> str " **x** ".
Proof. split; [vm_compute; reflexivity | vm_compute; discriminate]. Qed.

(** C7, amended: when the written value is still falsy or white space only
    after the alias lookups and the split of the combined blob, and the
    payload has a [flowNotes] field that is a string, [written] takes that
    string as it is, and the written section that [pickRfds] returns is the
    string normalized. *)
Theorem flowNotes_fills_blank_written (json : value) (e : Explicit)
    (vw : value * value) (f : jstring) :
  explicit json = Ok e ->
  after_split e = Ok vw ->
  blank_value (snd vw) = true ->
  get (ex_j e) (str "flowNotes") = Ok (VString f) ->
  after_flowNotes (ex_j e) (snd vw) = Ok (VString f)
  /\ pickRfds json
     = Ok (mkPair (normalize (ToString (or_else (fst vw) (VString []))))
                  (normalize f)).
Proof.
  intros He Hs Hb Hf.
  assert (A : after_flowNotes (ex_j e) (snd vw) = Ok (VString f)).
  { unfold after_flowNotes. rewrite (not_or_blank_true _ Hb). simpl bind.
    rewrite Hf. reflexivity. }
  split; [exact A|].
  unfold pickRfds. rewrite He. simpl bind. rewrite Hs. simpl bind.
  rewrite A. simpl bind. do 3 f_equal. unfold or_else. now destruct f.
Qed.

Lemma flowNotes_fills_blank_written_witness :
  after_flowNotes payload_flowNotes (VString []) = Ok (VString (str " **x** "))
  /\ pickRfds payload_flowNotes
     = Ok (mkPair (normalize (ToString (or_else (VString []) (VString []))))
                  (normalize (str " **x** "))).
Proof.
  apply (flowNotes_fills_blank_written payload_flowNotes
           (mkExplicit payload_flowNotes (VObject []) (VString []) (VString []))
           (VString [], VString []) (str " **x** "));
    vm_compute; reflexivity.
Defined.

(* ================================================================== *)
(** ** The formatters on white space *)
(* ================================================================== *)

Lemma replaceAll_absent c rep s : ~ In c s -> replaceAll c rep s = s.
Proof.
  unfold replaceAll. induction s as [|x t IH]; intros H; [reflexivity|].
  simpl. destruct (N.eqb_spec x c) as [->|_].
  - elim H. now left.
  - simpl. f_equal. apply IH. intros G. apply H. now right.
Qed.

Lemma space_not_special c :
  is_space c = true -> c <> 38%N /\ c <> 60%N /\ c <> 62%N.
Proof. intros H. repeat split; intros ->; discriminate. Qed.

Lemma esc_spaces s : forallb is_space s = true -> esc s = s.
Proof.
  intros H. unfold esc.
  assert (A : forall c, In c s -> c <> 38%N /\ c <> 60%N /\ c <> 62%N).
  { intros c Hc. apply space_not_special. revert c Hc.
    now apply forallb_forall. }
  rewrite (replaceAll_absent (ch "&")) by (intros G; now apply A in G).
  rewrite (replaceAll_absent (ch "<")) by (intros G; now apply A in G).
  apply replaceAll_absent. intros G. now apply A in G.
Qed.

Lemma split_char_spaces sep s :
  forallb is_space s = true ->
  Forall (fun l => forallb is_space l = true) (split_char sep s).
Proof.
  induction s as [|c t IH]; simpl; intros H.
  - repeat constructor.
  - apply andb_true_iff in H as [Hc Ht]. specialize (IH Ht).
    destruct (c =? sep)%N.
    + constructor; auto.
    + destruct (split_char sep t) as [|l ls]; simpl.
      * repeat constructor. simpl. now rewrite Hc.
      * inversion IH; subst. constructor; auto. simpl. now rewrite Hc.
Qed.

Lemma line_step_blank st raw :
  para st = [] -> forallb is_space raw = true -> line_step st raw = st.
Proof.
  intros Hp Hr. unfold line_step. rewrite (trim_all_space raw Hr). simpl.
  unfold flushPara. now rewrite Hp.
Qed.

Lemma fold_line_step_blank lines st :
  para st = [] -> Forall (fun l => forallb is_space l = true) lines ->
  fold_left line_step lines st = st.
Proof.
  intros Hp H. induction H as [|l ls Hl _ IH]; [reflexivity|].
  simpl. rewrite (line_step_blank st l Hp Hl). exact IH.
Qed.

Lemma toSectionedHTML_spaces c s :
  forallb is_space (c :: s) = true -> toSectionedHTML (c :: s) = [].
Proof.
  intros H. unfold toSectionedHTML. cbn [is_empty]. rewrite (esc_spaces _ H).
  rewrite fold_line_step_blank; [reflexivity | reflexivity |].
  now apply split_char_spaces.
Qed.

Lemma toVerbalHTML_spaces c s :
  forallb is_space (c :: s) = true -> toVerbalHTML (c :: s) = [].
Proof.
  intros H. unfold toVerbalHTML. cbn [is_empty]. rewrite (esc_spaces _ H).
  rewrite trim_all_space; [reflexivity|].
  apply forallb_forall. intros x Hx.
  apply (replace_all_In _ _ proper_RE_BLANK_LINES) in Hx as [Hx|Hx].
  - simpl in Hx. destruct Hx as [<-|[<-|[]]]; reflexivity.
  - revert x Hx. now apply forallb_forall.
Qed.

(** C5 as stated fails on white space that is not empty: both formatters
    give the empty string for a single blank. *)
Lemma blank_input_gives_empty_output :
  toSectionedHTML (str " ") = []
  /\ toVerbalHTML (str " ") = []
  /\ NOT_PROVIDED <> [].
Proof. repeat split; vm_compute; try reflexivity. discriminate. Qed.

(** C5, amended: for the empty string both formatters return exactly
    [<p>Not provided.</p>]; for an input that is not empty and holds white
    space only, both return the empty string. *)
Theorem formatters_on_blank_input (s : jstring) :
  forallb is_space s = true ->
  toSectionedHTML s = (if is_empty s then NOT_PROVIDED else [])
  /\ toVerbalHTML s = (if is_empty s then NOT_PROVIDED else []).
Proof.
  intros H. destruct s as [|c s].
  - split; reflexivity.
  - split; [now apply toSectionedHTML_spaces | now apply toVerbalHTML_spaces].
Qed.

Lemma formatters_on_blank_input_witness :
  (toSectionedHTML [] = NOT_PROVIDED /\ toVerbalHTML [] = NOT_PROVIDED)
  /\ (toSectionedHTML [32%N; 9%N; 10%N] = []
      /\ toVerbalHTML [32%N; 9%N; 10%N] = []).
Proof.
  split.
  - apply (formatters_on_blank_input []). reflexivity.
  - apply (formatters_on_blank_input [32%N; 9%N; 10%N]). reflexivity.
Defined.


(* ================================================================== *)
(** ** Escaped texts *)
(* ================================================================== *)

Lemma entity_cases e :
  In e ENTITIES -> e = str "&amp;" \/ e = str "&lt;" \/ e = str "&gt;".
Proof. simpl. intuition. Qed.

Lemma entity_solid e : In e ENTITIES -> forallb solid e = true.
Proof. intros H. destruct (entity_cases e H) as [-> | [-> | ->]]; reflexivity. Qed.

Lemma entity_shape e :
  In e ENTITIES -> exists e', e = 38%N :: e' /\ forallb plain e' = true.
Proof.
  intros H. destruct (entity_cases e H) as [-> | [-> | ->]];
    eexists; split; reflexivity.
Qed.

Lemma escaped_plain_app a t :
  forallb plain a = true -> escaped t -> escaped (a ++ t).
Proof.
  induction a as [|c a IH]; simpl; intros H Ht; [exact Ht|].
  apply andb_true_iff in H as [Hc Ha]. constructor; auto.
Qed.

Lemma escaped_tail c t : escaped (c :: t) -> escaped t.
Proof.
  intros H. inversion H as [|c' t' Hc Ht|e t' He Ht E]; subst; [exact Ht|].
  destruct (entity_shape e He) as [e' [-> Hp]]. simpl in E.
  injection E as _ <-. now apply escaped_plain_app.
Qed.

Lemma escaped_suffix a b : escaped (a ++ b) -> escaped b.
Proof.
  induction a as [|c a IH]; simpl; intros H; [exact H|].
  apply IH. exact (escaped_tail _ _ H).
Qed.

Lemma escaped_app a b : escaped a -> escaped b -> escaped (a ++ b).
Proof.
  intros Ha Hb. induction Ha as [|c t Hc _ IH|e t He _ IH]; simpl.
  - exact Hb.
  - now constructor.
  - rewrite <- app_assoc. now constructor.
Qed.

Lemma escaped_ok_plain_app a t :
  forallb plain a = true -> escaped_ok (a ++ t) = escaped_ok t.
Proof.
  induction a as [|c a IH]; simpl; intros H; [reflexivity|].
  apply andb_true_iff in H as [Hc Ha]. unfold plain in Hc.
  apply negb_true_iff in Hc. apply orb_false_iff in Hc as [Hc H62].
  apply orb_false_iff in Hc as [H38 H60].
  rewrite H60, H62, H38. simpl. now apply IH.
Qed.

Lemma escaped_escaped_ok s : escaped s -> escaped_ok s = true.
Proof.
  induction 1 as [|c t Hc _ IH|e t He _ IH].
  - reflexivity.
  - change (c :: t) with ([c] ++ t).
    rewrite (escaped_ok_plain_app [c] t); [exact IH|]. simpl. now rewrite Hc.
  - destruct (entity_cases e He) as [-> | [-> | ->]];
      cbn [str List.map list_ascii_of_string N_of_ascii N_of_digits app];
      simpl escaped_ok.
    + rewrite IH. reflexivity.
    + rewrite IH. reflexivity.
    + rewrite IH. reflexivity.
Qed.

(** *** [esc] gives an escaped text *)

Lemma replaceAll_app c rep a b :
  replaceAll c rep (a ++ b) = replaceAll c rep a ++ replaceAll c rep b.
Proof. unfold replaceAll. apply flat_map_app. Qed.

Lemma esc_cons c s : esc (c :: s) = esc [c] ++ esc s.
Proof.
  unfold esc.
  change (c :: s) with ([c] ++ s). now rewrite !replaceAll_app.
Qed.

Lemma esc_one c :
  esc [c] = if (c =? 38)%N then str "&amp;"
            else if (c =? 60)%N then str "&lt;"
            else if (c =? 62)%N then str "&gt;"
            else [c].
Proof.
  unfold esc, replaceAll. simpl flat_map at 3. change (ch "&") with 38%N.
  destruct (N.eqb_spec c 38) as [->|H38]; [reflexivity|].
  simpl. change (ch "<") with 60%N.
  destruct (N.eqb_spec c 60) as [->|H60]; [reflexivity|].
  simpl. change (ch ">") with 62%N.
  destruct (N.eqb_spec c 62) as [->|H62]; reflexivity.
Qed.

Lemma esc_escaped s : escaped (esc s).
Proof.
  induction s as [|c s IH]; [constructor|].
  rewrite esc_cons, esc_one.
  destruct (c =? 38)%N eqn:H38; [apply escaped_entity; simpl; auto|].
  destruct (c =? 60)%N eqn:H60; [apply escaped_entity; simpl; auto|].
  destruct (c =? 62)%N eqn:H62; [apply escaped_entity; simpl; auto|].
  simpl. constructor; auto. unfold plain. now rewrite H38, H60, H62.
Qed.


(** *** What the string operations do to a run of solid characters *)

Lemma solid_inv c :
  solid c = true -> is_space c = false /\ c <> 58%N /\ c <> 10%N.
Proof.
  unfold solid. intros H. apply andb_true_iff in H as [H1 H2].
  apply negb_true_iff in H1, H2. apply N.eqb_neq in H2.
  repeat split; auto. intros ->. discriminate.
Qed.

Lemma trim_end_keep c t : is_space c = false -> trim_end (c :: t) = c :: trim_end t.
Proof. intros H. simpl. rewrite H. now destruct (trim_end t). Qed.

Lemma trim_end_solid e t :
  forallb solid e = true -> trim_end (e ++ t) = e ++ trim_end t.
Proof.
  induction e as [|c e IH]; intros H; [reflexivity|].
  simpl in H. apply andb_true_iff in H as [Hc He].
  destruct (solid_inv c Hc) as (Hs & _ & _).
  simpl app. rewrite trim_end_keep by exact Hs. now rewrite IH.
Qed.

Lemma cons_head_app_head c parts : cons_head c parts = app_head [c] parts.
Proof. reflexivity. Qed.

Lemma app_head_app a b parts :
  app_head a (app_head b parts) = app_head (a ++ b) parts.
Proof. destruct parts; simpl; [reflexivity | now rewrite app_assoc]. Qed.

Lemma split_char_nonempty sep s : split_char sep s <> [].
Proof.
  destruct s as [|c t]; simpl; [discriminate|].
  destruct (c =? sep)%N; [discriminate|].
  now destruct (split_char sep t).
Qed.

Lemma split_char_solid e t :
  forallb solid e = true ->
  split_char 10%N (e ++ t) = app_head e (split_char 10%N t).
Proof.
  induction e as [|c e IH]; intros H.
  - simpl. destruct (split_char 10%N t) eqn:E; [|reflexivity].
    now apply split_char_nonempty in E.
  - simpl in H. apply andb_true_iff in H as [Hc He].
    destruct (solid_inv c Hc) as (_ & _ & Hn).
    simpl. apply N.eqb_neq in Hn. rewrite Hn, (IH He).
    rewrite cons_head_app_head. apply app_head_app.
Qed.

Lemma RE_FINAL_COLON_eq s :
  RE_FINAL_COLON s = match s with
                     | [c] => if (c =? 58)%N then Some [] else None
                     | _ => None
                     end.
Proof.
  unfold RE_FINAL_COLON, p_seq. rewrite p_char_nonletter by (left; reflexivity).
  change (ch ":") with 58%N.
  destruct s as [|c [|d t]]; simpl; auto; now destruct (c =? 58)%N.
Qed.

Lemma strip_colon_solid e t :
  forallb solid e = true ->
  replace_first RE_FINAL_COLON [] (e ++ t)
  = e ++ replace_first RE_FINAL_COLON [] t.
Proof.
  induction e as [|c e IH]; intros H; [reflexivity|].
  simpl in H. apply andb_true_iff in H as [Hc He].
  destruct (solid_inv c Hc) as (_ & Hn & _). apply N.eqb_neq in Hn.
  simpl app.
  change (replace_first RE_FINAL_COLON [] (c :: e ++ t)) with
    (match RE_FINAL_COLON (c :: e ++ t) with
     | Some rest => [] ++ rest
     | None => c :: replace_first RE_FINAL_COLON [] (e ++ t)
     end).
  rewrite RE_FINAL_COLON_eq, (IH He).
  destruct (e ++ t); [rewrite Hn|]; reflexivity.
Qed.

Lemma replace_all_solid p rep e t :
  starts_at_space p -> forallb solid e = true ->
  replace_all p rep (e ++ t) = e ++ replace_all p rep t.
Proof.
  intros Hp. induction e as [|c e IH]; intros H; [reflexivity|].
  simpl in H. apply andb_true_iff in H as [Hc He].
  destruct (solid_inv c Hc) as (Hs & _ & _).
  simpl app. rewrite replace_all_skip by now apply Hp. now rewrite IH.
Qed.

(** *** The equations of the split on a pattern *)

Section SplitOnPattern.

Variable p : pat.

Lemma split_re_from_skipn k s :
  k <= List.length s -> split_re_from p k s = split_re_from p 0 (skipn k s).
Proof.
  revert k. induction s as [|c t IH]; intros [|k] H; simpl in *; try reflexivity.
  apply IH. lia.
Qed.

Lemma split_re_skip c t :
  p (c :: t) = None -> split_re p (c :: t) = cons_head c (split_re p t).
Proof. unfold split_re. simpl. now intros ->. Qed.

Lemma split_re_match c m r :
  p ((c :: m) ++ r) = Some r -> split_re p ((c :: m) ++ r) = [] :: split_re p r.
Proof.
  intros H. unfold split_re.
  change (split_re_from p 0 ((c :: m) ++ r)) with
    (match p ((c :: m) ++ r) with
     | Some rest =>
         match match_length ((c :: m) ++ r) rest with
         | 0 => cons_head c (split_re_from p 0 (m ++ r))
         | S k => [] :: split_re_from p k (m ++ r)
         end
     | None => cons_head c (split_re_from p 0 (m ++ r))
     end).
  rewrite H, match_length_app. cbn [List.length].
  rewrite split_re_from_skipn by (rewrite length_app; lia).
  rewrite skipn_app, Nat.sub_diag, skipn_all. reflexivity.
Qed.

End SplitOnPattern.

Lemma cons_head_nonempty c parts : cons_head c parts <> [].
Proof. now destruct parts. Qed.

Lemma split_re_from_nonempty p k s : split_re_from p k s <> [].
Proof.
  revert k. induction s as [|c t IH]; intros k; simpl; [discriminate|].
  destruct k; [|apply IH].
  destruct (p (c :: t)) as [r|]; [|apply cons_head_nonempty].
  destruct (match_length (c :: t) r); [apply cons_head_nonempty | discriminate].
Qed.

Lemma split_re_solid p e t :
  starts_at_space p -> forallb solid e = true ->
  split_re p (e ++ t) = app_head e (split_re p t).
Proof.
  intros Hp. induction e as [|c e IH]; intros H.
  - simpl. unfold split_re. destruct (split_re_from p 0 t) eqn:E; [|reflexivity].
    now apply split_re_from_nonempty in E.
  - simpl in H. apply andb_true_iff in H as [Hc He].
    destruct (solid_inv c Hc) as (Hs & _ & _).
    simpl app. rewrite split_re_skip by now apply Hp.
    rewrite (IH He), cons_head_app_head. apply app_head_app.
Qed.

(** *** The string operations of the formatters keep a text escaped *)

Lemma proper_nil p : proper p -> p [] = None.
Proof.
  intros H. destruct (p []) as [r|] eqn:E; [|reflexivity].
  destruct (H _ _ E) as [c [m F]]. discriminate.
Qed.

Lemma escaped_trim_end s : escaped s -> escaped (trim_end s).
Proof.
  induction 1 as [|c t Hc _ IH|e t He _ IH].
  - constructor.
  - simpl. destruct (trim_end t) as [|y t'].
    + destruct (is_space c); repeat constructor; auto.
    + constructor; auto.
  - rewrite trim_end_solid by now apply entity_solid. now constructor.
Qed.

Lemma escaped_trim s : escaped s -> escaped (trim s).
Proof.
  intros H. unfold trim, trim_start. apply escaped_trim_end.
  destruct (drop_while_suffix is_space s) as [m [E _]].
  rewrite E in H. exact (escaped_suffix _ _ H).
Qed.

Lemma escaped_app_head e parts :
  escaped e -> Forall escaped parts -> Forall escaped (app_head e parts).
Proof.
  intros He H. destruct H as [|l ls Hl Hls]; simpl.
  - repeat constructor. exact He.
  - constructor; auto. now apply escaped_app.
Qed.

Lemma escaped_entity_only e : In e ENTITIES -> escaped e.
Proof. intros H. rewrite <- (app_nil_r e). constructor; [exact H | constructor]. Qed.

Lemma escaped_lines s : escaped s -> Forall escaped (split_char 10%N s).
Proof.
  induction 1 as [|c t Hc _ IH|e t He _ IH].
  - repeat constructor.
  - simpl. destruct (c =? 10)%N.
    + constructor; [constructor | exact IH].
    + rewrite cons_head_app_head. apply escaped_app_head; auto.
      repeat constructor. exact Hc.
  - rewrite split_char_solid by now apply entity_solid.
    apply escaped_app_head; auto. now apply escaped_entity_only.
Qed.

Lemma escaped_strip_colon s :
  escaped s -> escaped (replace_first RE_FINAL_COLON [] s).
Proof.
  induction 1 as [|c t Hc Ht IH|e t He _ IH].
  - simpl. constructor.
  - change (replace_first RE_FINAL_COLON [] (c :: t)) with
      (match RE_FINAL_COLON (c :: t) with
       | Some rest => [] ++ rest
       | None => c :: replace_first RE_FINAL_COLON [] t
       end).
    rewrite RE_FINAL_COLON_eq. destruct t as [|d t].
    + destruct (c =? 58)%N; repeat constructor. exact Hc.
    + constructor; auto.
  - rewrite strip_colon_solid by now apply entity_solid. now constructor.
Qed.

Lemma escaped_replace_all p rep :
  proper p -> starts_at_space p -> escaped rep ->
  forall s, escaped s -> escaped (replace_all p rep s).
Proof.
  intros Hp Hs Hrep s. induction s as [s IH] using list_length_ind.
  intros H. destruct H as [|c t Hc Ht|e t He Ht].
  - rewrite replace_all_nil by now apply proper_nil. constructor.
  - destruct (p (c :: t)) as [r|] eqn:E.
    + destruct (Hp _ _ E) as [c' [m F]]. rewrite F in *.
      rewrite replace_all_match by exact E.
      apply escaped_app; auto. apply IH.
      * rewrite length_app. simpl. lia.
      * apply (escaped_suffix (c' :: m)). rewrite <- F. now constructor.
    + rewrite replace_all_skip by exact E. constructor; auto.
  - rewrite replace_all_solid by (auto; now apply entity_solid).
    constructor; auto. apply IH; auto.
    destruct (entity_shape e He) as [e' [-> _]]. rewrite length_app. simpl. lia.
Qed.

Lemma escaped_split_re p :
  proper p -> starts_at_space p ->
  forall s, escaped s -> Forall escaped (split_re p s).
Proof.
  intros Hp Hs s. induction s as [s IH] using list_length_ind.
  intros H. destruct H as [|c t Hc Ht|e t He Ht].
  - repeat constructor.
  - destruct (p (c :: t)) as [r|] eqn:E.
    + destruct (Hp _ _ E) as [c' [m F]]. rewrite F in *.
      rewrite split_re_match by exact E.
      constructor; [constructor|]. apply IH.
      * rewrite length_app. simpl. lia.
      * apply (escaped_suffix (c' :: m)). rewrite <- F. now constructor.
    + rewrite split_re_skip by exact E. rewrite cons_head_app_head.
      apply escaped_app_head; auto. repeat constructor. exact Hc.
  - rewrite split_re_solid by (auto; now apply entity_solid).
    apply escaped_app_head; [now apply escaped_entity_only|].
    apply IH; auto.
    destruct (entity_shape e He) as [e' [-> _]]. rewrite length_app. simpl. lia.
Qed.

Lemma escaped_join sep parts :
  escaped sep -> Forall escaped parts -> escaped (join sep parts).
Proof.
  intros Hs H. induction H as [|p ps Hp Hps IH]; [constructor|].
  simpl. destruct ps as [|q ps]; [exact Hp|].
  apply escaped_app; auto. apply escaped_app; auto.
Qed.

Lemma at_least_starts_at_space n cls :
  (forall c, cls c = true -> is_space c = true) ->
  starts_at_space (p_at_least (S n) cls).
Proof.
  intros H c t Hc. unfold p_at_least. simpl drop_while.
  destruct (cls c) eqn:E.
  - apply H in E. congruence.
  - simpl List.length. rewrite Nat.sub_diag. reflexivity.
Qed.

Lemma is_nl_space c : is_nl c = true -> is_space c = true.
Proof. unfold is_nl. intros H. apply N.eqb_eq in H. now subst. Qed.

Lemma RE_SPACES_at_space : starts_at_space RE_SPACES.
Proof. apply at_least_starts_at_space. auto. Qed.
Lemma RE_BLANK_LINES_at_space : starts_at_space RE_BLANK_LINES.
Proof. apply at_least_starts_at_space. exact is_nl_space. Qed.
Lemma RE_PARAGRAPH_BREAK_at_space : starts_at_space RE_PARAGRAPH_BREAK.
Proof. apply at_least_starts_at_space. exact is_nl_space. Qed.

Lemma proper_RE_SPACES : proper RE_SPACES.
Proof. unfold RE_SPACES. auto with pats. Qed.
Lemma proper_RE_PARAGRAPH_BREAK : proper RE_PARAGRAPH_BREAK.
Proof. unfold RE_PARAGRAPH_BREAK. auto with pats. Qed.

Lemma plain_text_escaped a : forallb plain a = true -> escaped a.
Proof.
  intros H. rewrite <- (app_nil_r a). apply escaped_plain_app; [exact H | constructor].
Qed.


(* ================================================================== *)
(** ** The blocks of the two formatters *)
(* ================================================================== *)

Lemma flushPara_inv st : loop_inv st -> loop_inv (flushPara st).
Proof.
  intros [[blocks [Eo Hb]] Hp]. unfold flushPara.
  destruct (para st) as [|l ls] eqn:E.
  - split; [eauto | now rewrite E].
  - set (text := trim (replace_all RE_SPACES (str " ") (join (str " ") (l :: ls)))).
    assert (Ht : escaped text).
    { apply escaped_trim.
      apply escaped_replace_all;
        [exact proper_RE_SPACES | exact RE_SPACES_at_space
        | now apply plain_text_escaped |].
      apply escaped_join; [now apply plain_text_escaped | exact Hp]. }
    split; [|constructor]. simpl out.
    destruct text as [|c t] eqn:T; simpl is_empty; cbv iota.
    + eauto.
    + exists (blocks ++ [Para (c :: t)]). split.
      * rewrite map_app, Eo. reflexivity.
      * apply Forall_app. split; [exact Hb|].
        constructor; [|constructor]. split; [exact Ht|]. intros _. simpl. split.
        -- discriminate.
        -- rewrite <- T. apply trim_idem.
Qed.

Lemma line_step_inv st raw :
  loop_inv st -> escaped raw -> loop_inv (line_step st raw).
Proof.
  intros Hst Hraw. unfold line_step.
  pose proof (escaped_trim raw Hraw) as Hl.
  pose proof (flushPara_inv st Hst) as Hf.
  destruct (is_empty (trim raw)); [exact Hf|].
  destruct (test_at_start HEADING (trim raw)).
  - destruct Hf as [[blocks [Eo Hb]] Hp]. split; [|exact Hp]. simpl out.
    exists (blocks ++ [Heading (replace_first RE_FINAL_COLON [] (trim raw))]).
    split.
    + rewrite map_app, Eo. reflexivity.
    + apply Forall_app. split; [exact Hb|].
      constructor; [|constructor]. split; simpl.
      * now apply escaped_strip_colon.
      * discriminate.
  - destruct (test_at_start RE_VERBAL_LABEL (trim raw)); [exact Hf|].
    destruct (test WRITTEN_ANCHOR (trim raw)); [exact Hf|].
    destruct Hst as [Ho Hp]. split; [exact Ho|]. simpl para.
    apply Forall_app. split; [exact Hp | repeat constructor; exact Hl].
Qed.

Lemma fold_line_step_inv lines st :
  Forall escaped lines -> loop_inv st -> loop_inv (fold_left line_step lines st).
Proof.
  intros H. revert st. induction H as [|l ls Hl _ IH]; intros st Hst; [exact Hst|].
  simpl. apply IH. now apply line_step_inv.
Qed.

Lemma NOT_PROVIDED_blocks : made_of block_ok NOT_PROVIDED.
Proof.
  exists [Para (str "Not provided.")]. split; [reflexivity|].
  constructor; [|constructor]. split; simpl.
  - now apply plain_text_escaped.
  - intros _. split; [discriminate | reflexivity].
Qed.

Lemma toSectionedHTML_blocks src : made_of block_ok (toSectionedHTML src).
Proof.
  unfold toSectionedHTML. destruct (is_empty src); [exact NOT_PROVIDED_blocks|].
  destruct (flushPara_inv
              (fold_left line_step (split_char 10%N (esc src)) (mkBlocks [] [])))
    as [[blocks [Eo Hb]] _].
  - apply fold_line_step_inv.
    + apply escaped_lines, esc_escaped.
    + split; [exists []; split; [reflexivity | constructor] | constructor].
  - exists blocks. rewrite Eo. auto.
Qed.

Lemma toVerbalHTML_blocks src :
  made_of (fun b => block_ok b /\ is_para b = true) (toVerbalHTML src).
Proof.
  unfold toVerbalHTML. destruct (is_empty src).
  - exists [Para (str "Not provided.")]. split; [reflexivity|].
    constructor; [|constructor]. split; [|reflexivity]. split; simpl.
    + now apply plain_text_escaped.
    + intros _. split; [discriminate | reflexivity].
  - set (s := trim (replace_all RE_BLANK_LINES [10%N; 10%N] (esc src))).
    assert (Hs : escaped s).
    { apply escaped_trim.
      apply escaped_replace_all;
        [exact proper_RE_BLANK_LINES | exact RE_BLANK_LINES_at_space
        | now apply plain_text_escaped | apply esc_escaped]. }
    pose proof (escaped_split_re RE_PARAGRAPH_BREAK proper_RE_PARAGRAPH_BREAK
                  RE_PARAGRAPH_BREAK_at_space s Hs) as Hparts.
    set (parts := filter (fun p => negb (is_empty p))
                    (List.map trim (split_re RE_PARAGRAPH_BREAK s))).
    exists (List.map Para parts). split.
    + rewrite map_map. reflexivity.
    + apply Forall_forall. intros b Hb.
      apply in_map_iff in Hb as [p [<- Hp]].
      apply filter_In in Hp as [Hp Hne].
      apply in_map_iff in Hp as [l [<- Hl]].
      rewrite Forall_forall in Hparts.
      split; [|reflexivity]. split; simpl.
      * apply escaped_trim. now apply Hparts.
      * intros _. split; [|apply trim_idem].
        intros E. rewrite E in Hne. discriminate.
Qed.

(** *** No empty paragraph element *)

Lemma escaped_no_lt t : escaped t -> ~ In 60%N t.
Proof.
  induction 1 as [|c t Hc _ IH|e t He _ IH].
  - auto.
  - intros [->|H]; [discriminate | auto].
  - intros H. apply in_app_or in H as [H|H]; [|auto].
    destruct (entity_cases e He) as [-> | [-> | ->]];
      simpl in H; intuition discriminate.
Qed.

Lemma infixb_after_text w t rest :
  ~ In 60%N t ->
  infixb (60%N :: w) (t ++ rest) = infixb (60%N :: w) rest.
Proof.
  induction t as [|c t IH]; intros H; [reflexivity|].
  simpl app.
  change (infixb (60%N :: w) (c :: t ++ rest)) with
    (((c =? 60)%N && prefixb w (t ++ rest)) || infixb (60%N :: w) (t ++ rest)).
  destruct (N.eqb_spec c 60) as [->|_]; [elim H; now left|].
  simpl. apply IH. intros G. apply H. now right.
Qed.

Lemma render_no_empty_paragraph b rest :
  block_ok b ->
  infixb EMPTY_PARAGRAPH (render b ++ rest) = infixb EMPTY_PARAGRAPH rest.
Proof.
  intros [He Hp]. pose proof (escaped_no_lt _ He) as Hlt.
  change EMPTY_PARAGRAPH with (60 :: 112 :: 62 :: 60 :: 47 :: 112 :: [62])%N.
  destruct b as [t|t]; simpl in He, Hp, Hlt; unfold render.
  - destruct (Hp eq_refl) as [Hne _]. destruct t as [|c t]; [now elim Hne|].
    assert (Hc : (c =? 60)%N = false).
    { apply N.eqb_neq. intros ->. apply Hlt. now left. }
    change (P_OPEN ++ (c :: t) ++ P_CLOSE) with
      (60 :: 112 :: 62 :: c :: t ++ P_CLOSE)%N.
    rewrite <- !app_comm_cons.
    cbn [infixb prefixb N.eqb Pos.eqb andb orb]. rewrite Hc.
    cbn [andb orb]. rewrite <- app_assoc.
    rewrite infixb_after_text by (intros G; apply Hlt; now right).
    reflexivity.
  - rewrite <- !app_assoc.
    transitivity (infixb (60 :: 112 :: 62 :: 60 :: 47 :: 112 :: [62])%N
                    (t ++ H3_CLOSE ++ rest)); [reflexivity|].
    rewrite infixb_after_text by exact Hlt. reflexivity.
Qed.

Lemma blocks_no_empty_paragraph blocks :
  Forall block_ok blocks ->
  infixb EMPTY_PARAGRAPH (join [10%N] (List.map render blocks)) = false.
Proof.
  induction 1 as [|b bs Hb Hbs IH]; [reflexivity|].
  simpl List.map. simpl join. destruct (List.map render bs) as [|r rs] eqn:E.
  - rewrite <- (app_nil_r (render b)).
    now rewrite render_no_empty_paragraph.
  - rewrite render_no_empty_paragraph by exact Hb. exact IH.
Qed.

Lemma made_of_weaken (P Q : block -> Prop) html :
  (forall b, P b -> Q b) -> made_of P html -> made_of Q html.
Proof.
  intros H [blocks [E F]]. exists blocks. split; [exact E|].
  eapply Forall_impl; eauto.
Qed.

Lemma made_of_no_empty_paragraph html :
  made_of block_ok html -> infixb EMPTY_PARAGRAPH html = false.
Proof. intros [blocks [-> H]]. now apply blocks_no_empty_paragraph. Qed.

(** C10: for every input, the output of [toSectionedHTML] and of
    [toVerbalHTML] holds no empty paragraph element: the string [<p></p>]
    does not occur in it, and the text of every [<p>] block emitted is not
    empty and neither starts nor ends with white space. *)
Theorem formatters_emit_no_empty_paragraph (src : jstring) :
  (made_of paragraph_filled (toSectionedHTML src)
   /\ infixb EMPTY_PARAGRAPH (toSectionedHTML src) = false)
  /\ (made_of paragraph_filled (toVerbalHTML src)
      /\ infixb EMPTY_PARAGRAPH (toVerbalHTML src) = false).
Proof.
  assert (W : forall b, block_ok b -> paragraph_filled b).
  { intros b [H Hp]. split; [now apply escaped_escaped_ok | exact Hp]. }
  pose proof (toSectionedHTML_blocks src) as Hs.
  pose proof (made_of_weaken (fun b => block_ok b /\ is_para b = true) block_ok
                (toVerbalHTML src) (fun b H => proj1 H)
                (toVerbalHTML_blocks src)) as Hv.
  repeat split.
  - exact (made_of_weaken block_ok paragraph_filled _ W Hs).
  - now apply made_of_no_empty_paragraph.
  - exact (made_of_weaken block_ok paragraph_filled _ W Hv).
  - now apply made_of_no_empty_paragraph.
Qed.


(* ================================================================== *)
(** ** [splitCombinedBlob] *)
(* ================================================================== *)

(** [find_first] gives the first occurrence. *)
Lemma find_first_sound p s b m a :
  suffix_pat p -> find_first p s = Some (b, m, a) ->
  s = b ++ m ++ a /\ p (m ++ a) = Some a
  /\ forall b1 c b2, b = b1 ++ c :: b2 -> p (c :: b2 ++ m ++ a) = None.
Proof.
  intros Hp. revert b. induction s as [|c t IH]; intros b; simpl.
  - destruct (p []) as [r|] eqn:E; [|discriminate].
    intros [= <- <- <-]. destruct (Hp _ _ E) as [m' F].
    symmetry in F. apply app_eq_nil in F as [-> ->].
    repeat split; auto. intros [|] ? ? ?; discriminate.
  - destruct (p (c :: t)) as [r|] eqn:E.
    + intros [= <- <- <-]. destruct (Hp _ _ E) as [m' F].
      unfold match_length. rewrite F, length_app, Nat.add_sub, firstn_app.
      rewrite Nat.sub_diag, firstn_all, app_nil_r. simpl. rewrite <- F.
      repeat split; auto. intros [|] ? ? ?; discriminate.
    + destruct (find_first p t) as [[[b' m'] a']|] eqn:F; [|discriminate].
      intros [= <- <- <-]. destruct (IH b' eq_refl) as (-> & H2 & H3).
      repeat split; auto. intros [|x b1] y b2 G; simpl in G; injection G as <- ->.
      * exact E.
      * apply (H3 b1 y b2 eq_refl).
Qed.

Lemma find_first_none p s : find_first p s = None -> never p s.
Proof.
  induction s as [|c t IH]; simpl.
  - destruct (p []) eqn:E; [discriminate|]. intros _ a b F.
    symmetry in F. apply app_eq_nil in F as [_ ->]. exact E.
  - destruct (p (c :: t)) eqn:E; [discriminate|].
    destruct (find_first p t) as [[[? ?] ?]|] eqn:F; [discriminate|].
    intros _ [|x a] b G; simpl in G.
    + now subst b.
    + injection G as _ G. exact (IH eq_refl a b G).
Qed.

(** [search] finds the same place. *)
Lemma search_find_first p s :
  search p s = match find_first p s with
               | Some (b, _, _) => Z.of_nat (List.length b)
               | None => (-1)%Z
               end.
Proof.
  induction s as [|c t IH]; simpl.
  - now destruct (p []).
  - destruct (p (c :: t)); [reflexivity|]. rewrite IH.
    destruct (find_first p t) as [[[b m] a]|]; [|reflexivity].
    destruct (Z.ltb_spec (Z.of_nat (List.length b)) 0); simpl List.length; lia.
Qed.

(** Without the [g] flag, [replace] takes out the first occurrence. *)
Lemma replace_first_strip p s : replace_first p [] s = strip_label p s.
Proof.
  unfold strip_label. induction s as [|c t IH]; simpl.
  - now destruct (p []).
  - destruct (p (c :: t)); [reflexivity|]. rewrite IH.
    now destruct (find_first p t) as [[[b m] a]|].
Qed.

Lemma replace_first_match p rep s r :
  p s = Some r -> replace_first p rep s = rep ++ r.
Proof. intros H. destruct s; simpl; now rewrite H. Qed.

Lemma slice_prefix b r :
  slice (b ++ r) 0 (Some (Z.of_nat (List.length b))) = b.
Proof.
  unfold slice, clamp_index. simpl Z.ltb. cbv iota.
  destruct (Z.ltb_spec (Z.of_nat (List.length b)) 0); [lia|].
  rewrite Nat2Z.id, length_app. simpl Z.to_nat. simpl Nat.min. simpl skipn.
  rewrite Nat.sub_0_r, Nat.min_l by lia.
  rewrite firstn_app, Nat.sub_diag, firstn_all. simpl. apply app_nil_r.
Qed.

Lemma slice_suffix b r :
  slice (b ++ r) (Z.of_nat (List.length b)) None = r.
Proof.
  unfold slice, clamp_index.
  destruct (Z.ltb_spec (Z.of_nat (List.length b)) 0); [lia|].
  rewrite Nat2Z.id, length_app, Nat.min_l by lia.
  rewrite skipn_app, Nat.sub_diag, skipn_all. simpl.
  apply firstn_all2. lia.
Qed.

Lemma suffix_VERBAL_ANCHOR : suffix_pat VERBAL_ANCHOR.
Proof. unfold VERBAL_ANCHOR. auto 20 with pats. Qed.

Lemma suffix_WRITTEN_ANCHOR : suffix_pat WRITTEN_ANCHOR.
Proof. unfold WRITTEN_ANCHOR. auto 40 with pats. Qed.

Lemma splitCombinedBlob_refines blob :
  splitCombinedBlob blob = split_trimmed (normalize blob).
Proof.
  unfold splitCombinedBlob, split_trimmed, split_as_stated.
  set (s := normalize blob).
  rewrite !search_find_first.
  destruct (find_first WRITTEN_ANCHOR s) as [[[b m] a]|] eqn:W.
  - destruct (find_first_sound _ _ _ _ _ suffix_WRITTEN_ANCHOR W) as (E & M & _).
    destruct (Z.leb_spec 0 (Z.of_nat (List.length b))); [|lia].
    rewrite E, slice_prefix, slice_suffix. simpl.
    f_equal; [now rewrite replace_first_strip|].
    now rewrite (replace_first_match _ [] _ _ M).
  - simpl Z.leb. cbv iota.
    destruct (find_first VERBAL_ANCHOR s) as [[[b m] a]|] eqn:V.
    + destruct (Z.leb_spec 0 (Z.of_nat (List.length b))); [|lia].
      simpl. rewrite replace_first_strip. unfold strip_label. now rewrite V.
    + simpl. f_equal. symmetry. apply trim_fixed.
      pose proof (normalize_normal blob) as N. apply normal_iff in N. apply N.
Qed.


Lemma find_first_complete p s b m a :
  suffix_pat p -> first_occurrence p s b m a -> find_first p s = Some (b, m, a).
Proof.
  intros Hp (-> & M & F). induction b as [|c b IH].
  - simpl app. destruct (m ++ a) as [|x t] eqn:E; simpl; rewrite M.
    + apply app_eq_nil in E as [-> ->]. reflexivity.
    + rewrite <- E. unfold match_length.
      rewrite length_app, Nat.add_sub, firstn_app, Nat.sub_diag, firstn_all.
      simpl. now rewrite app_nil_r.
  - simpl app. simpl. rewrite (F [] c b eq_refl).
    rewrite IH; [reflexivity|]. intros b1 x b2 ->. apply (F (c :: b1) x b2 eq_refl).
Qed.

Lemma never_find_first p s : suffix_pat p -> never p s -> find_first p s = None.
Proof.
  intros Hp H. destruct (find_first p s) as [[[b m] a]|] eqn:E; [|reflexivity].
  destruct (find_first_sound _ _ _ _ _ Hp E) as (F & M & _).
  now rewrite (H b (m ++ a) F) in M.
Qed.

Lemma stripped_strip_label p s v :
  suffix_pat p -> stripped p s v -> v = strip_label p s.
Proof.
  intros Hp [[H ->] | (b & m & a & H & ->)]; unfold strip_label.
  - now rewrite never_find_first.
  - now rewrite (find_first_complete _ _ _ _ _ Hp H).
Qed.

(** C4 as stated fails: on ["a Written RFD: b"] the text before the anchor
    is ["a "] and the text after it [" b"], and the splitter gives ["a"] and
    ["b"]. *)
Lemma split_trims_both_parts :
  first_occurrence WRITTEN_ANCHOR (normalize (str "a Written RFD: b"))
    (str "a ") (str "Written RFD:") (str " b")
  /\ stripped VERBAL_ANCHOR (str "a ") (str "a ")
  /\ splitCombinedBlob (str "a Written RFD: b") = mkPair (str "a") (str "b")
  /\ mkPair (str "a") (str "b") <> mkPair (str "a ") (str " b").
Proof.
  split; [|split; [|split]].
  - apply (find_first_sound WRITTEN_ANCHOR _ _ _ _ suffix_WRITTEN_ANCHOR).
    vm_compute. reflexivity.
  - left. split; [|reflexivity]. apply find_first_none. vm_compute. reflexivity.
  - vm_compute. reflexivity.
  - vm_compute. discriminate.
Qed.

(** C4, amended: on the normalized text [s] of the blob, if the WRITTEN
    anchor occurs, the text before its first occurrence, with the first
    VERBAL anchor taken out of it and then trimmed, is [verbal], and the
    text after that occurrence of the anchor, trimmed, is [written], whether
    a VERBAL anchor occurs or not; else if the VERBAL anchor occurs, [s]
    with its first occurrence taken out, trimmed, is [verbal] and [written]
    is empty; else [s] is [written] and [verbal] is empty. *)
Theorem splitCombinedBlob_cases (blob : jstring) :
  (forall b m a v,
      first_occurrence WRITTEN_ANCHOR (normalize blob) b m a ->
      stripped VERBAL_ANCHOR b v ->
      splitCombinedBlob blob = mkPair (trim v) (trim a))
  /\ (never WRITTEN_ANCHOR (normalize blob) ->
      forall b m a,
        first_occurrence VERBAL_ANCHOR (normalize blob) b m a ->
        splitCombinedBlob blob = mkPair (trim (b ++ a)) [])
  /\ (never WRITTEN_ANCHOR (normalize blob) ->
      never VERBAL_ANCHOR (normalize blob) ->
      splitCombinedBlob blob = mkPair [] (normalize blob)).
Proof.
  rewrite splitCombinedBlob_refines. unfold split_trimmed, split_as_stated.
  repeat split.
  - intros b m a v W V.
    rewrite (find_first_complete _ _ _ _ _ suffix_WRITTEN_ANCHOR W). simpl.
    now rewrite (stripped_strip_label _ _ _ suffix_VERBAL_ANCHOR V).
  - intros W b m a V.
    rewrite (never_find_first _ _ suffix_WRITTEN_ANCHOR W).
    now rewrite (find_first_complete _ _ _ _ _ suffix_VERBAL_ANCHOR V).
  - intros W V.
    rewrite (never_find_first _ _ suffix_WRITTEN_ANCHOR W).
    rewrite (never_find_first _ _ suffix_VERBAL_ANCHOR V). simpl.
    f_equal. apply trim_fixed.
    pose proof (normalize_normal blob) as N. apply normal_iff in N. apply N.
Qed.

Lemma splitCombinedBlob_cases_witness :
  splitCombinedBlob blob_both = mkPair (trim (str " a ")) (trim (str " b"))
  /\ splitCombinedBlob (str "Verbal RFD: hi") = mkPair (trim ([] ++ str " hi")) []
  /\ splitCombinedBlob (str "no anchor") = mkPair [] (normalize (str "no anchor")).
Proof.
  split; [|split].
  - destruct (splitCombinedBlob_cases blob_both) as [H _].
    apply (H (str "Verbal RFD: a ") (str "Written RFD:") (str " b") (str " a ")).
    + apply (find_first_sound WRITTEN_ANCHOR _ _ _ _ suffix_WRITTEN_ANCHOR).
      vm_compute. reflexivity.
    + right. exists [], (str "Verbal RFD:"), (str " a "). split; [|reflexivity].
      apply (find_first_sound VERBAL_ANCHOR _ _ _ _ suffix_VERBAL_ANCHOR).
      vm_compute. reflexivity.
  - destruct (splitCombinedBlob_cases (str "Verbal RFD: hi")) as (_ & H & _).
    apply (fun W => H W [] (str "Verbal RFD:") (str " hi")).
    + apply find_first_none. vm_compute. reflexivity.
    + apply (find_first_sound VERBAL_ANCHOR _ _ _ _ suffix_VERBAL_ANCHOR).
      vm_compute. reflexivity.
  - destruct (splitCombinedBlob_cases (str "no anchor")) as (_ & _ & H).
    apply H; apply find_first_none; vm_compute; reflexivity.
Defined.

(* ================================================================== *)
(** ** [pickRfds]: where each section comes from *)
(* ================================================================== *)

Lemma coalesce_nullish v b : nullish v = true -> (Ok v ?? b) = b.
Proof. destruct v; simpl; try discriminate; reflexivity. Qed.

Lemma final_string w : ToString (or_else (VString w) (VString [])) = w.
Proof. now destruct w. Qed.

Lemma nonblank_nonempty (w : jstring) : trim w <> [] -> w <> [].
Proof. intros H ->. now apply H. Qed.

Lemma not_or_blank_string w :
  not_or_blank (VString w) = Ok (is_empty (trim w)).
Proof.
  rewrite not_or_blank_spec. destruct w as [|c w]; [reflexivity|]. reflexivity.
Qed.

Lemma after_flowNotes_nonblank j w :
  trim w <> [] -> after_flowNotes j (VString w) = Ok (VString w).
Proof.
  intros H. unfold after_flowNotes. rewrite not_or_blank_string.
  destruct (trim w); [now elim H | reflexivity].
Qed.

(** The three steps of [pickRfds] after the lookups. *)
Lemma pickRfds_steps json e :
  explicit json = Ok e ->
  pickRfds json
  = (vw <- after_split e ;;
     wr <- after_flowNotes (ex_j e) (snd vw) ;;
     Ok (mkPair (normalize (ToString (or_else (fst vw) (VString []))))
                (normalize (ToString (or_else wr (VString [])))))).
Proof. intros H. unfold pickRfds. now rewrite H. Qed.

Lemma after_split_steps e c :
  combined e = Ok (VString c) ->
  after_split e
  = (b <- not_or_blank (ex_verbal e) ;;
     if b && negb (is_empty c) then
       Ok (if negb (truthy (ex_verbal e))
           then VString (verbal (splitCombinedBlob c)) else ex_verbal e,
           if negb (truthy (ex_written e))
           then VString (written (splitCombinedBlob c)) else ex_written e)
     else Ok (ex_verbal e, ex_written e)).
Proof.
  intros H. unfold after_split, wants_split. rewrite H. simpl bind.
  destruct (not_or_blank (ex_verbal e)) as [b|]; [|reflexivity]. simpl bind.
  destruct c, b; reflexivity.
Qed.

Lemma explicit_combined json e :
  explicit json = Ok e -> exists c, combined e = Ok (VString c).
Proof.
  intros He. destruct (explicit_ok json) as (e' & He' & _ & Hj & Ha & _).
  assert (e' = e) by congruence. subst e'. now apply combined_ok.
Qed.

Lemma blank_no_trim v : blank_value v = true -> no_trim v = false.
Proof.
  unfold blank_value, no_trim. destruct (truthy v); [|reflexivity].
  destruct v; simpl; try discriminate; reflexivity.
Qed.

Lemma after_split_blank e c :
  combined e = Ok (VString c) -> blank_value (ex_verbal e) = true ->
  after_split e
  = (if is_empty c then Ok (ex_verbal e, ex_written e)
     else Ok (if truthy (ex_verbal e) then ex_verbal e
              else VString (verbal (splitCombinedBlob c)),
              if truthy (ex_written e) then ex_written e
              else VString (written (splitCombinedBlob c)))).
Proof.
  intros Hc Hb. rewrite (after_split_steps e c Hc), not_or_blank_throws.
  rewrite (blank_no_trim _ Hb), Hb. cbn [bind andb].
  destruct (is_empty c); cbn [negb]; [reflexivity|].
  now destruct (truthy (ex_verbal e)), (truthy (ex_written e)).
Qed.

(** C2, amended: the aliases of the two sections are read first, and there
    is always a combined blob, a string, possibly empty.  The blob is split
    exactly when the verbal value found is falsy or a string of white space
    only and the blob is not empty, whatever the written value is: then
    [verbal] takes the verbal part of the split if it was falsy, and
    [written] takes the written part of the split if it was falsy.  When the
    verbal value is a string with something else than white space, or the
    blob is empty, the blob is not used and both values stay as found.  A
    written value that is truthy is never replaced by the split.  So with a
    falsy verbal value and a blob that is not empty, [pickRfds] returns as
    verbal section the verbal part of the split, normalized, also when a
    written value was found (unless that value makes it throw). *)
Theorem fallback_only_when_verbal_blank (json : value) (e : Explicit) :
  explicit json = Ok e ->
  exists c,
    combined e = Ok (VString c)
    /\ (blank_value (ex_verbal e) = true -> c <> [] ->
        after_split e
        = Ok (if truthy (ex_verbal e) then ex_verbal e
              else VString (verbal (splitCombinedBlob c)),
              if truthy (ex_written e) then ex_written e
              else VString (written (splitCombinedBlob c))))
    /\ (forall v, ex_verbal e = VString v -> trim v <> [] ->
        after_split e = Ok (ex_verbal e, ex_written e))
    /\ (blank_value (ex_verbal e) = true -> c = [] ->
        after_split e = Ok (ex_verbal e, ex_written e))
    /\ (forall vw, after_split e = Ok vw -> truthy (ex_written e) = true ->
        snd vw = ex_written e)
    /\ (truthy (ex_verbal e) = false -> c <> [] ->
        no_trim (ex_written e) = false ->
        exists w, pickRfds json
                  = Ok (mkPair (normalize (verbal (splitCombinedBlob c))) w)).
Proof.
  intros He. destruct (explicit_ok json) as (e' & He' & _ & Hj & _).
  assert (e' = e) by congruence. subst e'.
  destruct (explicit_combined json e He) as [c Hc]. exists c.
  split; [exact Hc|]. split; [|split; [|split; [|split]]].
  - intros Hb Hne. rewrite (after_split_blank e c Hc Hb).
    destruct c; [now elim Hne | reflexivity].
  - intros v Hv Ht. rewrite (after_split_steps e c Hc), Hv, not_or_blank_string.
    destruct (trim v); [now elim Ht | reflexivity].
  - intros Hb ->. now rewrite (after_split_blank e [] Hc Hb).
  - intros vw Hs Hw. rewrite (after_split_steps e c Hc) in Hs.
    destruct (not_or_blank (ex_verbal e)) as [b|]; [|discriminate].
    cbn [bind] in Hs. rewrite Hw in Hs.
    destruct (b && negb (is_empty c)); injection Hs as <-; reflexivity.
  - intros Hv Hne Hw.
    assert (Hb : blank_value (ex_verbal e) = true)
      by (unfold blank_value; now rewrite Hv).
    rewrite (pickRfds_steps json e He), (after_split_blank e c Hc Hb), Hv.
    destruct c as [|x c]; [now elim Hne|]. cbn [is_empty bind fst snd].
    set (w := if truthy (ex_written e) then ex_written e else _).
    assert (Nw : no_trim w = false)
      by (subst w; destruct (truthy (ex_written e));
          [exact Hw | apply andb_false_r]).
    destruct (after_flowNotes_result (ex_j e) w Hj) as [[N _]|[_ [r ->]]];
      [congruence|].
    cbn [bind]. rewrite final_string. eauto.
Qed.

Lemma fallback_only_when_verbal_blank_witness :
  after_split explicit_written_and_rfd
  = Ok (VString (verbal (splitCombinedBlob (str "Verbal RFD: hello"))),
        VString (str "X"))
  /\ exists w, pickRfds payload_written_and_rfd
               = Ok (mkPair (normalize (verbal (splitCombinedBlob
                                                  (str "Verbal RFD: hello")))) w).
Proof.
  destruct (fallback_only_when_verbal_blank payload_written_and_rfd
              explicit_written_and_rfd)
    as (c & Hc & H1 & _ & _ & _ & H5); [vm_compute; reflexivity|].
  assert (E : combined explicit_written_and_rfd
              = Ok (VString (str "Verbal RFD: hello")))
    by (vm_compute; reflexivity).
  rewrite E in Hc. injection Hc as <-. split.
  - apply H1; [reflexivity | discriminate].
  - apply H5; [reflexivity | discriminate | reflexivity].
Defined.

(** A string with something else than white space in it, found under an
    alias of the written section, is the written section returned, once
    normalized: the split of a combined blob never replaces it, even when
    the blob that is split to fill [verbal] is that very string, and the
    flow notes are not looked at. *)
Theorem pickRfds_keeps_written_alias (json : value) (e : Explicit)
    (w : jstring) (r : SectionPair) :
  explicit json = Ok e ->
  ex_written e = VString w ->
  trim w <> [] ->
  pickRfds json = Ok r ->
  written r = normalize w.
Proof.
  intros He Hw Ht Hr. destruct (explicit_combined json e He) as [c Hc].
  rewrite (pickRfds_steps json e He), (after_split_steps e c Hc) in Hr.
  destruct (not_or_blank (ex_verbal e)) as [b|]; [|discriminate].
  simpl bind in Hr.
  assert (T : truthy (ex_written e) = true).
  { rewrite Hw. pose proof (nonblank_nonempty w Ht). now destruct w. }
  destruct (b && negb (is_empty c)); simpl bind in Hr; simpl snd in Hr;
    rewrite ?T in Hr; simpl negb in Hr; cbv iota in Hr;
    rewrite Hw, (after_flowNotes_nonblank _ w Ht) in Hr; simpl bind in Hr;
    injection Hr as <-; simpl; now rewrite final_string.
Qed.

Lemma pickRfds_keeps_written_alias_witness :
  written (mkPair (str "v") (str "Verbal RFD: v Written RFD: w"))
  = normalize (str "Verbal RFD: v Written RFD: w").
Proof.
  apply (pickRfds_keeps_written_alias
           (obj1 "writtenRfd" (VString (str "Verbal RFD: v Written RFD: w")))
           (mkExplicit
              (obj1 "writtenRfd" (VString (str "Verbal RFD: v Written RFD: w")))
              (VObject []) (VString [])
              (VString (str "Verbal RFD: v Written RFD: w")))
           (str "Verbal RFD: v Written RFD: w")).
  - vm_compute. reflexivity.
  - reflexivity.
  - vm_compute. discriminate.
  - vm_compute. reflexivity.
Defined.

(** A string with something else than white space in it, found under an
    alias of the verbal section, is the verbal section returned, once
    normalized, whatever the combined blob holds. *)
Theorem pickRfds_keeps_verbal_alias (json : value) (e : Explicit)
    (v : jstring) (r : SectionPair) :
  explicit json = Ok e ->
  ex_verbal e = VString v ->
  trim v <> [] ->
  pickRfds json = Ok r ->
  verbal r = normalize v.
Proof.
  intros He Hv Ht Hr. destruct (explicit_combined json e He) as [c Hc].
  rewrite (pickRfds_steps json e He), (after_split_steps e c Hc) in Hr.
  rewrite Hv, not_or_blank_string in Hr. simpl bind in Hr.
  destruct (trim v) eqn:T; [now elim Ht|]. simpl in Hr.
  destruct (after_flowNotes (ex_j e) (ex_written e)); [|discriminate].
  simpl in Hr. injection Hr as <-. simpl. now destruct v.
Qed.

Lemma pickRfds_keeps_verbal_alias_witness :
  verbal (mkPair (str "hi") []) = normalize (str "hi").
Proof.
  apply (pickRfds_keeps_verbal_alias payload_verbal_and_rfd
           (mkExplicit payload_verbal_and_rfd (VObject [])
              (VString (str "hi")) (VString []))
           (str "hi")).
  - vm_compute. reflexivity.
  - reflexivity.
  - vm_compute. discriminate.
  - vm_compute. reflexivity.
Defined.

(** *** White space only *)

Lemma replace_all_forallb p rep (Q : char -> bool) s :
  proper p -> forallb Q rep = true -> forallb Q s = true ->
  forallb Q (replace_all p rep s) = true.
Proof.
  intros Hp Hrep Hs. apply forallb_forall. intros x Hx.
  apply (replace_all_In p rep Hp) in Hx as [Hx|Hx]; revert x Hx;
    now apply forallb_forall.
Qed.

Lemma normalize_blank s : forallb is_space s = true -> normalize s = [].
Proof.
  intros H. unfold normalize. apply trim_all_space.
  repeat (apply replace_all_forallb; auto with pats).
Qed.

(** A verbal value that is not empty and holds white space only is neither
    used nor filled: the combined blob is split, but [verbal] is truthy and
    keeps its value, and the verbal section returned is empty. *)
Theorem pickRfds_blank_verbal_stays_empty (json : value) (e : Explicit)
    (c : char) (v : jstring) (r : SectionPair) :
  explicit json = Ok e ->
  ex_verbal e = VString (c :: v) ->
  trim (c :: v) = [] ->
  pickRfds json = Ok r ->
  verbal r = [].
Proof.
  intros He Hv Ht Hr. destruct (explicit_combined json e He) as [b Hc].
  rewrite (pickRfds_steps json e He), (after_split_steps e b Hc) in Hr.
  rewrite Hv, not_or_blank_string, Ht in Hr. cbn [bind is_empty andb] in Hr.
  assert (N : normalize (c :: v) = [])
    by (apply normalize_blank; now apply trim_nil_inv).
  destruct (negb (is_empty b)); cbn [bind fst snd truthy negb] in Hr;
    match type of Hr with
    | context [after_flowNotes ?j ?w] => destruct (after_flowNotes j w)
    end; try discriminate; cbn [bind] in Hr; injection Hr as <-;
    exact N.
Qed.

Lemma pickRfds_blank_verbal_stays_empty_witness :
  verbal (mkPair [] (str "w")) = [].
Proof.
  apply (pickRfds_blank_verbal_stays_empty
           (VObject [(str "verbalRfd", VString (str " "));
                     (str "rfd", VString (str "v Written RFD: w"))])
           (mkExplicit
              (VObject [(str "verbalRfd", VString (str " "));
                        (str "rfd", VString (str "v Written RFD: w"))])
              (VObject []) (VString (str " ")) (VString []))
           32%N []);
    vm_compute; reflexivity.
Defined.

Lemma split_written_trimmed c :
  trim (written (splitCombinedBlob c)) = written (splitCombinedBlob c).
Proof. rewrite splitCombinedBlob_refines. simpl. apply trim_idem. Qed.

Lemma split_verbal_trimmed c :
  trim (verbal (splitCombinedBlob c)) = verbal (splitCombinedBlob c).
Proof. rewrite splitCombinedBlob_refines. simpl. apply trim_idem. Qed.

(** When the verbal value found is falsy and there is a combined blob, the
    verbal section returned is the verbal part of the split of the blob,
    normalized once more; when the written value found is falsy too and the
    written part of the split is not empty, the written section returned is
    that part, normalized once more. *)
Theorem pickRfds_fills_from_blob (json : value) (e : Explicit)
    (c : jstring) (r : SectionPair) :
  explicit json = Ok e ->
  truthy (ex_verbal e) = false ->
  combined e = Ok (VString c) ->
  c <> [] ->
  pickRfds json = Ok r ->
  verbal r = normalize (verbal (splitCombinedBlob c))
  /\ (truthy (ex_written e) = false ->
      written (splitCombinedBlob c) <> [] ->
      written r = normalize (written (splitCombinedBlob c))).
Proof.
  intros He Hv Hc Hne Hr.
  rewrite (pickRfds_steps json e He), (after_split_steps e c Hc) in Hr.
  rewrite not_or_blank_throws in Hr. unfold no_trim, blank_value in Hr.
  rewrite Hv in Hr. cbn [andb negb orb bind] in Hr.
  destruct c as [|x c]; [now elim Hne|].
  cbn [is_empty negb andb fst snd bind] in Hr.
  match type of Hr with
  | context [after_flowNotes ?j ?w] =>
      destruct (after_flowNotes j w) as [wr|] eqn:F
  end; [|discriminate].
  cbn [bind] in Hr. injection Hr as <-. cbn [verbal written]. split.
  - now rewrite final_string.
  - intros Hw Hs. rewrite Hw in F. cbn [negb] in F.
    rewrite after_flowNotes_nonblank in F
      by (rewrite split_written_trimmed; exact Hs).
    injection F as <-. now rewrite final_string.
Qed.

Lemma pickRfds_fills_from_blob_witness :
  verbal (mkPair (str "Some summary text.") (str "Aff Constructive: detail."))
  = normalize (verbal (splitCombinedBlob
      (str "Some summary text. Written RFD: Aff Constructive: detail.")))
  /\ (truthy (VString []) = false ->
      written (splitCombinedBlob
        (str "Some summary text. Written RFD: Aff Constructive: detail.")) <> [] ->
      written (mkPair (str "Some summary text.") (str "Aff Constructive: detail."))
      = normalize (written (splitCombinedBlob
          (str "Some summary text. Written RFD: Aff Constructive: detail.")))).
Proof.
  apply (pickRfds_fills_from_blob payload_rfd
           (mkExplicit payload_rfd (VObject []) (VString []) (VString []))
           (str "Some summary text. Written RFD: Aff Constructive: detail.")).
  - vm_compute. reflexivity.
  - reflexivity.
  - vm_compute. reflexivity.
  - vm_compute. discriminate.
  - vm_compute. reflexivity.
Defined.

(** *** Payloads without the fields *)

Lemma get_empty k : get (VObject []) k = Ok VUndefined.
Proof. reflexivity. Qed.

Lemma nullish_string_and v : nullish v = true -> string_and v = VBool false.
Proof. destruct v; simpl; try discriminate; reflexivity. Qed.

Lemma nullish_not_string v : nullish v = true -> typeof_string v = false.
Proof. destruct v; simpl; try discriminate; reflexivity. Qed.

Lemma get_without_field json k :
  (forall fields, json = VObject fields -> nullish (lookup k fields) = true) ->
  exists v, get (or_else json (VObject [])) k = Ok v /\ nullish v = true.
Proof.
  intros H. unfold or_else.
  destruct json as [| |[]|n|[|c s]|xs|fields]; simpl; eauto.
  destruct (number_truthy n); simpl; eauto.
Qed.

(** A payload that is not an object, or an object in which each of the nine
    properties that [pickRfds] reads is missing or [null], gives two empty
    sections and no exception. *)
Theorem pickRfds_without_fields (json : value) :
  (forall fields k, json = VObject fields -> In k KEYS ->
                    nullish (lookup k fields) = true) ->
  pickRfds json = Ok (mkPair [] []).
Proof.
  intros H.
  assert (G : forall k, In k KEYS ->
            exists v, get (or_else json (VObject [])) k = Ok v
                      /\ nullish v = true).
  { intros k Hk. apply get_without_field. intros fields E. now apply (H fields). }
  unfold pickRfds, explicit. set (j := or_else json (VObject [])) in *.
  destruct (G (str "judgeAnalysis")) as (v1 & E1 & N1); [simpl; tauto|].
  destruct (G (str "judge_feedback")) as (v2 & E2 & N2); [simpl; tauto|].
  destruct (G (str "feedback")) as (v3 & E3 & N3); [simpl; tauto|].
  destruct (G (str "verbalRfd")) as (v4 & E4 & N4); [simpl; tauto|].
  destruct (G (str "verbal_rfd")) as (v5 & E5 & N5); [simpl; tauto|].
  destruct (G (str "writtenRfd")) as (v6 & E6 & N6); [simpl; tauto|].
  destruct (G (str "written_rfd")) as (v7 & E7 & N7); [simpl; tauto|].
  destruct (G (str "rfd")) as (v8 & E8 & N8); [simpl; tauto|].
  destruct (G (str "flowNotes")) as (v9 & E9 & N9); [simpl; tauto|].
  rewrite E1, E2, E3, !coalesce_nullish by assumption. cbn [bind].
  rewrite !get_empty, E4, E5, E6, E7.
  rewrite !coalesce_nullish by (assumption || reflexivity). cbn [bind].
  unfold after_split, combined. cbn [ex_j ex_ja ex_verbal ex_written].
  rewrite get_empty, E8. cbn [bind].
  rewrite (nullish_string_and v8 N8).
  change (or_else (string_and VUndefined)
            (or_else (anchored (VString [])) (or_else (VBool false) (VString []))))
    with (VString []).
  change (wants_split (VString []) (VString [])) with (Ok false).
  cbn [bind snd fst]. unfold after_flowNotes.
  change (not_or_blank (VString [])) with (Ok true). cbn [bind].
  rewrite E9. cbn [bind]. rewrite (nullish_not_string v9 N9). cbn [bind].
  reflexivity.
Qed.

Lemma pickRfds_without_fields_witness :
  pickRfds (VArray [five]) = Ok (mkPair [] []).
Proof.
  apply (pickRfds_without_fields (VArray [five])).
  intros fields k E. discriminate E.
Defined.

(* ================================================================== *)
(** ** The results page *)
(* ================================================================== *)

(** On a text that starts with something else than white space the verbal
    formatter opens a paragraph with a character that is not white space. *)
Lemma esc_head c t :
  is_space c = false ->
  exists h u, is_space h = false /\ esc (c :: t) = h :: u.
Proof.
  intros Hc. rewrite esc_cons, esc_one.
  destruct (c =? 38)%N; [exists 38%N; eexists; split; reflexivity|].
  destruct (c =? 60)%N; [exists 38%N; eexists; split; reflexivity|].
  destruct (c =? 62)%N; [exists 38%N; eexists; split; reflexivity|].
  exists c. eexists. split; [exact Hc | reflexivity].
Qed.

Lemma toVerbalHTML_opens c t :
  is_space c = false ->
  exists h rest, is_space h = false
                 /\ toVerbalHTML (c :: t) = P_OPEN ++ h :: rest.
Proof.
  intros Hc. destruct (esc_head c t Hc) as (h & u & Hh & E).
  unfold toVerbalHTML. cbn [is_empty]. rewrite E.
  rewrite replace_all_skip by (now apply RE_BLANK_LINES_at_space).
  unfold trim, trim_start. rewrite drop_while_stop by exact Hh.
  rewrite trim_end_keep by exact Hh.
  rewrite split_re_skip by (now apply RE_PARAGRAPH_BREAK_at_space).
  destruct (split_re RE_PARAGRAPH_BREAK _) as [|l ls]; cbn [cons_head List.map];
    rewrite drop_while_stop by exact Hh; rewrite trim_end_keep by exact Hh;
    cbn [filter is_empty negb List.map].
  - exists h. eexists. split; [exact Hh | reflexivity].
  - destruct (List.map _ (filter _ _)); cbn [join];
      exists h; eexists; (split; [exact Hh | reflexivity]).
Qed.

(** For every payload on which [ResultsPage] does not throw: [hasAnything]
    is false exactly when both sections are empty, and then both fragments
    are [<p>Not provided.</p>]; when the verbal section is not empty, the
    verbal fragment opens a paragraph with a character that is not white
    space, because the section is trimmed. *)
Theorem ResultsPage_fragments (json : value) (p : Page) :
  ResultsPage json = Ok p ->
  (hasAnything p = false <-> sections p = mkPair [] [])
  /\ (hasAnything p = false ->
      verbalHTML p = NOT_PROVIDED /\ writtenHTML p = NOT_PROVIDED)
  /\ (verbal (sections p) <> [] ->
      exists h rest, is_space h = false /\ verbalHTML p = P_OPEN ++ h :: rest).
Proof.
  unfold ResultsPage. destruct (Ok json ?? Ok (VObject [])) as [j|]; [|discriminate].
  cbn [bind]. destruct (pickRfds j) as [r|] eqn:R; [|discriminate].
  cbn [bind]. intros [= <-]. cbn [sections hasAnything verbalHTML writtenHTML].
  destruct (pickRfds_inv j r R) as (v & w & ->). cbn [verbal written].
  repeat split.
  - intros H. apply orb_false_iff in H as [H1 H2].
    destruct (normalize v); [|discriminate]. now destruct (normalize w).
  - intros [= -> ->]. reflexivity.
  - apply orb_false_iff in H as [H1 _]. now destruct (normalize v).
  - apply orb_false_iff in H as [_ H2]. now destruct (normalize w).
  - intros H. destruct (normalize v) as [|c t] eqn:N; [now elim H|].
    apply toVerbalHTML_opens.
    pose proof (normalize_normal v) as K. apply normal_iff in K.
    destruct K as (_ & _ & _ & _ & K). rewrite N in K.
    unfold untrimmed in K. now apply orb_false_iff in K as [K _].
Qed.

Lemma ResultsPage_fragments_witness :
  (true = false <-> mkPair (str "hi") [] = mkPair [] [])
  /\ (true = false ->
      str "<p>hi</p>" = NOT_PROVIDED /\ NOT_PROVIDED = NOT_PROVIDED)
  /\ (str "hi" <> [] ->
      exists h rest, is_space h = false /\ str "<p>hi</p>" = P_OPEN ++ h :: rest).
Proof.
  apply (ResultsPage_fragments payload_verbal_and_rfd
           (mkPage (mkPair (str "hi") []) true (str "<p>hi</p>") NOT_PROVIDED)).
  vm_compute. reflexivity.
Defined.

(* ================================================================== *)
(** ** [esc] loses nothing *)
(* ================================================================== *)

Lemma esc_one_length c : 1 <= List.length (esc [c]).
Proof.
  rewrite esc_one.
  destruct (c =? 38)%N; [simpl; lia|]. destruct (c =? 60)%N; [simpl; lia|].
  destruct (c =? 62)%N; simpl; lia.
Qed.

Lemma esc_length s : List.length s <= List.length (esc s).
Proof.
  induction s as [|c s IH]; [simpl; lia|].
  rewrite esc_cons, length_app. pose proof (esc_one_length c). simpl. lia.
Qed.

Lemma esc_plain s : forallb plain s = true -> esc s = s.
Proof.
  induction s as [|c s IH]; [reflexivity|]. simpl. intros H.
  apply andb_true_iff in H as [Hc Hs]. rewrite esc_cons, esc_one, (IH Hs).
  unfold plain in Hc. apply negb_true_iff in Hc.
  apply orb_false_iff in Hc as [Hc H62]. apply orb_false_iff in Hc as [H38 H60].
  now rewrite H38, H60, H62.
Qed.

(** Escaping leaves a text as it is exactly when the text holds none of
    [&], [<], [>], and it never makes a text shorter. *)
Theorem esc_fixed_iff_plain (s : jstring) :
  (esc s = s <-> forallb plain s = true)
  /\ List.length s <= List.length (esc s).
Proof.
  split; [|apply esc_length]. split; [|apply esc_plain].
  induction s as [|c s IH]; [reflexivity|]. rewrite esc_cons, esc_one.
  intros H. simpl. unfold plain at 1.
  destruct (N.eqb_spec c 38) as [->|H38].
  { exfalso. injection H as H. pose proof (esc_length s) as L.
    apply (f_equal (@List.length N)) in H. simpl in H. lia. }
  destruct (N.eqb_spec c 60) as [->|H60]; [discriminate|].
  destruct (N.eqb_spec c 62) as [->|H62]; [discriminate|].
  simpl. apply IH. now injection H.
Qed.

(** Two different texts have different escaped forms. *)
Theorem esc_injective (a b : jstring) : esc a = esc b -> a = b.
Proof.
  revert b. induction a as [|c a IH]; intros [|d b].
  - reflexivity.
  - rewrite (esc_cons d b). intros H. pose proof (esc_one_length d) as L.
    destruct (esc [d]); [simpl in L; lia | discriminate].
  - rewrite (esc_cons c a). intros H. pose proof (esc_one_length c) as L.
    destruct (esc [c]); [simpl in L; lia | discriminate].
  - rewrite (esc_cons c a), (esc_cons d b), !esc_one.
    destruct (N.eqb_spec c 38) as [->|C1];
      [|destruct (N.eqb_spec c 60) as [->|C2];
        [|destruct (N.eqb_spec c 62) as [->|C3]]];
      (destruct (N.eqb_spec d 38) as [->|D1];
       [|destruct (N.eqb_spec d 60) as [->|D2];
         [|destruct (N.eqb_spec d 62) as [->|D3]]]);
      simpl; intros H; injection H; intros; subst;
      try congruence; f_equal; auto.
Qed.

Lemma esc_injective_witness : str "a<b" = str "a<b".
Proof. apply (esc_injective (str "a<b") (str "a<b")). reflexivity. Defined.

(* ================================================================== *)
(** ** The download *)
(* ================================================================== *)

Lemma replace_colon_dot iso :
  replace_all RE_COLON_DOT (str "-") iso
  = List.map (fun c => if is_colon_or_dot c then 45%N else c) iso.
Proof.
  induction iso as [|c t IH]; [reflexivity|]. simpl List.map.
  destruct (is_colon_or_dot c) eqn:E.
  - pose proof (replace_all_match RE_COLON_DOT (str "-") c [] t) as M.
    simpl app in M. rewrite M.
    + now rewrite IH.
    + unfold RE_COLON_DOT, p_class. now rewrite E.
  - rewrite replace_all_skip; [now rewrite IH|].
    unfold RE_COLON_DOT, p_class. now rewrite E.
Qed.

(** Whatever the time stamp, the name of the downloaded file holds no colon
    and its only dot is the one of [.txt]; the text downloaded is never
    empty. *)
Theorem download_name_safe (iso : jstring) (r : SectionPair) :
  ~ In 58%N (download_name iso)
  /\ (exists stem, download_name iso = stem ++ str ".txt" /\ ~ In 46%N stem
                   /\ List.length stem = 9 + List.length iso)
  /\ download_text r <> [].
Proof.
  unfold download_name. rewrite replace_colon_dot.
  assert (A : forall x, (x = 58 \/ x = 46)%N ->
              ~ In x (List.map (fun c => if is_colon_or_dot c then 45%N else c) iso)).
  { intros x Hx H. apply in_map_iff in H as (c & E & _).
    destruct (is_colon_or_dot c) eqn:F.
    - destruct Hx; subst; discriminate.
    - subst x. unfold is_colon_or_dot in F. apply orb_false_iff in F as [F1 F2].
      apply N.eqb_neq in F1, F2. tauto. }
  repeat split.
  - intros H. apply in_app_or in H as [H|H].
    + simpl in H. intuition discriminate.
    + apply in_app_or in H as [H|H]; [now apply (A 58%N); auto|].
      simpl in H. intuition discriminate.
  - eexists. split; [now rewrite app_assoc|]. split.
    + intros H. apply in_app_or in H as [H|H].
      * simpl in H. intuition discriminate.
      * now apply (A 46%N); auto.
    + rewrite length_app, length_map. reflexivity.
  - unfold download_text.
    destruct (written r); [|discriminate]. destruct (verbal r); discriminate.
Qed.

(* ================================================================== *)
(** ** [normalize] and [splitCombinedBlob] only delete *)
(* ================================================================== *)

Lemma subseq_refl l : subseq l l.
Proof. induction l; [apply subseq_nil | now apply subseq_take]. Qed.

Lemma subseq_trans a b c : subseq a b -> subseq b c -> subseq a c.
Proof.
  intros Hab Hbc. revert a Hab.
  induction Hbc as [l|b x l _ IH|b x l _ IH]; intros a Hab.
  - inversion Hab. apply subseq_nil.
  - apply subseq_skip. auto.
  - inversion Hab; subst.
    + apply subseq_nil.
    + apply subseq_skip. auto.
    + apply subseq_take. auto.
Qed.

Lemma subseq_app a a' b b' : subseq a a' -> subseq b b' -> subseq (a ++ b) (a' ++ b').
Proof.
  intros Ha Hb. induction Ha as [l|a x l _ IH|a x l _ IH]; simpl.
  - induction l; simpl; [exact Hb | now apply subseq_skip].
  - now apply subseq_skip.
  - now apply subseq_take.
Qed.

Lemma subseq_middle a b c : subseq b (a ++ b ++ c).
Proof.
  rewrite <- (app_nil_l b) at 1. apply subseq_app; [apply subseq_nil|].
  rewrite <- (app_nil_r b) at 1.
  apply subseq_app; [apply subseq_refl | apply subseq_nil].
Qed.

Lemma subseq_drop_middle a m c : subseq (a ++ c) (a ++ m ++ c).
Proof.
  apply subseq_app; [apply subseq_refl|].
  rewrite <- (app_nil_l c) at 1.
  apply subseq_app; [apply subseq_nil | apply subseq_refl].
Qed.

Lemma subseq_length a l : subseq a l -> List.length a <= List.length l.
Proof. induction 1; simpl; lia. Qed.

Lemma subseq_In a l x : subseq a l -> In x a -> In x l.
Proof.
  induction 1 as [l|a c l _ IH|a c l _ IH]; simpl; intros H.
  - destruct H.
  - auto.
  - destruct H; auto.
Qed.

Lemma subseq_one x l : In x l -> subseq [x] l.
Proof.
  induction l as [|c l IH]; simpl; intros H; [destruct H|].
  destruct (N.eq_dec c x) as [->|N].
  - apply subseq_take, subseq_nil.
  - apply subseq_skip. apply IH. destruct H; congruence.
Qed.

Lemma trim_subseq s : subseq (trim s) s.
Proof.
  destruct (trim_infix s) as (a & b & E & _). rewrite E at 2. apply subseq_middle.
Qed.

(** A replacement whose text is made of characters of each match, in order,
    only deletes. *)
Lemma replace_all_subseq p rep :
  proper p ->
  (forall c m r, p ((c :: m) ++ r) = Some r -> subseq rep (c :: m)) ->
  forall s, subseq (replace_all p rep s) s.
Proof.
  intros Hp Hrep s. induction s as [s IH] using list_length_ind.
  destruct (replace_all_cases p rep s Hp)
    as [[-> ->] | [(c & t & -> & _ & ->) | (c & m & r & -> & E & ->)]].
  - apply subseq_nil.
  - apply subseq_take. apply IH. simpl. lia.
  - apply subseq_app; [now apply (Hrep c m r)|].
    apply IH. rewrite length_app. simpl. lia.
Qed.

Lemma RE_TRAILING_match c m r :
  RE_TRAILING ((c :: m) ++ r) = Some r -> In 10%N (c :: m).
Proof.
  rewrite RE_TRAILING_eq. cbn [app]. destruct (is_blank c); [|discriminate].
  destruct (drop_while_suffix is_blank (m ++ r)) as (m2 & E & _).
  destruct (drop_while is_blank (m ++ r)) as [|d r'] eqn:D; [discriminate|].
  destruct (N.eqb_spec d 10) as [->|]; [|discriminate]. intros [= <-].
  change (10%N :: r') with ([10%N] ++ r') in E. rewrite app_assoc in E.
  apply app_inv_tail in E. subst m. right. apply in_or_app. right. now left.
Qed.

Lemma RE_BLANK_LINES_match c m r :
  RE_BLANK_LINES ((c :: m) ++ r) = Some r -> subseq [10%N; 10%N] (c :: m).
Proof.
  rewrite RE_BLANK_LINES_eq.
  destruct (drop_while_suffix is_nl ((c :: m) ++ r)) as (m2 & F & A).
  revert F. generalize (drop_while is_nl ((c :: m) ++ r)). intros d F.
  destruct (3 <=? _) eqn:L; [|discriminate]. intros E. injection E as ->.
  apply Nat.leb_le in L. rewrite length_app, Nat.add_sub in L.
  apply app_inv_tail in F. subst m2.
  destruct m as [|d m]; [simpl in L; lia|].
  simpl in A. unfold is_nl in A at 1 2.
  destruct (N.eqb_spec c 10) as [->|]; [|discriminate].
  destruct (N.eqb_spec d 10) as [->|]; [|discriminate].
  apply subseq_take, subseq_take, subseq_nil.
Qed.

Lemma normalize_subseq s : subseq (normalize s) s.
Proof.
  unfold normalize.
  eapply subseq_trans; [apply trim_subseq|].
  eapply subseq_trans;
    [apply (replace_all_subseq RE_BLANK_LINES _ proper_RE_BLANK_LINES
              RE_BLANK_LINES_match)|].
  eapply subseq_trans;
    [apply (replace_all_subseq RE_TRAILING _ proper_RE_TRAILING);
     intros c m r H; apply subseq_one; exact (RE_TRAILING_match c m r H)|].
  eapply subseq_trans;
    [apply (replace_all_subseq RE_BOLD _ proper_RE_BOLD); intros;
     apply subseq_nil|].
  apply (replace_all_subseq RE_CR _ proper_RE_CR). intros. apply subseq_nil.
Qed.

(** [normalize] only deletes characters: what it returns is the text given,
    in order, with some characters left out; it is never longer and holds
    no character that the text did not hold. *)
Theorem normalize_only_deletes (s : jstring) :
  subseq (normalize s) s
  /\ List.length (normalize s) <= List.length s
  /\ (forall c, In c (normalize s) -> In c s).
Proof.
  pose proof (normalize_subseq s) as H. repeat split.
  - exact H.
  - now apply subseq_length.
  - intros c. now apply subseq_In.
Qed.

Lemma strip_label_subseq p s : suffix_pat p -> subseq (strip_label p s) s.
Proof.
  intros Hp. unfold strip_label.
  destruct (find_first p s) as [[[b m] a]|] eqn:E; [|apply subseq_refl].
  destruct (find_first_sound p s b m a Hp E) as (-> & _ & _).
  apply subseq_drop_middle.
Qed.

(** The splitter only deletes too: the verbal part followed by the written
    part is the blob, in order, with some characters left out (the anchors,
    white space, and what [normalize] removes); and both parts are trimmed. *)
Theorem splitCombinedBlob_only_deletes (blob : jstring) :
  subseq (verbal (splitCombinedBlob blob) ++ written (splitCombinedBlob blob)) blob
  /\ untrimmed (verbal (splitCombinedBlob blob)) = false
  /\ untrimmed (written (splitCombinedBlob blob)) = false.
Proof.
  rewrite splitCombinedBlob_refines. unfold split_trimmed. cbn [verbal written].
  split; [|split; apply trim_trimmed].
  apply (subseq_trans _ (normalize blob)); [|apply normalize_subseq].
  unfold split_as_stated.
  destruct (find_first WRITTEN_ANCHOR (normalize blob)) as [[[b m] a]|] eqn:W.
  - destruct (find_first_sound _ _ _ _ _ suffix_WRITTEN_ANCHOR W) as (E & _ & _).
    rewrite E. cbn [verbal written].
    apply (subseq_trans _ (b ++ a)); [|apply subseq_drop_middle].
    apply subseq_app; [|apply trim_subseq].
    eapply subseq_trans; [apply trim_subseq|].
    apply strip_label_subseq, suffix_VERBAL_ANCHOR.
  - destruct (find_first VERBAL_ANCHOR (normalize blob)) as [[[b m] a]|] eqn:V;
      cbn [verbal written].
    + destruct (find_first_sound _ _ _ _ _ suffix_VERBAL_ANCHOR V) as (E & _ & _).
      rewrite E. simpl trim at 2. rewrite app_nil_r.
      eapply subseq_trans; [apply trim_subseq | apply subseq_drop_middle].
    + simpl trim at 1. apply trim_subseq.
Qed.

(* ================================================================== *)
(** ** What every block of [toSectionedHTML] satisfies *)
(* ================================================================== *)

Section BlockTexts.

Variables Q BP BH : jstring -> Prop.

Hypothesis Q_trim : forall l, Q l -> Q (trim l).
Hypothesis BP_paragraph :
  forall lines, Forall Q lines ->
    BP (trim (replace_all RE_SPACES (str " ") (join (str " ") lines))).
Hypothesis BH_heading :
  forall l, Q l -> BH (replace_first RE_FINAL_COLON [] l).
Hypothesis BP_sentinel : BP (str "Not provided.").

Lemma flushPara_inv_for st :
  loop_inv_for Q BP BH st -> loop_inv_for Q BP BH (flushPara st).
Proof.
  intros [[blocks [Eo Hb]] Hp]. unfold flushPara.
  destruct (para st) as [|l ls] eqn:E.
  - split; [eauto | now rewrite E].
  - pose proof (BP_paragraph (l :: ls) Hp) as Ht.
    destruct (trim _) as [|c t] eqn:T; cbn [is_empty]; (split; [|constructor]);
      cbn [out].
    + eauto.
    + exists (blocks ++ [Para (c :: t)]). split.
      * rewrite map_app, Eo. reflexivity.
      * apply Forall_app. split; [exact Hb|]. constructor; [exact Ht | constructor].
Qed.

Lemma line_step_inv_for st raw :
  loop_inv_for Q BP BH st -> Q raw -> loop_inv_for Q BP BH (line_step st raw).
Proof.
  intros Hst Hraw. unfold line_step.
  pose proof (Q_trim raw Hraw) as Hl.
  pose proof (flushPara_inv_for st Hst) as Hf.
  destruct (is_empty (trim raw)); [exact Hf|].
  destruct (test_at_start HEADING (trim raw)).
  - destruct Hf as [[blocks [Eo Hb]] Hp]. split; [|exact Hp]. cbn [out].
    exists (blocks ++ [Heading (replace_first RE_FINAL_COLON [] (trim raw))]).
    split.
    + rewrite map_app, Eo. reflexivity.
    + apply Forall_app. split; [exact Hb|].
      constructor; [now apply BH_heading | constructor].
  - destruct (test_at_start RE_VERBAL_LABEL (trim raw)); [exact Hf|].
    destruct (test WRITTEN_ANCHOR (trim raw)); [exact Hf|].
    destruct Hst as [Ho Hp]. split; [exact Ho|]. cbn [para].
    apply Forall_app. split; [exact Hp | repeat constructor; exact Hl].
Qed.

Lemma toSectionedHTML_blocks_for src :
  Forall Q (split_char 10%N (esc src)) ->
  made_of (block_sat BP BH) (toSectionedHTML src).
Proof.
  intros Hlines. unfold toSectionedHTML. destruct (is_empty src).
  - exists [Para (str "Not provided.")]. split; [reflexivity|].
    constructor; [exact BP_sentinel | constructor].
  - assert (H : forall lines st,
               Forall Q lines -> loop_inv_for Q BP BH st ->
               loop_inv_for Q BP BH (fold_left line_step lines st)).
    { intros lines st Hl. revert st.
      induction Hl as [|l ls Hl _ IH]; intros st Hst; [exact Hst|].
      simpl. apply IH. now apply line_step_inv_for. }
    destruct (flushPara_inv_for _
                (H _ (mkBlocks [] []) Hlines
                   (conj (ex_intro _ [] (conj eq_refl (Forall_nil _)))
                         (Forall_nil _))))
      as [[blocks [Eo Hb]] _].
    exists blocks. rewrite Eo. auto.
Qed.

End BlockTexts.

(** *** One line per block, compact paragraphs *)

Lemma join_In sep parts c :
  In c (join sep parts) -> In c sep \/ exists l, In l parts /\ In c l.
Proof.
  induction parts as [|l [|l' ls] IH]; simpl.
  - tauto.
  - intros H. right. exists l. auto.
  - intros H. apply in_app_or in H as [H|H]; [right; exists l; auto|].
    apply in_app_or in H as [H|H]; [now left|].
    destruct (IH H) as [G|[x [G1 G2]]]; [now left|].
    right. exists x. auto.
Qed.

Lemma split_char_lines sep s : Forall (fun l => ~ In sep l) (split_char sep s).
Proof.
  induction s as [|c t IH]; simpl.
  - repeat constructor. auto.
  - destruct (N.eqb_spec c sep) as [->|N].
    + constructor; auto.
    + destruct (split_char sep t) as [|l ls]; simpl.
      * repeat constructor. simpl. intuition.
      * inversion IH; subst. constructor; auto. simpl. intuition.
Qed.

Lemma has_space_run_cons c t :
  has_space_run (c :: t) = (is_space c && starts_with_space t) || has_space_run t.
Proof. destruct t; [now rewrite andb_false_r | reflexivity]. Qed.

Lemma has_space_run_app_r a b :
  has_space_run (a ++ b) = false -> has_space_run b = false.
Proof.
  induction a as [|c a IH]; [auto|]. simpl app. rewrite has_space_run_cons.
  intros H. apply orb_false_iff in H as [_ H]. auto.
Qed.

Lemma starts_with_space_app_true a b :
  starts_with_space a = true -> starts_with_space (a ++ b) = true.
Proof. destruct a; [discriminate | auto]. Qed.

Lemma has_space_run_app_l a b :
  has_space_run (a ++ b) = false -> has_space_run a = false.
Proof.
  induction a as [|c a IH]; [auto|]. simpl app. rewrite !has_space_run_cons.
  intros H. apply orb_false_iff in H as [H1 H2]. rewrite (IH H2), orb_false_r.
  destruct (is_space c); [|reflexivity]. simpl in *.
  destruct (starts_with_space a) eqn:E; [|reflexivity].
  now rewrite (starts_with_space_app_true a b E) in H1.
Qed.

Lemma RE_SPACES_eq s :
  RE_SPACES s = if 2 <=? List.length s - List.length (drop_while is_space s)
                then Some (drop_while is_space s) else None.
Proof. reflexivity. Qed.

Lemma RE_SPACES_two c d t :
  is_space c = true -> is_space d = true -> RE_SPACES (c :: d :: t) <> None.
Proof.
  intros Hc Hd. rewrite RE_SPACES_eq. cbn [drop_while]. rewrite Hc, Hd.
  pose proof (drop_while_length is_space t) as L. cbn [List.length].
  destruct (2 <=? _) eqn:E; [discriminate|]. apply Nat.leb_gt in E. lia.
Qed.

Lemma RE_SPACES_head s r :
  RE_SPACES s = Some r ->
  (exists c t, s = c :: t /\ is_space c = true)
  /\ (forall d u, r = d :: u -> is_space d = false).
Proof.
  rewrite RE_SPACES_eq. destruct (2 <=? _) eqn:E; [|discriminate].
  intros [= <-]. apply Nat.leb_le in E. split.
  - destruct s as [|c t]; [simpl in E; lia|]. exists c, t. split; [reflexivity|].
    cbn [drop_while] in E. destruct (is_space c); [reflexivity|].
    rewrite Nat.sub_diag in E. lia.
  - intros d u. apply drop_while_head.
Qed.

Lemma collapse_no_space_run s :
  has_space_run (replace_all RE_SPACES (str " ") s) = false.
Proof.
  induction s as [s IH] using list_length_ind.
  destruct (replace_all_cases RE_SPACES (str " ") s proper_RE_SPACES)
    as [[-> ->] | [(c & t & -> & E & ->) | (c & m & r & -> & E & ->)]].
  - reflexivity.
  - rewrite has_space_run_cons, (IH t) by (simpl; lia). rewrite orb_false_r.
    destruct (is_space c) eqn:Hc; [|reflexivity]. simpl.
    destruct (replace_all RE_SPACES (str " ") t) as [|d u] eqn:F; [reflexivity|].
    simpl. destruct (is_space d) eqn:Hd; [exfalso | reflexivity].
    destruct (replace_all_head RE_SPACES (str " ") 32%N [] proper_RE_SPACES
                eq_refl t d u F) as [[t' ->] | [-> [r Hr]]].
    + exact (RE_SPACES_two c d t' Hc Hd E).
    + destruct (RE_SPACES_head t r Hr) as [(d' & t' & -> & Hd') _].
      exact (RE_SPACES_two c d' t' Hc Hd' E).
  - assert (L : List.length r < List.length ((c :: m) ++ r))
      by (rewrite length_app; simpl; lia).
    change (str " " ++ replace_all RE_SPACES (str " ") r)
      with (32%N :: replace_all RE_SPACES (str " ") r).
    rewrite has_space_run_cons, (IH r L), orb_false_r. simpl.
    destruct (replace_all RE_SPACES (str " ") r) as [|d u] eqn:F; [reflexivity|].
    simpl. destruct (RE_SPACES_head _ r E) as [_ Hr].
    destruct (replace_all_head RE_SPACES (str " ") 32%N [] proper_RE_SPACES
                eq_refl r d u F) as [[t' ->] | [-> [r' Hr']]].
    + exact (Hr d t' eq_refl).
    + destruct (RE_SPACES_head r r' Hr') as [(d' & t' & -> & Hd') _].
      rewrite (Hr d' t' eq_refl) in Hd'. discriminate.
Qed.

Lemma replace_first_In p s c :
  suffix_pat p -> In c (replace_first p [] s) -> In c s.
Proof.
  intros Hp. rewrite replace_first_strip. apply subseq_In.
  now apply strip_label_subseq.
Qed.

Lemma suffix_RE_FINAL_COLON : suffix_pat RE_FINAL_COLON.
Proof. unfold RE_FINAL_COLON. auto with pats. Qed.

(** Each element of the output of [toSectionedHTML] is on its own line: the
    text of a heading or of a paragraph holds no line break; and paragraphs
    are compact: the text of a paragraph holds no two white-space characters
    side by side and neither starts nor ends with white space. *)
Theorem toSectionedHTML_one_block_per_line (src : jstring) :
  made_of (block_sat compact one_line) (toSectionedHTML src).
Proof.
  apply (toSectionedHTML_blocks_for one_line compact one_line).
  - intros l H G. apply H. now apply trim_In in G.
  - intros lines H. repeat split.
    + intros G. apply trim_In in G.
      apply (replace_all_In _ _ proper_RE_SPACES) in G as [G|G];
        [simpl in G; intuition discriminate|].
      apply join_In in G as [G|[l [G1 G2]]];
        [simpl in G; intuition discriminate|].
      rewrite Forall_forall in H. exact (H l G1 G2).
    + destruct (trim_infix (replace_all RE_SPACES (str " ") (join (str " ") lines)))
        as (a & b & E & _).
      pose proof (collapse_no_space_run (join (str " ") lines)) as C.
      rewrite E in C. apply has_space_run_app_r in C.
      now apply has_space_run_app_l in C.
    + apply trim_trimmed.
  - intros l H G. apply H.
    exact (replace_first_In RE_FINAL_COLON l _ suffix_RE_FINAL_COLON G).
  - repeat split. simpl. intuition discriminate.
  - apply split_char_lines.
Qed.

(* ================================================================== *)
(** ** No bold marker comes back *)
(* ================================================================== *)

Lemma not_ends_with (a : jstring) x :
  last a 0%N <> x -> forall a', a <> a' ++ [x].
Proof. intros H a' E. apply H. rewrite E. apply last_last. Qed.

Lemma infixb_two_app_r x y (a b : jstring) :
  infixb [x; y] a = false -> infixb [x; y] b = false ->
  (forall b', b <> y :: b') ->
  infixb [x; y] (a ++ b) = false.
Proof.
  induction a as [|c a IH]; intros Ha Hb Hh; [exact Hb|].
  apply infixb_two in Ha as [Ha1 Ha2]. simpl app. apply infixb_two. split.
  - intros -> d u E. destruct a as [|e a].
    + simpl in E. intros ->. now apply (Hh u).
    + injection E as -> _. now apply (Ha1 eq_refl d a).
  - now apply IH.
Qed.

(** The pieces of a split are pieces of the text. *)
Lemma split_char_pieces sep s :
  exists l0 ls, split_char sep s = l0 :: ls
                /\ (exists b, s = l0 ++ b)
                /\ forall l, In l ls -> exists a b, s = a ++ l ++ b.
Proof.
  induction s as [|c t (l0 & ls & E & [b Hb] & H)]; simpl.
  - exists [], []. repeat split; [now exists [] | intros l []].
  - destruct (c =? sep)%N.
    + exists [], (split_char sep t). repeat split; [now exists (c :: t)|].
      intros l Hl. rewrite E in Hl. destruct Hl as [<-|Hl].
      * exists [c], b. simpl. now rewrite <- Hb.
      * destruct (H l Hl) as (a & b' & ->). now exists (c :: a), b'.
    + rewrite E. exists (c :: l0), ls. repeat split.
      * exists b. simpl. now rewrite <- Hb.
      * intros l Hl. destruct (H l Hl) as (a & b' & ->). now exists (c :: a), b'.
Qed.

Lemma split_re_pieces p :
  proper p ->
  forall s, exists l0 ls, split_re p s = l0 :: ls
                          /\ (exists b, s = l0 ++ b)
                          /\ forall l, In l ls -> exists a b, s = a ++ l ++ b.
Proof.
  intros Hp s. induction s as [s IH] using list_length_ind.
  destruct s as [|c t].
  - exists [], []. repeat split; [now exists [] | intros l []].
  - destruct (p (c :: t)) as [r|] eqn:E.
    + destruct (Hp _ _ E) as (c' & m & F). rewrite F in *.
      rewrite (split_re_match p c' m r E).
      destruct (IH r) as (l0 & ls & Er & [b Hb] & H);
        [rewrite length_app; simpl; lia|].
      exists [], (split_re p r). repeat split; [now eexists|].
      intros l Hl. rewrite Er in Hl. destruct Hl as [<-|Hl].
      * exists (c' :: m), b. now rewrite <- Hb.
      * destruct (H l Hl) as (a & b' & ->).
        exists ((c' :: m) ++ a), b'. now rewrite <- app_assoc.
    + rewrite (split_re_skip p c t E).
      destruct (IH t) as (l0 & ls & Er & [b Hb] & H); [simpl; lia|].
      rewrite Er. exists (c :: l0), ls. repeat split.
      * exists b. simpl. now rewrite <- Hb.
      * intros l Hl. destruct (H l Hl) as (a & b' & ->). now exists (c :: a), b'.
Qed.

Lemma infixb_piece w s a l b :
  infixb w s = false -> s = a ++ l ++ b -> infixb w l = false.
Proof.
  intros H ->. destruct (infixb w l) eqn:E; [|reflexivity].
  now rewrite (infixb_app_r w a _ (infixb_app_l w l b E)) in H.
Qed.

Lemma split_char_no_infix w sep s :
  infixb w s = false -> Forall (fun l => infixb w l = false) (split_char sep s).
Proof.
  intros H. destruct (split_char_pieces sep s) as (l0 & ls & -> & [b Hb] & G).
  constructor.
  - apply (infixb_piece w s [] l0 b H). exact Hb.
  - apply Forall_forall. intros l Hl. destruct (G l Hl) as (a & b' & E).
    exact (infixb_piece w s a l b' H E).
Qed.

Lemma split_re_no_infix w p s :
  proper p ->
  infixb w s = false -> Forall (fun l => infixb w l = false) (split_re p s).
Proof.
  intros Hp H. destruct (split_re_pieces p Hp s) as (l0 & ls & -> & [b Hb] & G).
  constructor.
  - apply (infixb_piece w s [] l0 b H). exact Hb.
  - apply Forall_forall. intros l Hl. destruct (G l Hl) as (a & b' & E).
    exact (infixb_piece w s a l b' H E).
Qed.

(** [esc] brings no two stars together. *)
Lemma esc_no_bold s : has_bold s = false -> has_bold (esc s) = false.
Proof.
  unfold has_bold. change (str "**") with [42%N; 42%N].
  induction s as [|c s IH]; intros H; [reflexivity|].
  apply infixb_two in H as [H1 H2]. specialize (IH H2).
  rewrite esc_cons, esc_one.
  destruct (c =? 38)%N;
    [apply infixb_two_app; [reflexivity | exact IH
                           | apply not_ends_with; discriminate]|].
  destruct (c =? 60)%N;
    [apply infixb_two_app; [reflexivity | exact IH
                           | apply not_ends_with; discriminate]|].
  destruct (c =? 62)%N;
    [apply infixb_two_app; [reflexivity | exact IH
                           | apply not_ends_with; discriminate]|].
  simpl app. apply infixb_two. split; [|exact IH].
  intros -> d u E. destruct s as [|x s]; [discriminate|].
  rewrite esc_cons, esc_one in E. specialize (H1 eq_refl x s eq_refl).
  destruct (x =? 38)%N; [injection E as <- _; discriminate|].
  destruct (x =? 60)%N; [injection E as <- _; discriminate|].
  destruct (x =? 62)%N; [injection E as <- _; discriminate|].
  injection E as <- _. exact H1.
Qed.

Lemma strip_colon_prefix s :
  exists w, s = replace_first RE_FINAL_COLON [] s ++ w.
Proof.
  induction s as [|c t [w IH]].
  - now exists [].
  - change (replace_first RE_FINAL_COLON [] (c :: t)) with
      (match RE_FINAL_COLON (c :: t) with
       | Some rest => [] ++ rest
       | None => c :: replace_first RE_FINAL_COLON [] t
       end).
    rewrite RE_FINAL_COLON_eq. destruct t as [|d t].
    + destruct (c =? 58)%N; [now exists [c] | now exists []].
    + exists w. cbn -[replace_first]. f_equal. exact IH.
Qed.

Lemma join_no_bold sep parts :
  has_bold sep = false -> sep <> [] ->
  (forall b', sep <> 42%N :: b') -> last sep 0%N <> 42%N ->
  Forall (fun l => has_bold l = false) parts ->
  has_bold (join sep parts) = false.
Proof.
  unfold has_bold. change (str "**") with [42%N; 42%N].
  intros Hs Hne Hh Hl H. induction H as [|l ls Hp _ IH]; [reflexivity|].
  simpl. destruct ls as [|l' ls]; [exact Hp|].
  apply infixb_two_app_r; auto.
  - apply infixb_two_app; auto. now apply not_ends_with.
  - intros b' E. destruct sep as [|x sep]; simpl in E.
    + now elim Hne.
    + injection E as -> _. now apply (Hh sep).
Qed.

Lemma render_no_bold b :
  has_bold (block_text b) = false -> has_bold (render b) = false.
Proof.
  unfold has_bold. change (str "**") with [42%N; 42%N].
  intros H. destruct b as [t|t]; simpl in H; unfold render.
  - apply infixb_two_app; [reflexivity | | apply not_ends_with; discriminate].
    apply infixb_two_app_r; [exact H | reflexivity | discriminate].
  - apply infixb_two_app; [reflexivity | | apply not_ends_with; discriminate].
    apply infixb_two_app_r; [exact H | reflexivity | discriminate].
Qed.

Lemma made_of_no_bold html :
  made_of (fun b => has_bold (block_text b) = false) html ->
  has_bold html = false.
Proof.
  intros (blocks & -> & H). apply join_no_bold;
    [reflexivity | discriminate | discriminate | discriminate |].
  apply Forall_forall. intros l Hl. apply in_map_iff in Hl as (b & <- & Hb).
  apply render_no_bold. rewrite Forall_forall in H. now apply H.
Qed.

Lemma collapse_no_bold s :
  has_bold s = false -> has_bold (replace_all RE_SPACES (str " ") s) = false.
Proof.
  apply (replace_all_no_pair RE_SPACES (str " ") 32%N [] 42%N 42%N);
    [exact proper_RE_SPACES | reflexivity | reflexivity
    | apply not_ends_with; discriminate | left; discriminate].
Qed.

(** The note in the source of [toSectionedHTML], "no Markdown ** artifacts
    remain (already removed in normalize)", holds of both formatters: when
    the text given holds no two stars side by side, neither does the output. *)
Theorem formatters_bring_no_bold (src : jstring) :
  has_bold src = false ->
  has_bold (toSectionedHTML src) = false /\ has_bold (toVerbalHTML src) = false.
Proof.
  intros H. pose proof (esc_no_bold src H) as He. split.
  - apply made_of_no_bold.
    apply (made_of_weaken
             (block_sat (fun t => has_bold t = false) (fun t => has_bold t = false)));
      [now intros []|].
    apply (toSectionedHTML_blocks_for (fun t => has_bold t = false)).
    + intros l. apply infixb_trim.
    + intros lines Hl. apply infixb_trim, collapse_no_bold.
      apply join_no_bold;
        [reflexivity | discriminate | discriminate | discriminate | exact Hl].
    + intros l Hl. destruct (strip_colon_prefix l) as [w E].
      apply (infixb_piece _ l [] _ w Hl). exact E.
    + reflexivity.
    + now apply split_char_no_infix.
  - apply made_of_no_bold. unfold toVerbalHTML. destruct (is_empty src).
    + exists [Para (str "Not provided.")]. split; [reflexivity|].
      repeat constructor.
    + set (s := trim (replace_all RE_BLANK_LINES [10%N; 10%N] (esc src))).
      assert (Hs : has_bold s = false).
      { apply infixb_trim. apply step4_no_pair; [discriminate | exact He]. }
      set (parts := filter (fun p => negb (is_empty p))
                      (List.map trim (split_re RE_PARAGRAPH_BREAK s))).
      exists (List.map Para parts). split; [now rewrite map_map|].
      apply Forall_forall. intros b Hb.
      apply in_map_iff in Hb as (q & <- & Hq).
      apply filter_In in Hq as [Hq _].
      apply in_map_iff in Hq as (l & <- & Hl). simpl. apply infixb_trim.
      pose proof (split_re_no_infix (str "**") RE_PARAGRAPH_BREAK s
                    proper_RE_PARAGRAPH_BREAK Hs) as F.
      rewrite Forall_forall in F. now apply F.
Qed.

Lemma formatters_bring_no_bold_witness :
  has_bold (toSectionedHTML (str "Aff Constructive: *detail*")) = false
  /\ has_bold (toVerbalHTML (str "Aff Constructive: *detail*")) = false.
Proof.
  apply (formatters_bring_no_bold (str "Aff Constructive: *detail*")).
  reflexivity.
Defined.

(* ================================================================== *)
(** ** The paragraphs of [toVerbalHTML] *)
(* ================================================================== *)

Lemma esc_app a b : esc (a ++ b) = esc a ++ esc b.
Proof. unfold esc. now rewrite !replaceAll_app. Qed.

Lemma esc_nonempty c t : esc (c :: t) <> [].
Proof.
  intros E. pose proof (esc_length (c :: t)) as L. rewrite E in L. simpl in L. lia.
Qed.

(** [esc] brings no two line breaks together. *)
Lemma esc_no_blank_line s :
  infixb [10%N; 10%N] s = false -> infixb [10%N; 10%N] (esc s) = false.
Proof.
  induction s as [|c s IH]; intros H; [reflexivity|].
  apply infixb_two in H as [H1 H2]. specialize (IH H2).
  rewrite esc_cons, esc_one.
  destruct (c =? 38)%N;
    [apply infixb_two_app; [reflexivity | exact IH
                           | apply not_ends_with; discriminate]|].
  destruct (c =? 60)%N;
    [apply infixb_two_app; [reflexivity | exact IH
                           | apply not_ends_with; discriminate]|].
  destruct (c =? 62)%N;
    [apply infixb_two_app; [reflexivity | exact IH
                           | apply not_ends_with; discriminate]|].
  simpl app. apply infixb_two. split; [|exact IH].
  intros -> d u E. destruct s as [|x s]; [discriminate|].
  rewrite esc_cons, esc_one in E. specialize (H1 eq_refl x s eq_refl).
  destruct (x =? 38)%N; [injection E as <- _; discriminate|].
  destruct (x =? 60)%N; [injection E as <- _; discriminate|].
  destruct (x =? 62)%N; [injection E as <- _; discriminate|].
  injection E as <- _. exact H1.
Qed.

(** [esc] keeps a text trimmed. *)
Lemma esc_one_ends c : ends_with_space (esc [c]) = is_space c.
Proof.
  rewrite esc_one.
  destruct (N.eqb_spec c 38) as [->|]; [reflexivity|].
  destruct (N.eqb_spec c 60) as [->|]; [reflexivity|].
  destruct (N.eqb_spec c 62) as [->|]; reflexivity.
Qed.

Lemma ends_with_space_last a c : ends_with_space (a ++ [c]) = is_space c.
Proof. unfold ends_with_space. now rewrite rev_app_distr. Qed.

Lemma ends_with_space_app a b :
  b <> [] -> ends_with_space (a ++ b) = ends_with_space b.
Proof.
  intros H. unfold ends_with_space. rewrite rev_app_distr.
  apply starts_with_space_app. intros E. apply H.
  apply (f_equal (@rev N)) in E. now rewrite rev_involutive in E.
Qed.

Lemma esc_ends s : ends_with_space (esc s) = ends_with_space s.
Proof.
  induction s as [|c s _] using rev_ind; [reflexivity|].
  rewrite esc_app, ends_with_space_last, ends_with_space_app.
  - apply esc_one_ends.
  - apply esc_nonempty.
Qed.

Lemma esc_starts s : starts_with_space (esc s) = starts_with_space s.
Proof.
  destruct s as [|c s]; [reflexivity|]. rewrite esc_cons, esc_one. simpl.
  destruct (N.eqb_spec c 38) as [->|]; [reflexivity|].
  destruct (N.eqb_spec c 60) as [->|]; [reflexivity|].
  destruct (N.eqb_spec c 62) as [->|]; reflexivity.
Qed.

Lemma esc_untrimmed s : untrimmed (esc s) = untrimmed s.
Proof. unfold untrimmed. now rewrite esc_starts, esc_ends. Qed.

Lemma run_of_two s :
  2 <= List.length s - List.length (drop_while is_nl s) ->
  prefixb [10%N; 10%N] s = true.
Proof.
  destruct s as [|a [|b t]]; try (simpl; lia);
    rewrite !run_length_cons; unfold is_nl;
    destruct (N.eqb_spec a 10) as [->|]; try lia.
  - simpl. lia.
  - destruct (N.eqb_spec b 10) as [->|]; try lia. reflexivity.
Qed.

Lemma never_two_breaks n s :
  infixb [10%N; 10%N] s = false -> never (p_at_least (2 + n) is_nl) s.
Proof.
  intros H a b ->. apply infixb_suffix in H. unfold p_at_least.
  destruct (2 + n <=? _) eqn:E; [|reflexivity]. apply Nat.leb_le in E.
  assert (P : prefixb [10%N; 10%N] b = true) by (apply run_of_two; lia).
  destruct b; simpl in H, P; [discriminate|]. simpl in P. rewrite P in H.
  discriminate.
Qed.

Lemma split_re_never p s : never p s -> split_re p s = [s].
Proof.
  induction s as [|c t IH]; intros H; [reflexivity|].
  rewrite split_re_skip by now apply (H []).
  rewrite IH by (eapply never_tail; eauto). reflexivity.
Qed.

(** A text that is not empty, neither starts nor ends with white space and
    holds no blank line is one paragraph: its escaped form between [<p>]
    and [</p>]. *)
Theorem toVerbalHTML_one_paragraph (src : jstring) :
  src <> [] -> untrimmed src = false -> infixb [10%N; 10%N] src = false ->
  toVerbalHTML src = P_OPEN ++ esc src ++ P_CLOSE.
Proof.
  intros Hne Ht Hb. unfold toVerbalHTML.
  destruct src as [|c t]; [now elim Hne|]. cbn [is_empty].
  pose proof (esc_no_blank_line _ Hb) as Hb'.
  rewrite (replace_all_never RE_BLANK_LINES _ _ (never_two_breaks 1 _ Hb')).
  assert (T : trim (esc (c :: t)) = esc (c :: t))
    by (apply trim_fixed; now rewrite esc_untrimmed).
  rewrite T, (split_re_never RE_PARAGRAPH_BREAK _ (never_two_breaks 0 _ Hb')).
  cbn [List.map filter]. rewrite T.
  destruct (esc (c :: t)) eqn:E; [now apply esc_nonempty in E|].
  reflexivity.
Qed.

Lemma toVerbalHTML_one_paragraph_witness :
  toVerbalHTML (str "a <b> & c") = P_OPEN ++ esc (str "a <b> & c") ++ P_CLOSE.
Proof.
  apply (toVerbalHTML_one_paragraph (str "a <b> & c"));
    [discriminate | reflexivity | reflexivity].
Defined.

(** *** A blank line separates paragraphs *)

Lemma ends_solid_iff x :
  ends_solid x <-> x <> [] /\ ends_with_space x = false.
Proof.
  split.
  - intros (x0 & c & -> & Hc). split; [now destruct x0|].
    now rewrite ends_with_space_last.
  - intros [Hne H]. destruct (exists_last Hne) as (x0 & c & ->).
    exists x0, c. split; [reflexivity|]. now rewrite ends_with_space_last in H.
Qed.

Lemma ends_solid_suffix a r : ends_solid (a ++ r) -> r <> [] -> ends_solid r.
Proof.
  intros (x0 & c & E & Hc) Hne. destruct (exists_last Hne) as (r0 & c' & ->).
  rewrite app_assoc in E. apply app_inj_tail in E as [_ ->]. now exists r0, c.
Qed.

Lemma ends_solid_not_all (cls : char -> bool) x :
  (forall c, cls c = true -> is_space c = true) ->
  ends_solid x -> forallb cls x = false.
Proof.
  intros H (x0 & c & -> & Hc). rewrite forallb_app. simpl.
  destruct (cls c) eqn:E; [apply H in E; congruence|].
  now rewrite andb_false_r.
Qed.

Lemma drop_while_app_stop (f : char -> bool) x y :
  forallb f x = false -> drop_while f (x ++ y) = drop_while f x ++ y.
Proof.
  induction x as [|c x IH]; simpl; [discriminate|].
  destruct (f c); simpl; auto.
Qed.

Lemma drop_while_not_all (f : char -> bool) x :
  forallb f x = false -> drop_while f x <> [].
Proof.
  induction x as [|c x IH]; simpl; [discriminate|].
  destruct (f c); simpl; [auto | discriminate].
Qed.

Section RunPattern.

Variable n : nat.
Variable cls : char -> bool.
Hypothesis cls_space : forall c, cls c = true -> is_space c = true.

Let p : pat := p_at_least (S n) cls.

Lemma run_pattern_local x y :
  ends_solid x ->
  p (x ++ y) = match p x with Some r => Some (r ++ y) | None => None end.
Proof.
  intros H. pose proof (ends_solid_not_all cls x cls_space H) as A.
  unfold p, p_at_least. rewrite (drop_while_app_stop cls x y A).
  pose proof (drop_while_length cls x) as L.
  replace (List.length (x ++ y) - List.length (drop_while cls x ++ y))
    with (List.length x - List.length (drop_while cls x))
    by (rewrite !length_app; lia).
  now destruct (S n <=? _).
Qed.

Lemma run_pattern_rest x r : ends_solid x -> p x = Some r -> ends_solid r.
Proof.
  intros H E. pose proof (ends_solid_not_all cls x cls_space H) as A.
  unfold p, p_at_least in E. destruct (S n <=? _); [|discriminate].
  injection E as <-. destruct (drop_while_suffix cls x) as (m & F & _).
  rewrite F in H. apply (ends_solid_suffix m); [exact H|].
  now apply drop_while_not_all.
Qed.

Lemma run_pattern_proper : proper p.
Proof. apply proper_at_least. Qed.

Lemma run_pattern_at_space : starts_at_space p.
Proof. now apply at_least_starts_at_space. Qed.

Lemma ends_solid_tail c t : ends_solid (c :: t) -> t <> [] -> ends_solid t.
Proof. apply (ends_solid_suffix [c]). Qed.

Lemma ends_solid_one c : ends_solid [c] -> is_space c = false.
Proof.
  intros (x0 & d & E & Hd). destruct x0 as [|? [|]]; simpl in E; try discriminate.
  now injection E as ->.
Qed.

Lemma replace_all_app_local rep x y :
  ends_solid x ->
  replace_all p rep (x ++ y) = replace_all p rep x ++ replace_all p rep y.
Proof.
  induction x as [x IH] using list_length_ind. intros H.
  pose proof (run_pattern_local x y H) as E.
  destruct (p x) as [r|] eqn:F.
  - destruct (run_pattern_proper _ _ F) as (c & m & G). rewrite G in *.
    pose proof (run_pattern_rest _ r H F) as Hr.
    rewrite (replace_all_match p rep c m r F).
    rewrite <- app_assoc in E |- *. rewrite (replace_all_match p rep c m (r ++ y) E).
    rewrite IH; [now rewrite app_assoc | rewrite length_app; simpl; lia | exact Hr].
  - destruct x as [|c t]; [destruct H as ([|] & ? & ? & _); discriminate|].
    simpl app in *. rewrite (replace_all_skip p rep c t F).
    rewrite (replace_all_skip p rep c (t ++ y) E).
    destruct t as [|d t].
    + rewrite (replace_all_nil p rep (proper_nil p run_pattern_proper)).
      reflexivity.
    + rewrite IH; [reflexivity | simpl; lia|].
      apply (ends_solid_tail c); [exact H | discriminate].
Qed.

Lemma replace_all_ends_solid rep x :
  ends_solid x -> ends_solid (replace_all p rep x).
Proof.
  induction x as [x IH] using list_length_ind. intros H.
  destruct (p x) as [r|] eqn:F.
  - destruct (run_pattern_proper _ _ F) as (c & m & G). rewrite G in *.
    pose proof (run_pattern_rest _ r H F) as Hr.
    rewrite (replace_all_match p rep c m r F).
    destruct (IH r) as (u & d & -> & Hd);
      [rewrite length_app; simpl; lia | exact Hr|].
    exists (rep ++ u), d. now rewrite app_assoc.
  - destruct x as [|c t]; [destruct H as ([|] & ? & ? & _); discriminate|].
    rewrite (replace_all_skip p rep c t F). destruct t as [|d t].
    + rewrite (replace_all_nil p rep (proper_nil p run_pattern_proper)).
      exists [], c. split; [reflexivity | now apply ends_solid_one].
    + destruct (IH (d :: t)) as (u & e & -> & He); [simpl; lia | |].
      * apply (ends_solid_tail c); [exact H | discriminate].
      * now exists (c :: u), e.
Qed.

Lemma split_re_app_local x sep y :
  ends_solid x -> sep <> [] -> p (sep ++ y) = Some y ->
  split_re p (x ++ sep ++ y) = split_re p x ++ split_re p y.
Proof.
  intros H Hsep Hy. induction x as [x IH] using list_length_ind.
  assert (S : split_re p (sep ++ y) = [] :: split_re p y).
  { destruct sep as [|c m]; [now elim Hsep|]. now apply split_re_match. }
  pose proof (run_pattern_local x (sep ++ y) H) as E.
  destruct (p x) as [r|] eqn:F.
  - destruct (run_pattern_proper _ _ F) as (c & m & G). rewrite G in *.
    pose proof (run_pattern_rest _ r H F) as Hr.
    rewrite (split_re_match p c m r F).
    rewrite <- app_assoc in E |- *.
    rewrite (split_re_match p c m (r ++ sep ++ y) E).
    rewrite IH; [reflexivity | rewrite length_app; simpl; lia | exact Hr].
  - destruct x as [|c t]; [destruct H as ([|] & ? & ? & _); discriminate|].
    simpl app in *. rewrite (split_re_skip p c t F).
    rewrite (split_re_skip p c (t ++ sep ++ y) E).
    destruct t as [|d t].
    + simpl app. rewrite S. reflexivity.
    + rewrite IH; [| simpl; lia
                   | apply (ends_solid_tail c); [exact H | discriminate]].
      unfold split_re.
      destruct (split_re_from p 0 (d :: t)) as [|l ls] eqn:N;
        [now apply split_re_from_nonempty in N | reflexivity].
Qed.

End RunPattern.

Lemma join_app sep (l1 l2 : list jstring) :
  l1 <> [] -> l2 <> [] ->
  join sep (l1 ++ l2) = join sep l1 ++ sep ++ join sep l2.
Proof.
  intros H1 H2. induction l1 as [|x [|y l] IH]; [now elim H1 | |].
  - destruct l2; [now elim H2 | reflexivity].
  - change (join sep ((x :: y :: l) ++ l2))
      with (x ++ sep ++ join sep ((y :: l) ++ l2)).
    rewrite IH by discriminate.
    change (join sep (x :: y :: l)) with (x ++ sep ++ join sep (y :: l)).
    now rewrite <- !app_assoc.
Qed.

Lemma trimmed_shape x :
  x <> [] -> untrimmed x = false ->
  ends_solid x /\ exists h t, x = h :: t /\ is_space h = false.
Proof.
  intros Hne H. apply orb_false_iff in H as [H1 H2]. split.
  - now apply ends_solid_iff.
  - destruct x as [|h t]; [now elim Hne|]. now exists h, t.
Qed.

Lemma trimmed_of_shape x :
  ends_solid x -> (exists h t, x = h :: t /\ is_space h = false) ->
  x <> [] /\ untrimmed x = false.
Proof.
  intros E (h & t & -> & Hh). split; [discriminate|].
  apply ends_solid_iff in E as [_ E]. unfold untrimmed. rewrite E. simpl.
  now rewrite Hh.
Qed.

Lemma esc_trimmed x :
  x <> [] -> untrimmed x = false -> esc x <> [] /\ untrimmed (esc x) = false.
Proof.
  intros Hne H. rewrite esc_untrimmed. split; [|exact H].
  destruct x; [now elim Hne | apply esc_nonempty].
Qed.

Lemma squeeze_trimmed x :
  x <> [] -> untrimmed x = false ->
  replace_all RE_BLANK_LINES [10%N; 10%N] x <> []
  /\ untrimmed (replace_all RE_BLANK_LINES [10%N; 10%N] x) = false.
Proof.
  intros Hne H. destruct (trimmed_shape x Hne H) as (E & h & t & -> & Hh).
  apply trimmed_of_shape.
  - now apply replace_all_ends_solid; [exact is_nl_space|].
  - rewrite replace_all_skip by (now apply RE_BLANK_LINES_at_space).
    now exists h, (replace_all RE_BLANK_LINES [10%N; 10%N] t).
Qed.

Lemma paragraphs_nonempty x :
  x <> [] -> untrimmed x = false ->
  filter (fun p => negb (is_empty p))
    (List.map trim (split_re RE_PARAGRAPH_BREAK x)) <> [].
Proof.
  intros Hne H. destruct (trimmed_shape x Hne H) as (_ & h & t & -> & Hh).
  rewrite split_re_skip by (now apply RE_PARAGRAPH_BREAK_at_space).
  destruct (split_re RE_PARAGRAPH_BREAK t) as [|l ls];
    cbn [cons_head List.map]; unfold trim at 1, trim_start;
    rewrite drop_while_stop by exact Hh; rewrite trim_end_keep by exact Hh;
    cbn [filter is_empty negb]; discriminate.
Qed.

Lemma break_then_text h t :
  is_space h = false ->
  RE_BLANK_LINES (10%N :: 10%N :: h :: t) = None
  /\ RE_BLANK_LINES (10%N :: h :: t) = None
  /\ RE_PARAGRAPH_BREAK (10%N :: 10%N :: h :: t) = Some (h :: t).
Proof.
  intros Hh. assert (Hn : is_nl h = false).
  { destruct (is_nl h) eqn:E; [apply is_nl_space in E; congruence | reflexivity]. }
  unfold RE_BLANK_LINES, RE_PARAGRAPH_BREAK, p_at_least.
  rewrite !run_length_cons. cbn [drop_while]. rewrite Hn.
  change (is_nl 10%N) with true. cbn iota. repeat split.
Qed.

Lemma toVerbalHTML_trimmed x :
  x <> [] -> untrimmed x = false ->
  toVerbalHTML x =
  join [10%N]
    (List.map (fun p => P_OPEN ++ p ++ P_CLOSE)
       (filter (fun p => negb (is_empty p))
          (List.map trim
             (split_re RE_PARAGRAPH_BREAK
                (replace_all RE_BLANK_LINES [10%N; 10%N] (esc x)))))).
Proof.
  intros Hne H. unfold toVerbalHTML.
  destruct x as [|c t]; [now elim Hne|]. cbn [is_empty].
  destruct (esc_trimmed (c :: t) Hne H) as [Ene Eu].
  destruct (squeeze_trimmed _ Ene Eu) as [_ Su].
  now rewrite (trim_fixed _ Su).
Qed.

(** Two texts that are not empty and neither start nor end with white space,
    with one blank line between them, are formatted apart: the verbal
    fragment of the whole is the fragment of the first, a line break, and
    the fragment of the second. *)
Theorem toVerbalHTML_blank_line_separates (a b : jstring) :
  a <> [] -> b <> [] -> untrimmed a = false -> untrimmed b = false ->
  toVerbalHTML (a ++ [10%N; 10%N] ++ b) =
  toVerbalHTML a ++ [10%N] ++ toVerbalHTML b.
Proof.
  intros Ha Hb Ua Ub.
  destruct (trimmed_shape a Ha Ua) as (Ea & ha & ta & Sa & Hha).
  destruct (trimmed_shape b Hb Ub) as (Eb & hb & tb & Sb & Hhb).
  assert (W : a ++ [10%N; 10%N] ++ b <> []
              /\ untrimmed (a ++ [10%N; 10%N] ++ b) = false).
  { apply trimmed_of_shape.
    - destruct Eb as (b0 & c & -> & Hc). exists (a ++ [10%N; 10%N] ++ b0), c.
      split; [now rewrite <- !app_assoc | exact Hc].
    - rewrite Sa. now exists ha, (ta ++ [10%N; 10%N] ++ b). }
  destruct W as [Hw Uw].
  rewrite (toVerbalHTML_trimmed _ Hw Uw), (toVerbalHTML_trimmed _ Ha Ua),
    (toVerbalHTML_trimmed _ Hb Ub).
  destruct (esc_trimmed a Ha Ua) as [Ane Au].
  destruct (esc_trimmed b Hb Ub) as [Bne Bu].
  rewrite !esc_app. change (esc [10%N; 10%N]) with [10%N; 10%N].
  set (A := esc a) in *. set (B := esc b) in *.
  destruct (trimmed_shape A Ane Au) as (EA & _).
  destruct (trimmed_shape B Bne Bu) as (_ & h & t & SB & Hh).
  destruct (break_then_text h t Hh) as (N3 & N2 & M).
  rewrite (replace_all_app_local 2 is_nl is_nl_space [10%N; 10%N] A _ EA).
  fold RE_BLANK_LINES.
  assert (Q : replace_all RE_BLANK_LINES [10%N; 10%N] ([10%N; 10%N] ++ B) =
              [10%N; 10%N] ++ replace_all RE_BLANK_LINES [10%N; 10%N] B).
  { rewrite SB. cbn [app].
    rewrite (replace_all_skip _ _ _ _ N3), (replace_all_skip _ _ _ _ N2).
    reflexivity. }
  rewrite Q.
  destruct (squeeze_trimmed A Ane Au) as [RAne RAu].
  destruct (squeeze_trimmed B Bne Bu) as [RBne RBu].
  set (RA := replace_all RE_BLANK_LINES [10%N; 10%N] A) in *.
  set (RB := replace_all RE_BLANK_LINES [10%N; 10%N] B) in *.
  destruct (trimmed_shape RA RAne RAu) as (ERA & _).
  destruct (trimmed_shape RB RBne RBu) as (_ & h' & t' & SRB & Hh').
  destruct (break_then_text h' t' Hh') as (_ & _ & M').
  pose proof (split_re_app_local 1 is_nl is_nl_space RA [10%N; 10%N] RB ERA)
    as S.
  fold RE_PARAGRAPH_BREAK in S.
  rewrite S; [| discriminate | rewrite SRB; exact M'].
  fold RE_PARAGRAPH_BREAK.
  rewrite !map_app, filter_app, map_app.
  apply join_app.
  - intros E. apply map_eq_nil in E. revert E. now apply paragraphs_nonempty.
  - intros E. apply map_eq_nil in E. revert E. now apply paragraphs_nonempty.
Qed.

Lemma toVerbalHTML_blank_line_separates_witness :
  toVerbalHTML (str "I vote <aff>" ++ [10%N; 10%N] ++ str "Good clash") =
  toVerbalHTML (str "I vote <aff>") ++ [10%N] ++ toVerbalHTML (str "Good clash").
Proof.
  apply (toVerbalHTML_blank_line_separates (str "I vote <aff>") (str "Good clash"));
    [discriminate | discriminate | reflexivity | reflexivity].
Defined.

(* ================================================================== *)
(** ** The playground: the log and the keys *)
(* ================================================================== *)

Lemma array_slice_last {A : Type} (items : list A) (k : nat) :
  array_slice_from items (- Z.of_nat (S k)) =
  skipn (List.length items - S k) items.
Proof.
  unfold array_slice_from, clamp_index.
  destruct (Z.ltb_spec (- Z.of_nat (S k)) 0) as [H|H]; [f_equal|]; lia.
Qed.

Lemma last_of_last {A : Type} (k : nat) (X : list A) (e : A) :
  skipn (List.length (skipn (List.length X - S k) X ++ [e]) - S k)
    (skipn (List.length X - S k) X ++ [e]) =
  skipn (List.length (X ++ [e]) - S k) (X ++ [e]).
Proof.
  rewrite !length_app, length_skipn. cbn [List.length].
  destruct (Nat.le_gt_cases (List.length X) (S k)) as [H|H].
  - replace (List.length X - S k) with 0 by lia. cbn [skipn].
    rewrite Nat.sub_0_r. reflexivity.
  - replace (List.length X - (List.length X - S k) + 1 - S k) with 1 by lia.
    replace (List.length X + 1 - S k) with (1 + (List.length X - S k)) by lia.
    rewrite !skipn_app, length_skipn, skipn_skipn.
    replace (1 - (List.length X - (List.length X - S k))) with 0 by lia.
    replace (1 + (List.length X - S k) - List.length X) with 0 by lia.
    reflexivity.
Qed.

(** One call of [appendLog] keeps at most 300 lines, the new line last: the
    new log is the old one with the new line at its end, less the oldest
    lines above 300. *)
Theorem appendLog_keeps_newest (time line : jstring) (L : list jstring) :
  List.length (appendLog time line L) = Nat.min (S (List.length L)) 300
  /\ exists old kept,
       L = old ++ kept
       /\ appendLog time line L = kept ++ [log_line time line]
       /\ List.length old = S (List.length L) - 300.
Proof.
  unfold appendLog. rewrite (array_slice_last _ 299).
  rewrite length_skipn, !length_app. cbn [List.length]. split; [lia|].
  exists (firstn (List.length L + 1 - 300) L), (skipn (List.length L + 1 - 300) L).
  split; [now rewrite firstn_skipn|]. split.
  - rewrite skipn_app.
    replace (List.length L + 1 - 300 - List.length L) with 0 by lia.
    reflexivity.
  - rewrite length_firstn. lia.
Qed.

(** The log after any number of calls of [appendLog], from the empty log, is
    the last 300 of all the lines logged. *)
Theorem appendLog_history (entries : list (jstring * jstring)) :
  fold_left (fun L e => appendLog (fst e) (snd e) L) entries [] =
  array_slice_from (List.map (fun e => log_line (fst e) (snd e)) entries) (-300).
Proof.
  change (@nil jstring) with (array_slice_from (@nil jstring) (-300)).
  change (List.map _ entries)
    with ([] ++ List.map (fun e => log_line (fst e) (snd e)) entries).
  generalize (@nil jstring) as X. induction entries as [|e entries IH]; intros X.
  - now rewrite app_nil_r.
  - cbn [fold_left List.map].
    assert (E : appendLog (fst e) (snd e) (array_slice_from X (-300)) =
                array_slice_from (X ++ [log_line (fst e) (snd e)]) (-300)).
    { unfold appendLog. rewrite !(array_slice_last _ 299).
      apply (last_of_last 299). }
    rewrite E, IH, <- app_assoc. reflexivity.
Qed.

Lemma trim_end_app_all x b :
  forallb is_space b = true -> trim_end (x ++ b) = trim_end x.
Proof.
  intros H. induction x as [|c x IH]; [now apply trim_end_all|].
  simpl. now rewrite IH.
Qed.

Lemma trim_padding a k b :
  forallb is_space a = true -> forallb is_space b = true ->
  trim (a ++ k ++ b) = trim k.
Proof.
  intros Ha Hb. unfold trim, trim_start. rewrite (drop_while_app_all _ _ _ Ha).
  destruct (forallb is_space k) eqn:Hk.
  - rewrite !drop_while_all; [reflexivity | exact Hk|].
    now rewrite forallb_app, Hk, Hb.
  - rewrite (drop_while_app_stop _ _ _ Hk). now apply trim_end_app_all.
Qed.

(** White space around a key does not count: a key is accepted or refused
    as it is without it. *)
Theorem key_ok_ignores_padding (a k b : jstring) :
  forallb is_space a = true -> forallb is_space b = true ->
  key_ok (a ++ k ++ b) = key_ok k.
Proof. intros Ha Hb. unfold key_ok. now rewrite trim_padding. Qed.

Lemma key_ok_ignores_padding_witness :
  key_ok (str "  " ++ str "0123456789abcdef" ++ [32%N; 10%N]) =
  key_ok (str "0123456789abcdef").
Proof.
  apply (key_ok_ignores_padding (str "  ") (str "0123456789abcdef") [32%N; 10%N]);
    reflexivity.
Defined.

(** The step to the analysis opens only with two keys of at least sixteen
    characters each, neither made of white space alone. *)
Theorem canNext_needs_two_keys (assemblyai openrouter : jstring) :
  canNext assemblyai openrouter = true ->
  (16 <= List.length assemblyai /\ forallb is_space assemblyai = false)
  /\ (16 <= List.length openrouter /\ forallb is_space openrouter = false).
Proof.
  assert (K : forall k, key_ok k = true ->
                        16 <= List.length k /\ forallb is_space k = false).
  { intros k H. unfold key_ok in H. apply Nat.leb_le in H. split.
    - pose proof (subseq_length _ _ (trim_subseq k)). lia.
    - destruct (forallb is_space k) eqn:E; [|reflexivity].
      rewrite (trim_all_space _ E) in H. simpl in H. lia. }
  unfold canNext. intros H. apply andb_true_iff in H as [H1 H2]. auto.
Qed.

Lemma canNext_needs_two_keys_witness :
  (16 <= List.length (str "0123456789abcdef")
   /\ forallb is_space (str "0123456789abcdef") = false)
  /\ (16 <= List.length (str " sk-or-0123456789abcdef ")
      /\ forallb is_space (str " sk-or-0123456789abcdef ") = false).
Proof.
  apply (canNext_needs_two_keys (str "0123456789abcdef")
           (str " sk-or-0123456789abcdef ")).
  reflexivity.
Defined.

(* ================================================================== *)
(** ** Escaping and the layout of the formatters *)
(* ================================================================== *)

(** *** Reading an escaped text back *)

Lemma unesc_amp t : unesc (str "&amp;" ++ t) = 38%N :: unesc t.
Proof. reflexivity. Qed.

Lemma unesc_lt t : unesc (str "&lt;" ++ t) = 60%N :: unesc t.
Proof. reflexivity. Qed.

Lemma unesc_gt t : unesc (str "&gt;" ++ t) = 62%N :: unesc t.
Proof. reflexivity. Qed.

Lemma unesc_other c t : (c =? 38)%N = false -> unesc (c :: t) = c :: unesc t.
Proof.
  intros H. unfold unesc. cbn [unesc_from].
  change (str "&amp;") with [38; 97; 109; 112; 59]%N.
  change (str "&lt;") with [38; 108; 116; 59]%N.
  change (str "&gt;") with [38; 103; 116; 59]%N.
  cbn [prefixb]. rewrite H. reflexivity.
Qed.

Lemma unesc_esc s : unesc (esc s) = s.
Proof.
  induction s as [|c s IH]; [reflexivity|].
  rewrite esc_cons, esc_one.
  destruct (N.eqb_spec c 38) as [->|H38]; [now rewrite unesc_amp, IH|].
  destruct (N.eqb_spec c 60) as [->|H60]; [now rewrite unesc_lt, IH|].
  destruct (N.eqb_spec c 62) as [->|H62]; [now rewrite unesc_gt, IH|].
  simpl app. rewrite unesc_other by now apply N.eqb_neq. now rewrite IH.
Qed.

Lemma esc_escaped_form u : escaped_form_of u (esc u).
Proof.
  split; [apply escaped_escaped_ok, esc_escaped | apply unesc_esc].
Qed.

(** *** What [esc] does to one character *)

Lemma esc_one_cases c :
  (plain c = true /\ esc [c] = [c])
  \/ (plain c = false /\ is_space c = false /\ In (esc [c]) ENTITIES).
Proof.
  rewrite esc_one. unfold plain.
  destruct (N.eqb_spec c 38) as [->|H38];
    [right; repeat split; simpl; auto|].
  destruct (N.eqb_spec c 60) as [->|H60];
    [right; repeat split; simpl; auto|].
  destruct (N.eqb_spec c 62) as [->|H62];
    [right; repeat split; simpl; auto|].
  left. split; reflexivity.
Qed.

Lemma entity_head (cls : char -> bool) e t :
  (forall c, cls c = true -> is_space c = true) ->
  In e ENTITIES -> drop_while cls (e ++ t) = e ++ t.
Proof.
  intros H He. destruct (entity_shape e He) as (e' & -> & _).
  simpl. destruct (cls 38%N) eqn:E; [apply H in E; discriminate | reflexivity].
Qed.

Lemma esc_nil_inv s : esc s = [] -> s = [].
Proof. destruct s as [|c s]; [reflexivity|]. intros H. now apply esc_nonempty in H. Qed.

Lemma is_empty_esc s : is_empty (esc s) = is_empty s.
Proof.
  destruct s as [|c s]; [reflexivity|].
  destruct (esc (c :: s)) eqn:E; [now apply esc_nonempty in E | reflexivity].
Qed.

(** *** [esc] and the string operations of the formatters *)

Lemma drop_while_esc (cls : char -> bool) s :
  (forall c, cls c = true -> is_space c = true) ->
  drop_while cls (esc s) = esc (drop_while cls s).
Proof.
  intros H. induction s as [|c s IH]; [reflexivity|].
  rewrite esc_cons. destruct (esc_one_cases c) as [[_ E]|(_ & Hs & He)].
  - rewrite E. simpl. destruct (cls c); [exact IH | now rewrite (esc_cons c), E].
  - rewrite entity_head by assumption. simpl drop_while.
    destruct (cls c) eqn:E; [apply H in E; congruence|].
    now rewrite (esc_cons c s).
Qed.

Lemma trim_end_esc s : trim_end (esc s) = esc (trim_end s).
Proof.
  induction s as [|c s IH]; [reflexivity|].
  rewrite esc_cons. destruct (esc_one_cases c) as [[Hp E]|(_ & Hs & He)].
  - rewrite E. simpl. rewrite IH.
    destruct (trim_end s) as [|y t'] eqn:T.
    + simpl. destruct (is_space c); [reflexivity | now symmetry].
    + destruct (esc (y :: t')) eqn:F; [now apply esc_nonempty in F|].
      rewrite <- F. now rewrite (esc_cons c (y :: t')), E.
  - rewrite trim_end_solid by now apply entity_solid.
    rewrite trim_end_keep by exact Hs. now rewrite IH, (esc_cons c (trim_end s)).
Qed.

Lemma trim_esc s : trim (esc s) = esc (trim s).
Proof.
  unfold trim, trim_start. rewrite drop_while_esc by auto. apply trim_end_esc.
Qed.

Lemma map_esc_cons_head c parts :
  List.map esc (cons_head c parts) = app_head (esc [c]) (List.map esc parts).
Proof. destruct parts as [|l ls]; simpl; [reflexivity | now rewrite (esc_cons c l)]. Qed.

Lemma split_char_esc s :
  split_char 10%N (esc s) = List.map esc (split_char 10%N s).
Proof.
  induction s as [|c s IH]; [reflexivity|].
  rewrite esc_cons. destruct (esc_one_cases c) as [[Hp E]|(Hp & Hs & He)].
  - rewrite E. simpl. destruct (c =? 10)%N.
    + now rewrite IH.
    + rewrite IH, map_esc_cons_head, E. reflexivity.
  - rewrite split_char_solid by now apply entity_solid.
    simpl split_char. destruct (N.eqb_spec c 10) as [->|_]; [discriminate|].
    now rewrite IH, map_esc_cons_head.
Qed.

Lemma strip_colon_esc s :
  replace_first RE_FINAL_COLON [] (esc s)
  = esc (replace_first RE_FINAL_COLON [] s).
Proof.
  assert (U : forall c t,
             replace_first RE_FINAL_COLON [] (c :: t)
             = match RE_FINAL_COLON (c :: t) with
               | Some rest => [] ++ rest
               | None => c :: replace_first RE_FINAL_COLON [] t
               end) by reflexivity.
  induction s as [|c s IH]; [reflexivity|].
  rewrite (esc_cons c s). destruct (esc_one_cases c) as [[Hp E]|(Hp & Hs & He)].
  - rewrite E. simpl app. rewrite !U, !RE_FINAL_COLON_eq, IH.
    destruct s as [|d s].
    + simpl esc. destruct (c =? 58)%N; [reflexivity|]. simpl. now rewrite E.
    + destruct (esc (d :: s)) eqn:F; [now apply esc_nonempty in F|].
      rewrite (esc_cons c (replace_first RE_FINAL_COLON [] (d :: s))), E.
      reflexivity.
  - rewrite strip_colon_solid by now apply entity_solid.
    rewrite U, RE_FINAL_COLON_eq, IH.
    assert (N : (c =? 58)%N = false).
    { apply N.eqb_neq. intros ->. discriminate. }
    destruct s as [|d s]; rewrite ?N;
      now rewrite (esc_cons c (replace_first RE_FINAL_COLON [] _)).
Qed.

Lemma join_esc sep parts :
  esc sep = sep -> join sep (List.map esc parts) = esc (join sep parts).
Proof.
  intros H. induction parts as [|p [|q ps] IH]; [reflexivity | reflexivity|].
  change (join sep (List.map esc (p :: q :: ps)))
    with (esc p ++ sep ++ join sep (List.map esc (q :: ps))).
  change (join sep (p :: q :: ps)) with (p ++ sep ++ join sep (q :: ps)).
  now rewrite IH, !esc_app, H.
Qed.

Lemma esc_all_space m : forallb is_space m = true -> esc m = m.
Proof.
  intros H. apply esc_plain. apply forallb_forall. intros c Hc.
  rewrite forallb_forall in H. specialize (H c Hc).
  destruct (esc_one_cases c) as [[Hp _]|(_ & Hs & _)]; [exact Hp | congruence].
Qed.

Section RunsAndEscaping.

Variable n : nat.
Variable cls : char -> bool.
Variable rep : jstring.
Hypothesis cls_space : forall c, cls c = true -> is_space c = true.
Hypothesis rep_space : forallb is_space rep = true.

Let p : pat := p_at_least (S n) cls.

Lemma run_pattern_esc s :
  p (esc s) = match p s with Some r => Some (esc r) | None => None end.
Proof.
  unfold p, p_at_least. rewrite drop_while_esc by exact cls_space.
  destruct (drop_while_suffix cls s) as (m & E & Hm).
  assert (Em : esc m = m).
  { apply esc_all_space, forallb_forall. intros c Hc.
    rewrite forallb_forall in Hm. auto. }
  rewrite E at 1 3. rewrite esc_app, Em, !length_app.
  replace (List.length m + List.length (esc (drop_while cls s))
           - List.length (esc (drop_while cls s))) with (List.length m) by lia.
  replace (List.length m + List.length (drop_while cls s)
           - List.length (drop_while cls s)) with (List.length m) by lia.
  now destruct (S n <=? List.length m).
Qed.

Lemma replace_all_esc s :
  replace_all p rep (esc s) = esc (replace_all p rep s).
Proof.
  induction s as [s IH] using list_length_ind.
  pose proof (run_pattern_esc s) as E.
  destruct (p s) as [r|] eqn:F.
  - destruct (run_pattern_proper n cls _ _ F) as (c & m & G). subst s.
    rewrite (replace_all_match p rep c m r F).
    rewrite esc_app in E |- *.
    destruct (esc (c :: m)) as [|c' m'] eqn:K; [now apply esc_nonempty in K|].
    rewrite (replace_all_match p rep c' m' (esc r) E).
    rewrite IH by (rewrite length_app; simpl; lia).
    now rewrite esc_app, (esc_all_space rep rep_space).
  - destruct s as [|c t].
    + reflexivity.
    + rewrite (replace_all_skip p rep c t F).
      rewrite (esc_cons c (replace_all p rep t)), (esc_cons c t) in *.
      destruct (esc_one_cases c) as [[_ K]|(_ & _ & He)].
      * rewrite K in *. simpl app in *. rewrite (replace_all_skip p rep _ _ E).
        now rewrite IH by (simpl; lia).
      * rewrite replace_all_solid;
          [| now apply run_pattern_at_space | now apply entity_solid].
        now rewrite IH by (simpl; lia).
Qed.

Lemma split_re_esc s :
  split_re p (esc s) = List.map esc (split_re p s).
Proof.
  induction s as [s IH] using list_length_ind.
  pose proof (run_pattern_esc s) as E.
  destruct (p s) as [r|] eqn:F.
  - destruct (run_pattern_proper n cls _ _ F) as (c & m & G). subst s.
    rewrite (split_re_match p c m r F).
    rewrite esc_app in E |- *.
    destruct (esc (c :: m)) as [|c' m'] eqn:K; [now apply esc_nonempty in K|].
    rewrite (split_re_match p c' m' (esc r) E).
    rewrite IH by (rewrite length_app; simpl; lia). reflexivity.
  - destruct s as [|c t]; [reflexivity|].
    rewrite (split_re_skip p c t F), map_esc_cons_head.
    rewrite (esc_cons c t) in *.
    destruct (esc_one_cases c) as [[_ K]|(_ & _ & He)].
    + rewrite K in *. simpl app in *. rewrite (split_re_skip p _ _ E).
      rewrite IH by (simpl; lia). apply cons_head_app_head.
    + rewrite split_re_solid;
        [| now apply run_pattern_at_space | now apply entity_solid].
      now rewrite IH by (simpl; lia).
Qed.

End RunsAndEscaping.

Lemma RE_SPACES_esc s :
  replace_all RE_SPACES (str " ") (esc s)
  = esc (replace_all RE_SPACES (str " ") s).
Proof. exact (replace_all_esc 1 is_space (str " ") (fun c H => H) eq_refl s). Qed.

Lemma RE_BLANK_LINES_esc s :
  replace_all RE_BLANK_LINES [10%N; 10%N] (esc s)
  = esc (replace_all RE_BLANK_LINES [10%N; 10%N] s).
Proof. exact (replace_all_esc 2 is_nl [10%N; 10%N] is_nl_space eq_refl s). Qed.

Lemma RE_PARAGRAPH_BREAK_esc s :
  split_re RE_PARAGRAPH_BREAK (esc s)
  = List.map esc (split_re RE_PARAGRAPH_BREAK s).
Proof. exact (split_re_esc 1 is_nl is_nl_space s). Qed.

Lemma filter_nonempty_esc parts :
  filter (fun p => negb (is_empty p)) (List.map esc parts)
  = List.map esc (filter (fun p => negb (is_empty p)) parts).
Proof.
  induction parts as [|l ls IH]; [reflexivity|].
  simpl. rewrite is_empty_esc, IH. now destruct (is_empty l).
Qed.

(** *** The verbal formatter: the paragraphs of the input, escaped *)

Lemma toVerbalHTML_paragraphs c src :
  toVerbalHTML (c :: src)
  = join [10%N]
      (List.map (fun t => render (Para t))
         (List.map esc (verbal_paragraphs (c :: src)))).
Proof.
  unfold toVerbalHTML, verbal_paragraphs. cbn [is_empty].
  rewrite RE_BLANK_LINES_esc, trim_esc, RE_PARAGRAPH_BREAK_esc.
  rewrite map_map, (map_ext _ (fun x => esc (trim x)) trim_esc).
  rewrite <- (map_map trim esc). now rewrite filter_nonempty_esc.
Qed.

Lemma escaped_forms us : Forall2 escaped_form_of us (List.map esc us).
Proof.
  induction us as [|u us IH]; constructor; [apply esc_escaped_form | exact IH].
Qed.

(** *** The written formatter: each block from lines of the input *)

Section SectionedFrom.

Variable src : jstring.

Let Qr (raw : jstring) : Prop :=
  exists u, In u (split_char 10%N src) /\ raw = esc u.
Let Qp (l : jstring) : Prop :=
  exists u, In u (trimmed_lines src) /\ l = esc u.
Let BP (t : jstring) : Prop := sectioned_from src (Para t).
Let BH (t : jstring) : Prop := sectioned_from src (Heading t).

Lemma kept_line_from raw : Qr raw -> Qp (trim raw).
Proof.
  intros (u & Hu & ->). exists (trim u). split; [|apply trim_esc].
  unfold trimmed_lines. now apply in_map.
Qed.

Lemma kept_lines_from lines :
  Forall Qp lines ->
  exists us, incl us (trimmed_lines src) /\ lines = List.map esc us.
Proof.
  induction 1 as [|l ls (u & Hu & ->) _ (us & Hus & ->)].
  - exists []. split; [intros x [] | reflexivity].
  - exists (u :: us). split; [|reflexivity].
    intros x [<-|Hx]; auto.
Qed.

Lemma paragraph_from lines :
  Forall Qp lines ->
  BP (trim (replace_all RE_SPACES (str " ") (join (str " ") lines))).
Proof.
  intros H. destruct (kept_lines_from lines H) as (us & Hus & ->).
  exists us. split; [exact Hus|].
  rewrite (join_esc (str " ") us eq_refl), RE_SPACES_esc, trim_esc.
  apply esc_escaped_form.
Qed.

Lemma heading_from raw :
  Qr raw -> BH (replace_first RE_FINAL_COLON [] (trim raw)).
Proof.
  intros H. destruct (kept_line_from raw H) as (u & Hu & ->).
  exists u. split; [exact Hu|]. rewrite strip_colon_esc. apply esc_escaped_form.
Qed.

Lemma line_step_from st raw :
  loop_inv_for Qp BP BH st -> Qr raw -> loop_inv_for Qp BP BH (line_step st raw).
Proof.
  intros Hst Hraw. unfold line_step.
  pose proof (kept_line_from raw Hraw) as Hl.
  pose proof (flushPara_inv_for Qp BP BH paragraph_from st Hst) as Hf.
  destruct (is_empty (trim raw)); [exact Hf|].
  destruct (test_at_start HEADING (trim raw)).
  - destruct Hf as [[blocks [Eo Hb]] Hp]. split; [|exact Hp]. cbn [out].
    exists (blocks ++ [Heading (replace_first RE_FINAL_COLON [] (trim raw))]).
    split.
    + rewrite map_app, Eo. reflexivity.
    + apply Forall_app. split; [exact Hb|].
      constructor; [now apply heading_from | constructor].
  - destruct (test_at_start RE_VERBAL_LABEL (trim raw)); [exact Hf|].
    destruct (test WRITTEN_ANCHOR (trim raw)); [exact Hf|].
    destruct Hst as [Ho Hp]. split; [exact Ho|]. cbn [para].
    apply Forall_app. split; [exact Hp | repeat constructor; exact Hl].
Qed.

Lemma fold_line_step_from lines st :
  Forall Qr lines -> loop_inv_for Qp BP BH st ->
  loop_inv_for Qp BP BH (fold_left line_step lines st).
Proof.
  intros H. revert st. induction H as [|l ls Hl _ IH]; intros st Hst; [exact Hst|].
  simpl. apply IH. now apply line_step_from.
Qed.

Lemma toSectionedHTML_from :
  src <> [] -> made_of (sectioned_from src) (toSectionedHTML src).
Proof.
  intros Hne. unfold toSectionedHTML.
  assert (E : is_empty src = false) by (destruct src; [now elim Hne | reflexivity]).
  rewrite E.
  assert (L : Forall Qr (split_char 10%N (esc src))).
  { rewrite split_char_esc. apply Forall_forall. intros l Hl.
    apply in_map_iff in Hl as (u & <- & Hu). exists u. split; [exact Hu | reflexivity]. }
  destruct (flushPara_inv_for Qp BP BH paragraph_from _
              (fold_line_step_from _ (mkBlocks [] []) L
                 (conj (ex_intro _ [] (conj eq_refl (Forall_nil _)))
                       (Forall_nil _))))
    as [[blocks [Eo Hb]] _].
  exists blocks. split; [now rewrite Eo|].
  eapply Forall_impl; [|exact Hb]. now intros [t'|t'].
Qed.

End SectionedFrom.

(** C1: for every input of [toSectionedHTML] and [toVerbalHTML] that is not
    empty, the output is a sequence of [<p>] and [<h3>] elements, one per
    line, the only tags being those the formatter adds, and the text inside
    each element is the escaped form of text of the input: it holds no raw
    [<] or [>], every [&] in it starts one of [&amp;], [&lt;], [&gt;], and
    with each entity read as the character it names it is text of the
    input, so that every [&], [<], [>] of the input that reaches the output
    is there as its own entity.  For the written formatter the text of a
    heading stands for a trimmed line of the input without its final colon,
    and the text of a paragraph for trimmed lines of the input joined by
    blanks with white space collapsed; for the verbal formatter the texts of
    the [<p>] elements stand for the paragraphs of the input, one for one.
    On the empty input both formatters give the fixed text
    [<p>Not provided.</p>]. *)
Theorem formatters_escape_input (src : jstring) :
  (src = [] /\ toSectionedHTML src = NOT_PROVIDED
   /\ toVerbalHTML src = NOT_PROVIDED)
  \/ (made_of (sectioned_from src) (toSectionedHTML src)
      /\ exists texts,
           toVerbalHTML src
           = join [10%N] (List.map (fun t => render (Para t)) texts)
           /\ Forall2 escaped_form_of (verbal_paragraphs src) texts).
Proof.
  destruct src as [|c t]; [left; repeat split|right]. split.
  - now apply toSectionedHTML_from.
  - exists (List.map esc (verbal_paragraphs (c :: t))).
    split; [apply toVerbalHTML_paragraphs | apply escaped_forms].
Qed.
